(** * La Arcada de Foca: the response protocol and its parser

    A shallow embedding of the text-handling core of the application:
    [parseAiOutput], the response handlers [handleGenerate] and
    [handleFileSelected], the export format of [handleExport], the label
    decoder of [generateHtmlTemplate], the parameter coercion of
    [analyzeGameScript] and the idea splitter of [ChatPanel].

    A JavaScript string is a sequence of UTF-16 code units; it is modelled
    as a list of numbers ([str]).  A JavaScript exception is modelled by the
    [Throw] case of [completion]. *)

From Stdlib Require Import List NArith ZArith Bool Arith Lia Ascii String.
Import ListNotations.
Local Open Scope N_scope.
Local Open Scope list_scope.

(** ** JavaScript strings *)

Definition str := list N.

(** [u16 s] is the JavaScript string whose code units are the characters of
    the (ASCII) literal [s]. *)
Definition u16 (s : string) : str :=
  List.map N_of_ascii (list_ascii_of_string s).

(** [jq s] is [u16 s] with every apostrophe (39) replaced by a double
    quote (34): JSON text is written with apostrophes in the literals of this
    file. *)
Definition jq (s : string) : str :=
  List.map (fun c => if c =? 39 then 34 else c) (u16 s).

Definition str_eqb (a b : str) : bool :=
  if list_eq_dec N.eq_dec a b then true else false.

Module Str.

(** WhiteSpace and LineTerminator code units of ECMAScript, the set that
    [String.prototype.trim] and the regular expression class [\s] use. *)
Definition is_white_space (c : N) : bool :=
  (c =? 9) || (c =? 10) || (c =? 11) || (c =? 12) || (c =? 13) || (c =? 32)
  || (c =? 160) || (c =? 5760) || ((8192 <=? c) && (c <=? 8202))
  || (c =? 8232) || (c =? 8233) || (c =? 8239) || (c =? 8287)
  || (c =? 12288) || (c =? 65279).

Definition is_digit (c : N) : bool := (48 <=? c) && (c <=? 57).

Fixpoint trimStart (s : str) : str :=
  match s with
  | [] => []
  | c :: r => if is_white_space c then trimStart r else s
  end.

Definition trimEnd (s : str) : str := rev (trimStart (rev s)).

Definition trim (s : str) : str := trimEnd (trimStart s).

(** [s.startsWith(p)] *)
Fixpoint startsWith (s p : str) {struct p} : bool :=
  match p, s with
  | [], _ => true
  | _ :: _, [] => false
  | a :: p', b :: s' => (a =? b) && startsWith s' p'
  end.

Definition endsWith (s p : str) : bool := startsWith (rev s) (rev p).

(** [s.indexOf(p)]; [None] stands for the result -1. *)
Fixpoint indexOf (s p : str) : option nat :=
  if startsWith s p then Some 0%nat
  else match s with
       | [] => None
       | _ :: r => option_map S (indexOf r p)
       end.

Definition includes (s p : str) : bool :=
  match indexOf s p with Some _ => true | None => false end.

(** [s.substring(0, n)] and [s.substring(n)] for [n] within the string. *)
Definition substring_to (s : str) (n : nat) : str := firstn n s.
Definition substring_from (s : str) (n : nat) : str := skipn n s.

(** [s.slice(1, -1)] *)
Definition slice_1_m1 (s : str) : str := removelast (tl s).

(** [s.split(sep)] for a non-empty separator: the pieces between the
    successive leftmost occurrences of [sep].  [skip] counts the code units
    of a matched separator that are still to be passed over; [cur] is the
    current piece, reversed. *)
Fixpoint split_go (sep s : str) (skip : nat) (cur : str) : list str :=
  match s with
  | [] => [rev cur]
  | c :: r =>
      match skip with
      | S k => split_go sep r k cur
      | O => if startsWith s sep
             then rev cur :: split_go sep r (List.length sep - 1) []
             else split_go sep r 0 (c :: cur)
      end
  end.

Definition split (s sep : str) : list str := split_go sep s 0 [].

(** ASCII case folding, as the [i] flag of a regular expression applies it
    to a pattern of ASCII letters. *)
Definition lower (c : N) : N :=
  if (65 <=? c) && (c <=? 90) then c + 32 else c.

Fixpoint startsWith_ci (s p : str) {struct p} : bool :=
  match p, s with
  | [], _ => true
  | _ :: _, [] => false
  | a :: p', b :: s' => (lower a =? lower b) && startsWith_ci s' p'
  end.

Fixpoint indexOf_ci (s p : str) : option nat :=
  if startsWith_ci s p then Some 0%nat
  else match s with
       | [] => None
       | _ :: r => option_map S (indexOf_ci r p)
       end.

(** [s.replace] of the global pattern that matches a double quote, by a
    backslash and a double quote. *)
Fixpoint escape_double_quotes (s : str) : str :=
  match s with
  | [] => []
  | c :: r => if c =? 34 then 92 :: 34 :: escape_double_quotes r
              else c :: escape_double_quotes r
  end.

End Str.

(** ** Completions: a value, or a thrown exception *)

Inductive js_error : Type :=
| SyntaxError (message : str)
| TypeError (message : str)
| RangeError (message : str).

Definition message (e : js_error) : str :=
  match e with
  | SyntaxError m => m
  | TypeError m => m
  | RangeError m => m
  end.

Inductive completion (A : Type) : Type :=
| Normal (a : A)
| Throw (e : js_error).

Arguments Normal {A} a.
Arguments Throw {A} e.

(** [try { body } catch (e) { handler e }] *)
Definition try_catch {A : Type} (body : completion A)
    (handler : js_error -> completion A) : completion A :=
  match body with
  | Normal a => Normal a
  | Throw e => handler e
  end.

Definition bind {A B : Type} (c : completion A) (k : A -> completion B)
    : completion B :=
  match c with
  | Normal a => k a
  | Throw e => Throw e
  end.

Notation "x <- c ;; k" := (bind c (fun x => k))
  (at level 61, c at next level, right associativity).

(** ** JSON values

    A number is kept as the decimal [m * 10^e] that was read, except where it
    rounds to zero or overflows as a binary64 value: these two cases decide
    truthiness and serialization and are modelled exactly.  Rounding of the
    other numbers to binary64 is outside the model. *)

Inductive jsnumber : Type :=
| Finite (m e : Z)
| Infinite (negative : bool).

#[warnings="-register-all"]
Inductive json : Type :=
| JNull
| JBool (b : bool)
| JNum (n : jsnumber)
| JStr (s : str)
| JArr (items : list json)
| JObj (fields : list (str * json)).

(** The result of a property read or of an expression: [None] is
    [undefined]. *)
Definition jsval := option json.

Module Num.
Local Open Scope Z_scope.

(** [|m * 10^e| <= 2^-1075]: the decimal rounds to zero. *)
Definition rounds_to_zero (m e : Z) : bool :=
  if m =? 0 then true
  else if 0 <=? e then false
  else Z.abs m * 2 ^ 1075 <=? 10 ^ (- e).

(** [|m * 10^e| >= 2^1024 - 2^970]: the decimal rounds to an infinity. *)
Definition overflows (m e : Z) : bool :=
  if m =? 0 then false
  else if 0 <=? e then 2 ^ 1024 - 2 ^ 970 <=? Z.abs m * 10 ^ e
  else (2 ^ 1024 - 2 ^ 970) * 10 ^ (- e) <=? Z.abs m.

(** Removes the factors 10 of a mantissa. *)
Fixpoint strip_zeros (fuel : nat) (m e : Z) : Z * Z :=
  match fuel with
  | O => (m, e)
  | S f => if (m mod 10 =? 0) && negb (m =? 0)
           then strip_zeros f (m / 10) (e + 1)
           else (m, e)
  end.

Definition of_decimal (negative : bool) (m e : Z) : jsnumber :=
  if rounds_to_zero m e then Finite 0 0
  else if overflows m e then Infinite negative
  else let (m', e') := strip_zeros (Z.to_nat (Z.log2 m) + 1) m e in
       Finite (if negative then - m' else m') e'.

Definition is_zero (n : jsnumber) : bool :=
  match n with
  | Finite m e => rounds_to_zero m e
  | Infinite _ => false
  end.

Fixpoint digits_fuel (fuel : nat) (n : N) (acc : str) : str :=
  match fuel with
  | O => acc
  | S f => if (n <? 10)%N then (48 + n)%N :: acc
           else digits_fuel f (n / 10)%N ((48 + n mod 10)%N :: acc)
  end.

(** The decimal digits of a natural number. *)
Definition decimal_digits (n : N) : str :=
  digits_fuel (S (N.to_nat (N.log2 n))) n [].

Definition zeros (n : Z) : str := repeat 48%N (Z.to_nat n).

(** Number::toString for the decimal [m * 10^e], [m] without factor 10:
    the digits of the decimal itself, which are those that the conversion
    prints for a decimal of at most fifteen significant digits in the range
    of the normal numbers; the rounding of a longer decimal to the nearest
    binary64 value is not part of this model. *)
Definition to_string (x : jsnumber) : str :=
  match x with
  | Infinite negative =>
      if negative then u16 "-Infinity" else u16 "Infinity"
  | Finite m e =>
      if m =? 0 then u16 "0"
      else
        let sign := if m <? 0 then u16 "-" else [] in
        let ds := decimal_digits (Z.to_N (Z.abs m)) in
        let k := Z.of_nat (List.length ds) in
        let n := k + e in
        let body :=
          if (k <=? n) && (n <=? 21) then ds ++ zeros (n - k)
          else if (0 <? n) && (n <=? 21)
               then firstn (Z.to_nat n) ds ++ u16 "." ++ skipn (Z.to_nat n) ds
          else if (-6 <? n) && (n <=? 0)
               then u16 "0." ++ zeros (- n) ++ ds
          else
            let ex := (if 0 <=? n - 1 then u16 "+" else u16 "-")
                        ++ decimal_digits (Z.to_N (Z.abs (n - 1))) in
            match ds with
            | [d] => [d] ++ u16 "e" ++ ex
            | d :: rest => [d] ++ u16 "." ++ rest ++ u16 "e" ++ ex
            | [] => []
            end
        in sign ++ body
  end.
End Num.

(** ** Values as JavaScript sees them *)

(** ToBoolean *)
Definition truthy (v : jsval) : bool :=
  match v with
  | None => false
  | Some JNull => false
  | Some (JBool b) => b
  | Some (JNum n) => negb (Num.is_zero n)
  | Some (JStr s) => match s with [] => false | _ => true end
  | Some (JArr _) => true
  | Some (JObj _) => true
  end.

Definition isArray (v : jsval) : bool :=
  match v with
  | Some (JArr _) => true
  | _ => false
  end.

Fixpoint lookup (k : str) (fields : list (str * json)) : option json :=
  match fields with
  | [] => None
  | (k', v) :: rest => if str_eqb k k' then Some v else lookup k rest
  end.

(** [v.k] for a property name [k] that no prototype defines (none of the
    names read in this program is a property of [Object.prototype],
    [Array.prototype] or of a wrapper prototype): an own property of an
    object, [undefined] on other values, a [TypeError] on [null]. *)
Definition prop (v : json) (k : str) : completion jsval :=
  match v with
  | JNull =>
      Throw (TypeError (u16 "Cannot read properties of null (reading '"
                          ++ k ++ u16 "')"))
  | JObj fields => Normal (lookup k fields)
  | _ => Normal None
  end.

Fixpoint join (sep : str) (l : list str) : str :=
  match l with
  | [] => []
  | [x] => x
  | x :: rest => x ++ sep ++ join sep rest
  end.

(** ToString, as a template literal applies it.  An array is joined at
    commas, a null element giving the empty text.  An object without an own
    property [toString] inherits the method of [Object.prototype]; an own
    property [toString] of a JSON value is never callable and hides that
    method, and the [valueOf] that is tried next gives no primitive: the
    conversion raises a [TypeError]. *)
Fixpoint js_to_string (v : json) : completion str :=
  match v with
  | JNull => Normal (u16 "null")
  | JBool true => Normal (u16 "true")
  | JBool false => Normal (u16 "false")
  | JNum n => Normal (Num.to_string n)
  | JStr s => Normal s
  | JArr items =>
      texts <- (fix elements (l : list json) : completion (list str) :=
                  match l with
                  | [] => Normal []
                  | x :: rest =>
                      text <- match x with
                              | JNull => Normal []
                              | _ => js_to_string x
                              end ;;
                      texts <- elements rest ;;
                      Normal (text :: texts)
                  end) items ;;
      Normal (join (u16 ",") texts)
  | JObj fields =>
      match lookup (u16 "toString") fields with
      | Some _ =>
          Throw (TypeError (u16 "Cannot convert object to primitive value"))
      | None => Normal (u16 "[object Object]")
      end
  end.

(** ** [JSON.parse]

    A recursive-descent reader of the JSON grammar.  [fuel] bounds the number
    of nested calls; [JSON_parse] gives enough of it ([parse_value_fuel]). *)

Module Json.

Inductive presult (A : Type) : Type :=
| POk (a : A) (rest : str)
| PErr (at_input : str)
| PFuel.

Arguments POk {A} a rest.
Arguments PErr {A} at_input.
Arguments PFuel {A}.

Definition is_ws (c : N) : bool :=
  (c =? 32) || (c =? 9) || (c =? 10) || (c =? 13).

Fixpoint skip_ws (s : str) : str :=
  match s with
  | [] => []
  | c :: r => if is_ws c then skip_ws r else s
  end.

Definition hex_value (c : N) : option N :=
  if (48 <=? c) && (c <=? 57) then Some (c - 48)
  else if (97 <=? c) && (c <=? 102) then Some (c - 87)
  else if (65 <=? c) && (c <=? 70) then Some (c - 55)
  else None.

Definition hex4 (a b c d : N) : option N :=
  match hex_value a, hex_value b, hex_value c, hex_value d with
  | Some x, Some y, Some z, Some w => Some (((x * 16 + y) * 16 + z) * 16 + w)
  | _, _, _, _ => None
  end.

(** The character that a one-letter escape stands for. *)
Definition simple_escape (c : N) : option N :=
  if c =? 34 then Some 34            (* quote *)
  else if c =? 92 then Some 92       (* backslash *)
  else if c =? 47 then Some 47       (* slash *)
  else if c =? 98 then Some 8        (* b: backspace *)
  else if c =? 102 then Some 12      (* f: form feed *)
  else if c =? 110 then Some 10      (* n: line feed *)
  else if c =? 114 then Some 13      (* r: carriage return *)
  else if c =? 116 then Some 9       (* t: tab *)
  else None.

Definition pcons (c : N) (r : presult str) : presult str :=
  match r with
  | POk s rest => POk (c :: s) rest
  | other => other
  end.

(** The characters of a string literal, after its opening quote. *)
Fixpoint parse_chars (s : str) : presult str :=
  match s with
  | [] => PErr []
  | c :: r =>
      if c =? 34 then POk [] r
      else if c =? 92 then
        match r with
        | [] => PErr []
        | e :: r1 =>
            if e =? 117 then
              match r1 with
              | h1 :: h2 :: h3 :: h4 :: r2 =>
                  match hex4 h1 h2 h3 h4 with
                  | Some u => pcons u (parse_chars r2)
                  | None => PErr r1
                  end
              | _ => PErr r1
              end
            else
              match simple_escape e with
              | Some u => pcons u (parse_chars r1)
              | None => PErr r
              end
        end
      else if c <? 32 then PErr s
      else pcons c (parse_chars r)
  end.

Fixpoint span_digits (s : str) : str * str :=
  match s with
  | [] => ([], [])
  | c :: r => if Str.is_digit c
              then let (ds, rest) := span_digits r in (c :: ds, rest)
              else ([], s)
  end.

Definition digits_value (ds : str) : Z :=
  fold_left (fun acc d => (10 * acc + Z.of_N (d - 48))%Z) ds 0%Z.

Definition pbind {A B : Type} (r : presult A) (k : A -> str -> presult B)
    : presult B :=
  match r with
  | POk a rest => k a rest
  | PErr a => PErr a
  | PFuel => PFuel
  end.

(** The optional minus sign of a number. *)
Definition number_sign (s : str) : bool * str :=
  match s with
  | c :: r => if c =? 45 then (true, r) else (false, s)
  | [] => (false, s)
  end.

(** The integer part: a single 0, or a digit 1-9 followed by digits. *)
Definition number_int (s : str) : presult str :=
  match s with
  | [] => PErr []
  | c :: r =>
      if negb (Str.is_digit c) then PErr s
      else if c =? 48 then POk [48] r
      else let (ds, rest) := span_digits s in POk ds rest
  end.

(** The optional fraction: a point and at least one digit. *)
Definition number_frac (s : str) : presult str :=
  match s with
  | c :: r =>
      if c =? 46 then
        match span_digits r with
        | ([], _) => PErr r
        | (fd, rest) => POk fd rest
        end
      else POk [] s
  | [] => POk [] s
  end.

(** The optional exponent: e or E, an optional sign, at least one digit. *)
Definition number_exp (s : str) : presult Z :=
  match s with
  | x :: r =>
      if (x =? 101) || (x =? 69) then
        let (eneg, r') :=
          match r with
          | c :: r' => if c =? 45 then (true, r')
                       else if c =? 43 then (false, r')
                       else (false, r)
          | [] => (false, r)
          end in
        match span_digits r' with
        | ([], _) => PErr r'
        | (ed, rest) =>
            POk (if eneg then (- digits_value ed)%Z else digits_value ed) rest
        end
      else POk 0%Z s
  | [] => POk 0%Z s
  end.

(** A number: sign, integer part, fraction and exponent. *)
Definition parse_number (s : str) : presult jsnumber :=
  let (negative, s1) := number_sign s in
  pbind (number_int s1) (fun int_ds s2 =>
  pbind (number_frac s2) (fun frac_ds s3 =>
  pbind (number_exp s3) (fun ex s4 =>
    POk (Num.of_decimal negative
           (digits_value (int_ds ++ frac_ds))
           (ex - Z.of_nat (List.length frac_ds))%Z) s4))).

(** *** Objects: own properties in the order of [OrdinaryOwnPropertyKeys] *)

(** The array index that a property name is the canonical form of. *)
Definition array_index (k : str) : option N :=
  match k with
  | [] => None
  | c :: r =>
      if forallb Str.is_digit k && ((List.length k =? 1)%nat || negb (c =? 48))
      then let v := Z.to_N (digits_value k) in
           if v <=? 4294967294 then Some v else None
      else None
  end.

Fixpoint replace_field (k : str) (v : json) (fields : list (str * json))
    : list (str * json) :=
  match fields with
  | [] => []
  | (k', v') :: rest =>
      if str_eqb k k' then (k', v) :: rest
      else (k', v') :: replace_field k v rest
  end.

Fixpoint insert_index (i : N) (k : str) (v : json)
    (fields : list (str * json)) : list (str * json) :=
  match fields with
  | [] => [(k, v)]
  | (k', v') :: rest =>
      match array_index k' with
      | Some j => if j <? i then (k', v') :: insert_index i k v rest
                  else (k, v) :: fields
      | None => (k, v) :: fields
      end
  end.

(** CreateDataProperty: an existing key keeps its place and takes the new
    value; a new array index goes among the indices in ascending order; any
    other new key goes last. *)
Definition define (fields : list (str * json)) (kv : str * json)
    : list (str * json) :=
  let (k, v) := kv in
  match lookup k fields with
  | Some _ => replace_field k v fields
  | None =>
      match array_index k with
      | Some i => insert_index i k v fields
      | None => fields ++ [(k, v)]
      end
  end.

Definition make_object (members : list (str * json)) : json :=
  JObj (fold_left define members []).

(** *** Values *)

Definition lift {A B : Type} (f : A -> B) (r : presult A) : presult B :=
  match r with
  | POk a rest => POk (f a) rest
  | PErr a => PErr a
  | PFuel => PFuel
  end.

(** [s] starts with the character [c], white space apart. *)
Definition next_is (c : N) (s : str) : bool :=
  match skip_ws s with
  | x :: _ => x =? c
  | [] => false
  end.

Fixpoint parse_value (fuel : nat) (s : str) : presult json :=
  match fuel with
  | O => PFuel
  | S f =>
      match skip_ws s with
      | [] => PErr []
      | c :: r =>
          if c =? 123 then
            if next_is 125 r then POk (JObj []) (tl (skip_ws r))
            else lift make_object (parse_members f r)
          else if c =? 91 then
            if next_is 93 r then POk (JArr []) (tl (skip_ws r))
            else lift JArr (parse_elements f r)
          else if c =? 34 then lift JStr (parse_chars r)
          else if Str.startsWith (c :: r) (u16 "true")
               then POk (JBool true) (skipn 4 (c :: r))
          else if Str.startsWith (c :: r) (u16 "false")
               then POk (JBool false) (skipn 5 (c :: r))
          else if Str.startsWith (c :: r) (u16 "null")
               then POk JNull (skipn 4 (c :: r))
          else if (c =? 45) || Str.is_digit c
               then lift JNum (parse_number (c :: r))
          else PErr (c :: r)
      end
  end

with parse_elements (fuel : nat) (s : str) : presult (list json) :=
  match fuel with
  | O => PFuel
  | S f =>
      pbind (parse_value f s) (fun v r =>
        match skip_ws r with
        | [] => PErr []
        | c :: r' =>
            if c =? 44 then lift (cons v) (parse_elements f r')
            else if c =? 93 then POk [v] r'
            else PErr (c :: r')
        end)
  end

with parse_members (fuel : nat) (s : str) : presult (list (str * json)) :=
  match fuel with
  | O => PFuel
  | S f =>
      match skip_ws s with
      | [] => PErr []
      | q :: r =>
          if negb (q =? 34) then PErr (q :: r)
          else
            pbind (parse_chars r) (fun k r1 =>
              match skip_ws r1 with
              | [] => PErr []
              | c :: r2 =>
                  if negb (c =? 58) then PErr (c :: r2)
                  else
                    pbind (parse_value f r2) (fun v r3 =>
                      match skip_ws r3 with
                      | [] => PErr []
                      | d :: r4 =>
                          if d =? 44
                          then lift (cons (k, v)) (parse_members f r4)
                          else if d =? 125 then POk [(k, v)] r4
                          else PErr (d :: r4)
                      end)
              end)
      end
  end.

(** The message of the [SyntaxError]; its wording is the engine's, here in
    the shape V8 gives it. *)
Definition syntax_error (text at_input : str) : js_error :=
  match at_input with
  | [] => SyntaxError (u16 "Unexpected end of JSON input")
  | c :: _ =>
      SyntaxError
        (u16 "Unexpected token " ++ [c] ++ u16 " in JSON at position "
           ++ Num.decimal_digits
                (N.of_nat (List.length text - List.length at_input)))
  end.

End Json.

(** [JSON.parse(text)] *)
Definition JSON_parse (text : str) : completion json :=
  match Json.parse_value (2 * List.length text + 2) text with
  | Json.POk v rest =>
      match Json.skip_ws rest with
      | [] => Normal v
      | other => Throw (Json.syntax_error text other)
      end
  | Json.PErr a => Throw (Json.syntax_error text a)
  | Json.PFuel => Throw (RangeError (u16 "Maximum call stack size exceeded"))
  end.

(** ** [JSON.stringify] *)

Module Stringify.

Definition hex_digit (n : N) : N := if n <? 10 then 48 + n else 87 + n.

(** The escape [\uXXXX] of a code unit, in lowercase hexadecimal. *)
Definition unicode_escape (c : N) : str :=
  [92; 117; hex_digit (c / 4096 mod 16); hex_digit (c / 256 mod 16);
   hex_digit (c / 16 mod 16); hex_digit (c mod 16)].

Definition is_lead_surrogate (c : N) : bool := (55296 <=? c) && (c <=? 56319).
Definition is_trail_surrogate (c : N) : bool := (56320 <=? c) && (c <=? 57343).

(** The characters of QuoteJSONString, between the quotes. *)
Fixpoint quote_chars (s : str) : str :=
  match s with
  | [] => []
  | c :: r =>
      if c =? 34 then 92 :: 34 :: quote_chars r
      else if c =? 92 then 92 :: 92 :: quote_chars r
      else if c =? 8 then 92 :: 98 :: quote_chars r
      else if c =? 12 then 92 :: 102 :: quote_chars r
      else if c =? 10 then 92 :: 110 :: quote_chars r
      else if c =? 13 then 92 :: 114 :: quote_chars r
      else if c =? 9 then 92 :: 116 :: quote_chars r
      else if c <? 32 then unicode_escape c ++ quote_chars r
      else if is_lead_surrogate c then
        match r with
        | d :: r' =>
            if is_trail_surrogate d then c :: d :: quote_chars r'
            else unicode_escape c ++ quote_chars r
        | [] => unicode_escape c
        end
      else if is_trail_surrogate c then unicode_escape c ++ quote_chars r
      else c :: quote_chars r
  end.

Definition quote (s : str) : str := [34] ++ quote_chars s ++ [34].

Definition number (n : jsnumber) : str :=
  match n with
  | Finite _ _ => Num.to_string n
  | Infinite _ => u16 "null"
  end.

(** SerializeJSONProperty with the gap [gap], at the indentation
    [indent]. *)
Fixpoint value (gap indent : str) (v : json) : str :=
  match v with
  | JNull => u16 "null"
  | JBool true => u16 "true"
  | JBool false => u16 "false"
  | JNum n => number n
  | JStr s => quote s
  | JArr items =>
      match items with
      | [] => u16 "[]"
      | _ =>
          let inner := indent ++ gap in
          let parts := List.map (value gap inner) items in
          match gap with
          | [] => u16 "[" ++ join (u16 ",") parts ++ u16 "]"
          | _ => u16 "[" ++ [10] ++ inner
                   ++ join (u16 "," ++ [10] ++ inner) parts
                   ++ [10] ++ indent ++ u16 "]"
          end
      end
  | JObj fields =>
      match fields with
      | [] => u16 "{}"
      | _ =>
          let inner := indent ++ gap in
          let colon := match gap with [] => u16 ":" | _ => u16 ": " end in
          let parts :=
            List.map (fun kv => quote (fst kv) ++ colon
                                  ++ value gap inner (snd kv)) fields in
          match gap with
          | [] => u16 "{" ++ join (u16 ",") parts ++ u16 "}"
          | _ => u16 "{" ++ [10] ++ inner
                   ++ join (u16 "," ++ [10] ++ inner) parts
                   ++ [10] ++ indent ++ u16 "}"
          end
      end
  end.

End Stringify.

(** [JSON.stringify(v)] *)
Definition JSON_stringify (v : json) : str := Stringify.value [] [] v.

(** [JSON.stringify(v, null, 2)] *)
Definition JSON_stringify_2 (v : json) : str :=
  Stringify.value (u16 "  ") [] v.

(** ** The response parser: [parseAiOutput] *)

Record ParseResult : Type := {
  gameData : option json;
  gameScript : option str;
  error : option str
}.

Definition codeSeparator : str := u16 "%%BEGINCODE%%".
Definition endSeparator : str := u16 "%%ENDCODE%%".

Definition remove_range (s : str) (i n : nat) : str :=
  firstn i s ++ skipn (i + n) s.

Definition fence : str := u16 "```".

(** [s.replace(r, '')] for [r] the pattern: the opening fence with the tag
    json, then an optional line feed.  The leftmost match is removed. *)
Definition strip_fence_open (s : str) : str :=
  match Str.indexOf s (fence ++ u16 "json") with
  | None => s
  | Some i =>
      match skipn (i + 7) s with
      | c :: _ => if c =? 10 then remove_range s i 8 else remove_range s i 7
      | [] => remove_range s i 7
      end
  end.

(** [s.replace(r, '')] for [r] the pattern: a fence, then an optional line
    feed, then the end of the input. *)
Definition strip_fence_close (s : str) : str :=
  if Str.endsWith s (fence ++ [10]) then firstn (List.length s - 4) s
  else if Str.endsWith s fence then firstn (List.length s - 3) s
  else s.

(** [s.replace(r, '')] for [r] the pattern, with the flags [i] and [s]: the
    characters <script, then as few characters as possible, then >. *)
Definition strip_script_open (s : str) : str :=
  match Str.indexOf_ci s (u16 "<script") with
  | None => s
  | Some i =>
      match Str.indexOf (skipn (i + 7) s) (u16 ">") with
      | None => s
      | Some j => remove_range s i (7 + j + 1)
      end
  end.

(** [s.replace(r, '')] for [r] the closing script tag, with the flags [i]
    and [s]. *)
Definition strip_script_close (s : str) : str :=
  match Str.indexOf_ci s (u16 "</script>") with
  | None => s
  | Some i => remove_range s i 9
  end.

Definition failure (msg : str) : ParseResult :=
  {| gameData := None; gameScript := None; error := Some msg |}.

Definition separator_not_found : str :=
  u16 "Parsing Error: '%%BEGINCODE%%' separator not found.".

Definition missing_fields : str :=
  u16 "Parsing Error: The AI response is missing one or more required fields: title, description, how_to_play (must be an array).".

(** [!v.k] *)
Definition not_prop (v : json) (k : str) : completion bool :=
  x <- prop v k ;; Normal (negb (truthy x)).

(** [a || b] on conditions that may throw: [b] is evaluated only when [a] is
    false. *)
Definition or_else (a b : completion bool) : completion bool :=
  x <- a ;; if x then Normal true else b.

(** The text that is given to [JSON.parse]: the preamble without its code
    fences, trimmed. *)
Definition cleanedJsonString (jsonString : str) : str :=
  Str.trim (strip_fence_close (strip_fence_open jsonString)).

(** The validation of the required fields: the condition of the [if],
    [!gameData.title || !gameData.description || !gameData.how_to_play
    || !Array.isArray(gameData.how_to_play)]. *)
Definition required_fields_missing (data : json) : completion bool :=
  or_else (not_prop data (u16 "title"))
    (or_else (not_prop data (u16 "description"))
       (or_else (not_prop data (u16 "how_to_play"))
          (x <- prop data (u16 "how_to_play") ;;
           Normal (negb (isArray x))))).

(** The script of a response whose separator is at [separatorIndex]: the
    text after the separator, cut at the end separator when there is one,
    without its script tags, trimmed. *)
Definition extractScript (rawInput : str) (separatorIndex : nat) : str :=
  let scriptStartIndex := (separatorIndex + List.length codeSeparator)%nat in
  let scriptString := Str.substring_from rawInput scriptStartIndex in
  let scriptString :=
    match Str.indexOf scriptString endSeparator with
    | Some endSeparatorIndex => Str.substring_to scriptString endSeparatorIndex
    | None => scriptString
    end in
  Str.trim (strip_script_close (strip_script_open scriptString)).

Definition parseAiOutput (rawInput : str) : completion ParseResult :=
  match Str.trim rawInput with
  | [] => Normal {| gameData := None; gameScript := None; error := None |}
  | _ :: _ =>
      match Str.indexOf rawInput codeSeparator with
      | None => Normal (failure separator_not_found)
      | Some separatorIndex =>
          let jsonString := Str.substring_to rawInput separatorIndex in
          match JSON_parse (cleanedJsonString jsonString) with
          | Throw e =>
              Normal (failure (u16 "JSON Parsing Error: " ++ message e))
          | Normal data =>
              invalid <- required_fields_missing data ;;
              if invalid then Normal (failure missing_fields)
              else Normal {| gameData := Some data;
                             gameScript :=
                               Some (extractScript rawInput separatorIndex);
                             error := None |}
          end
      end
  end.

(** ** The application state and the two callers of the parser *)

Inductive tab : Type := TabGenerate | TabEdit | TabChat.

Record AppState : Type := {
  s_gameData : option json;
  s_gameScript : option str;
  s_error : option str;
  s_isGenerating : bool;
  s_activeTab : tab;
  s_apiKeySelected : bool;
  gameIdea : str;
  targetLang : str;
  comfLang : str
}.

Definition setError (e : option str) (st : AppState) : AppState :=
  {| s_gameData := s_gameData st; s_gameScript := s_gameScript st;
     s_error := e; s_isGenerating := s_isGenerating st;
     s_activeTab := s_activeTab st; s_apiKeySelected := s_apiKeySelected st;
     gameIdea := gameIdea st; targetLang := targetLang st;
     comfLang := comfLang st |}.

Definition setGameData (d : option json) (st : AppState) : AppState :=
  {| s_gameData := d; s_gameScript := s_gameScript st;
     s_error := s_error st; s_isGenerating := s_isGenerating st;
     s_activeTab := s_activeTab st; s_apiKeySelected := s_apiKeySelected st;
     gameIdea := gameIdea st; targetLang := targetLang st;
     comfLang := comfLang st |}.

Definition setGameScript (s : option str) (st : AppState) : AppState :=
  {| s_gameData := s_gameData st; s_gameScript := s;
     s_error := s_error st; s_isGenerating := s_isGenerating st;
     s_activeTab := s_activeTab st; s_apiKeySelected := s_apiKeySelected st;
     gameIdea := gameIdea st; targetLang := targetLang st;
     comfLang := comfLang st |}.

Definition setIsGenerating (b : bool) (st : AppState) : AppState :=
  {| s_gameData := s_gameData st; s_gameScript := s_gameScript st;
     s_error := s_error st; s_isGenerating := b;
     s_activeTab := s_activeTab st; s_apiKeySelected := s_apiKeySelected st;
     gameIdea := gameIdea st; targetLang := targetLang st;
     comfLang := comfLang st |}.

Definition setApiKeySelected (b : bool) (st : AppState) : AppState :=
  {| s_gameData := s_gameData st; s_gameScript := s_gameScript st;
     s_error := s_error st; s_isGenerating := s_isGenerating st;
     s_activeTab := s_activeTab st; s_apiKeySelected := b;
     gameIdea := gameIdea st; targetLang := targetLang st;
     comfLang := comfLang st |}.

Definition handleApiKeyError (e : js_error) (context : str) (st : AppState)
    : AppState :=
  match message e with
  | _ :: _ =>
      if Str.includes (message e) (u16 "Requested entity was not found")
      then setApiKeySelected false
             (setError (Some (u16 "Your API key appears to be invalid or missing necessary permissions. Please select a valid API key and ensure billing is enabled for your project.")) st)
      else setError (Some (context ++ u16 ": " ++ message e)) st
  | [] => setError (Some (context ++ u16 ": " ++ message e)) st
  end.

(** What a handler leaves to be run when it stops at its [await]:
    nothing; the call [analyzeGameScript(script)] followed by
    [setActiveTab('edit')]; or an exception that nothing catches. *)
Inductive continuation : Type :=
| Finished
| AnalyzeThenEdit (script : option str)
| Uncaught (e : js_error).

Definition is_blank (s : str) : bool :=
  match Str.trim s with [] => true | _ => false end.

(** The rejection probe of [handleGenerate]: the message to show when the
    whole trimmed response is a JSON value with [rejection === true]; a
    response that is not JSON is not a rejection, and neither is one whose
    reason cannot be converted to a string, the exception being caught with
    that of [JSON.parse]. *)
Definition rejection_probe (rawInput : str) : option str :=
  match JSON_parse (Str.trim rawInput) with
  | Throw _ => None
  | Normal potentialRejection =>
      if truthy (Some potentialRejection) then
        match prop potentialRejection (u16 "rejection") with
        | Normal (Some (JBool true)) =>
            let reason :=
              match prop potentialRejection (u16 "reason") with
              | Normal (Some r) =>
                  if truthy (Some r) then js_to_string r
                  else Normal (u16 "No reason provided.")
              | _ => Normal (u16 "No reason provided.")
              end in
            match reason with
            | Normal text => Some (u16 "AI Rejection: " ++ text)
            | Throw _ => None
            end
        | _ => None
        end
      else None
  end.

Definition raw_output_label : str := [10; 10] ++ u16 "Raw AI Output:" ++ [10].

(** [handleGenerate], given the completion of the request to the model
    ([response] is [response.text], or the exception of the call). *)
Definition handleGenerate (response : completion str) (st : AppState)
    : AppState * continuation :=
  if is_blank (gameIdea st) || is_blank (targetLang st) || is_blank (comfLang st)
  then (setError (Some (u16 "Please fill out all fields to generate a game.")) st,
        Finished)
  else
    let st := setGameScript None (setGameData None
                (setError None (setIsGenerating true st))) in
    match response with
    | Throw e =>
        (setIsGenerating false (handleApiKeyError e (u16 "API Error") st),
         Finished)
    | Normal rawInput =>
        match rejection_probe rawInput with
        | Some msg =>
            (setIsGenerating false (setIsGenerating false (setError (Some msg) st)),
             Finished)
        | None =>
            match parseAiOutput rawInput with
            | Throw e =>
                (setIsGenerating false
                   (handleApiKeyError e (u16 "API Error") st), Finished)
            | Normal r =>
                match error r with
                | Some (c :: parseError) =>
                    (setIsGenerating false
                       (setError (Some ((c :: parseError) ++ raw_output_label
                                          ++ rawInput)) st),
                     Finished)
                | _ =>
                    (setGameScript (gameScript r) (setGameData (gameData r) st),
                     AnalyzeThenEdit (gameScript r))
                end
            end
        end
    end.

(** The [onload] callback of [handleFileSelected]; [text] is the content of
    the file when it is a string. *)
Definition handleFileSelected_onload (text : option str) (st : AppState)
    : AppState * continuation :=
  match text with
  | Some text =>
      let st := setGameScript None (setGameData None (setError None st)) in
      match parseAiOutput text with
      | Throw e => (st, Uncaught e)
      | Normal r =>
          match error r with
          | Some (c :: parseError) =>
              (setError (Some (u16 "Import Error: " ++ c :: parseError)) st,
               Finished)
          | _ =>
              (setGameScript (gameScript r) (setGameData (gameData r) st),
               AnalyzeThenEdit (gameScript r))
          end
      end
  | None =>
      (setError (Some (u16 "Import Error: Could not read the file content.")) st,
       Finished)
  end.

(** ** The label decoder of [generateHtmlTemplate] *)

Module Template.

(** The built-in bilingual table. *)
Definition default_translations : str :=
  [10] ++ u16 "        const t = {" ++ [10]
  ++ u16 "          comf: { language: 'Language', settings: 'Settings', title: 'General Title', play: 'Play', howTo: 'How to Play', date: 'October 28, 2025', user: 'by %user%', madeWith: 'Made with AINARA' },"
  ++ [10]
  ++ u16 "          target: { language: 'Idioma', settings: 'Configuraci"
  ++ [243] ++ u16 "n', title: 'T" ++ [237]
  ++ u16 "tulo General', play: 'Jugar', howTo: 'C" ++ [243]
  ++ u16 "mo Jugar', date: '28 octubre 2025', user: 'de %user%', madeWith: 'Hecho con AINARA' }"
  ++ [10] ++ u16 "        };" ++ [10] ++ u16 "    ".

Definition keys : list str :=
  [u16 "language"; u16 "play"; u16 "howTo"; u16 "settings"; u16 "date";
   u16 "user"; u16 "madeWith"].

(** [labels.split(',').map(p => p.trim().split('/'))] *)
Definition pairs_of (labels : str) : list (list str) :=
  List.map (fun p => Str.split (Str.trim p) (u16 "/"))
    (Str.split labels (u16 ",")).

(** The object that [keys.forEach] fills with the component [n] of every
    pair; a component that is [undefined] leaves no property in the
    serialized object. *)
Definition table (n : nat) (pairs : list (list str)) : json :=
  JObj (flat_map (fun kp => match nth_error (snd kp) n with
                            | Some x => [(fst kp, JStr x)]
                            | None => []
                            end)
          (combine keys pairs)).

(** [gameData?.labels] *)
Definition labels_of (data : option json) : jsval :=
  match data with
  | Some d => match prop d (u16 "labels") with
              | Normal v => v
              | Throw _ => None
              end
  | None => None
  end.

(** The text of [translationsObject] when the template is built. *)
Definition translationsObject (data : option json) : str :=
  let labels := labels_of data in
  if truthy labels then
    match labels with
    | Some (JStr l) =>
        let pairs := pairs_of l in
        if (List.length keys <=? List.length pairs)%nat then
          u16 "const t = { comf: " ++ JSON_stringify (table 0 pairs)
            ++ u16 ", target: " ++ JSON_stringify (table 1 pairs)
            ++ u16 " };"
        else default_translations
    | _ => default_translations   (* split is not a function: caught *)
    end
  else default_translations.

End Template.

(** ** The parameter coercion of [analyzeGameScript] *)

Module Analyze.

Record parameter (V : Type) : Type := {
  name : str;
  description : str;
  type : str;
  value : V
}.

Arguments name {V} p.
Arguments description {V} p.
Arguments type {V} p.
Arguments value {V} p.

(** A parameter as the model sends it (every field is a string in the
    response schema), and as the edit panel receives it. *)
Definition RawParameter : Type := parameter str.
Definition GameParameter : Type := parameter json.

Definition single_quoted (valueStr : str) : bool :=
  Str.startsWith valueStr [39] && Str.endsWith valueStr [39].

(** The double-quoted text that replaces a single-quoted one. *)
Definition rewrap (valueStr : str) : str :=
  [34] ++ Str.escape_double_quotes (Str.slice_1_m1 valueStr) ++ [34].

(** The [try]/[catch] block that computes [parsedValue]. *)
Definition parsedValue (p : RawParameter) : completion json :=
  try_catch
    (let valueStr := value p in
     let valueStr := if single_quoted valueStr then rewrap valueStr
                     else valueStr in
     JSON_parse valueStr)
    (fun _ => Normal (JStr (value p))).

Definition finalType (declared : str) (v : json) : str :=
  match v with
  | JArr items =>
      match items with
      | JObj _ :: _ => u16 "array_object"
      | JArr _ :: _ => u16 "array_object"
      | _ => declared
      end
  | JObj _ => u16 "object"
  | _ => declared
  end.

(** The callback of [params.map]. *)
Definition coerce (p : RawParameter) : completion GameParameter :=
  v <- parsedValue p ;;
  Normal {| name := name p; description := description p;
            type := finalType (type p) v; value := v |}.

(** [params.map(...)]: the first exception ends the whole batch. *)
Fixpoint parsedParams (params : list RawParameter)
    : completion (list GameParameter) :=
  match params with
  | [] => Normal []
  | p :: rest =>
      q <- coerce p ;;
      qs <- parsedParams rest ;;
      Normal (q :: qs)
  end.

End Analyze.

(** ** The idea splitter of [ChatPanel] *)

Module Chat.

Definition ideaMarker : str := u16 "&&IDEA&&".

(** [s.replace(r, '')] for [r] the pattern, anchored at the start: white
    space, then either a star or a dash and white space, or digits, a
    point and white space. *)
Definition strip_list_marker (s : str) : str :=
  match Str.trimStart s with
  | [] => s
  | c :: r =>
      if (c =? 42) || (c =? 45) then Str.trimStart r
      else if Str.is_digit c then
        match snd (Json.span_digits (c :: r)) with
        | 46 :: r' => Str.trimStart r'
        | _ => s
        end
      else s
  end.

(** What one part of the body renders to: its text, given to the Markdown
    renderer, and the idea of its button when it has one. *)
Record BodyPart : Type := {
  text : str;
  ideaButton : option str
}.

(** [part.trim().replace(r, '')]: the text of the idea. *)
Definition ideaText (part : str) : str :=
  strip_list_marker (Str.trim part).

Definition nonempty (s : str) : bool :=
  match s with [] => false | _ :: _ => true end.

(** The callback of [bodyParts.map]; [None] is the [null] that renders
    nothing. *)
Definition renderPart (isLastPart : bool) (part : str) : option BodyPart :=
  let showButton := negb isLastPart && nonempty (ideaText part) in
  if is_blank part && isLastPart then None
  else Some {| text := part;
               ideaButton := if showButton then Some (ideaText part)
                             else None |}.

Fixpoint renderParts (bodyParts : list str) : list (option BodyPart) :=
  match bodyParts with
  | [] => []
  | [part] => [renderPart true part]
  | part :: rest => renderPart false part :: renderParts rest
  end.

(** The body of an assistant message; an empty body renders nothing. *)
Definition renderBody (body : str) : list (option BodyPart) :=
  match body with
  | [] => []
  | _ => renderParts (Str.split body ideaMarker)
  end.

(** The idea offers of a body: the payloads of its buttons, in order. *)
Definition offers (body : str) : list str :=
  flat_map (fun r => match r with
                     | Some {| ideaButton := Some idea |} => [idea]
                     | _ => []
                     end) (renderBody body).

End Chat.

(** ** More of the chat panel: the Markdown escape, the copy button, the
    message handler and the rendering of a message *)

Module ChatPanel.

(** [s.replace(r, by)] for [r] the global pattern of the one character
    [c]. *)
Definition replace_char (c : N) (by_text : str) (s : str) : str :=
  flat_map (fun x => if x =? c then by_text else [x]) s.

(** The first statement of [toHtml]: the five replacements that escape the
    text before the Markdown is processed. *)
Definition toHtml_escape (markdown : str) : str :=
  replace_char 39 (u16 "&#039;")
    (replace_char 34 (u16 "&quot;")
       (replace_char 62 (u16 "&gt;")
          (replace_char 60 (u16 "&lt;")
             (replace_char 38 (u16 "&amp;") markdown)))).

(** [s.replace(r, '')] for [r] the global pattern of the literal text
    [sep]: the successive leftmost occurrences are left out.  [skip] counts
    the code units of a matched occurrence that are still to be passed
    over. *)
Fixpoint remove_all_go (sep s : str) (skip : nat) : str :=
  match s with
  | [] => []
  | c :: r =>
      match skip with
      | S k => remove_all_go sep r k
      | O => if Str.startsWith s sep
             then remove_all_go sep r (List.length sep - 1)
             else c :: remove_all_go sep r 0
      end
  end.

(** The text that [handleCopy] writes to the clipboard. *)
Definition handleCopy (body : str) : str :=
  remove_all_go Chat.ideaMarker body 0.

(** The text of [s] up to its last [c], this [c] included. *)
Fixpoint up_to_last (c : N) (s : str) : option str :=
  match s with
  | [] => None
  | x :: r =>
      match up_to_last c r with
      | Some p => Some (x :: p)
      | None => if x =? c then Some [x] else None
      end
  end.

(** The match of the pattern made of the character [o], then as many
    characters of any kind as possible, then the character [c]: from the
    first [o] to the last [c] after it. *)
Definition match_delimited (o c : N) (s : str) : option str :=
  match Str.indexOf s [o] with
  | None => None
  | Some i => option_map (cons o) (up_to_last c (skipn (S i) s))
  end.

(** The own enumerable properties that an object spread copies. *)
Definition spread (v : json) : list (str * json) :=
  match v with
  | JObj fields => fields
  | JArr items =>
      combine (List.map (fun i => Num.decimal_digits (N.of_nat i))
                 (seq 0 (List.length items))) items
  | JStr s =>
      combine (List.map (fun i => Num.decimal_digits (N.of_nat i))
                 (seq 0 (List.length s)))
        (List.map (fun c => JStr [c]) s)
  | _ => []
  end.

(** [{ role: 'model', ...parsedResponse }] *)
Definition ainaraMessage (parsedResponse : json) : json :=
  JObj (fold_left Json.define (spread parsedResponse)
          [(u16 "role", JStr (u16 "model"))]).

Definition userMessage (content : str) : json :=
  JObj [(u16 "role", JStr (u16 "user")); (u16 "content", JStr content)].

(** The message that stands for a reply that is not in the JSON format. *)
Definition responseError (rawText : str) : json :=
  JObj [(u16 "header", JStr (u16 "Response Error"));
        (u16 "body",
         JStr (u16 "The AI returned a response that was not in the expected JSON format."
               ++ [10; 10] ++ u16 "Raw response:" ++ [10] ++ rawText));
        (u16 "footer", JStr (u16 "Please try rephrasing your message."));
        (u16 "language", JStr (u16 "en"))].

(** The message that stands for a failed call. *)
Definition apiErrorMessage (e : js_error) : json :=
  JObj [(u16 "role", JStr (u16 "model"));
        (u16 "header", JStr (u16 "API Error"));
        (u16 "body", JStr (u16 "Sorry, I couldn't process your request right now."));
        (u16 "footer", JStr (message e));
        (u16 "language", JStr (u16 "en"))].

(** The inner [try]/[catch] of [handleSendMessage]: the reply that is
    read in [rawText]. *)
Definition parsedResponse (rawText : str) : json :=
  match match_delimited 123 125 rawText with
  | Some jsonMatch =>
      match JSON_parse jsonMatch with
      | Normal v => v
      | Throw _ => responseError rawText
      end
  | None => responseError rawText
  end.

Record ChatState : Type := {
  messages : list json;
  inputValue : str;
  isLoading : bool
}.

(** [handleSendMessage]; [chat] tells whether the chat session exists,
    [response] is the completion of [chat.sendMessage] ([response.text], or
    the exception of the call). *)
Definition handleSendMessage (chat : bool) (response : completion str)
    (st : ChatState) (app : AppState) : ChatState * AppState :=
  if is_blank (inputValue st) || isLoading st || negb chat then (st, app)
  else
    let sent := messages st ++ [userMessage (inputValue st)] in
    match response with
    | Normal text =>
        let rawText := Str.trim text in
        ({| messages := sent ++ [ainaraMessage (parsedResponse rawText)];
            inputValue := []; isLoading := false |}, app)
    | Throw e =>
        ({| messages := sent ++ [apiErrorMessage e];
            inputValue := []; isLoading := false |},
         handleApiKeyError e (u16 "Error sending message to AINARA") app)
    end.

(** What a message of the list renders to: the bubble of the user with its
    content, or the bubble of the assistant with its header, the parts of
    its body and its footer. *)
Inductive bubble : Type :=
| UserBubble (content : jsval)
| ModelBubble (header : jsval) (body : list (option Chat.BodyPart))
    (footer : jsval).

(** The branch of the assistant in the callback of [messages.map].  The
    body is split before anything is rendered: a body that is not a string
    raises a [TypeError]. *)
Definition renderModel (msg : json) : completion bubble :=
  body <- prop msg (u16 "body") ;;
  match body with
  | Some (JStr b) =>
      header <- prop msg (u16 "header") ;;
      footer <- prop msg (u16 "footer") ;;
      Normal (ModelBubble header (Chat.renderBody b) footer)
  | None =>
      Throw (TypeError (u16 "Cannot read properties of undefined (reading 'split')"))
  | Some JNull =>
      Throw (TypeError (u16 "Cannot read properties of null (reading 'split')"))
  | Some _ => Throw (TypeError (u16 "msg.body.split is not a function"))
  end.

(** [msg.role === 'user'] *)
Definition is_user (role : jsval) : bool :=
  match role with
  | Some (JStr r) => str_eqb r (u16 "user")
  | _ => false
  end.

(** The callback of [messages.map]. *)
Definition renderMessage (msg : json) : completion bubble :=
  role <- prop msg (u16 "role") ;;
  if is_user role then
    content <- prop msg (u16 "content") ;; Normal (UserBubble content)
  else renderModel msg.

End ChatPanel.

(** ** The edit panel and [handleEditGame] *)

Module EditPanel.

Definition fixCheckOptions : list str :=
  [u16 "...and there's just a blank white screen on startup";
   u16 "...and I can't get past an in-game menu";
   u16 "...and the buttons don't work";
   u16 "...and things are falling outside the center container (box in the center)";
   u16 "...and the graphic design colors are completely off or inaccessible";
   u16 "...and the content is inappropriate"].

(** [handleSuggestionToggle] and [handleFixCheckboxChange]: the new
    selection, without [x] when it was selected and with [x] at the end
    otherwise. *)
Definition toggle (x : str) (prev : list str) : list str :=
  if existsb (str_eqb x) prev
  then filter (fun s => negb (str_eqb s x)) prev
  else prev ++ [x].

End EditPanel.

Module Edit.

Definition fix_intro : str :=
  u16 "CRITICAL: The user has indicated 'The game doesn't work.' Please analyze the entire script for bugs, errors, or incomplete logic and prioritize fixing it."
  ++ [10]
  ++ u16 "Pay close attention to the following user-reported issues:"
  ++ [10].

(** The table [detailedInstructions]: its keys are the options of the fix
    checkboxes of the edit panel. *)
Definition detailedInstructions : list (str * str) :=
  [(u16 "...and there's just a blank white screen on startup",
    u16 "- **Blank White Screen:** This often means a critical JavaScript error is halting execution. Check for syntax errors, undefined variables, incorrect function calls, or infinite loops right at the start. Ensure the game correctly listens for the 'gameStart' event before running any initialization code.");
   (u16 "...and I can't get past an in-game menu",
    u16 "- **Stuck on a Menu:** The logic for progressing from one game state to another is likely broken. Trace the user flow from the menu. Check the conditions that allow the user to proceed and make sure they can be met.");
   (u16 "...and the content is inappropriate",
    u16 "- **Inappropriate Content:** Review all text, questions, and examples in the game. Ensure all content is friendly, educational, and appropriate for all ages. Remove any references to violence, illegal activities, or adult themes.");
   (u16 "...and the buttons don't work",
    u16 "- **Buttons Not Working:** Verify all element selectors (e.g., `document.getElementById`) are correct and that the elements exist in the DOM when the script runs. Check that `addEventListener` or `onclick` handlers are properly attached and that the functions they call are defined and error-free.");
   (u16 "...and things are falling outside the center container (box in the center)",
    u16 "- **Elements Outside Container:** All game elements MUST be appended to the `div` with `id='gameArea'`. Review the code to ensure no elements are appended to `document.body` or other external elements. Check for absolute positioning CSS that might be breaking the layout.");
   (u16 "...and the graphic design colors are completely off or inaccessible",
    u16 "- **Incorrect Colors/Design:** The game's styling MUST use the provided CSS variables (e.g., `var(--color-primary)`, `var(--color-bg)`). Search the code for and remove any hardcoded color values like `#FFFFFF`, `white`, `black`, `#000`, etc., as they break theme compatibility.")].

Definition custom_fix_before : str :=
  [10]
  ++ u16 "Here is the user's custom description of the problem; think logically about what they're saying and apply it -- do not blindly make a change here. They have said: "
  ++ [34].

Definition custom_fix_after : str :=
  [34; 10].

Definition general_review : str :=
  [10]
  ++ u16 "The user did not provide specific details, so please perform a general code review to find and fix potential issues."
  ++ [10].

(** [detailedInstructions[key]], for a key that [Object.prototype] does not
    define (the keys that the edit panel sends are its fix options). *)
Fixpoint instruction (key : str) (table : list (str * str)) : option str :=
  match table with
  | [] => None
  | (k, v) :: rest => if str_eqb key k then Some v else instruction key rest
  end.

(** What the user asks for in the edit panel. *)
Record request : Type := {
  updatedNumbers : list (str * jsnumber);
  selectedFeatures : list str;
  generalRequest : str;
  isFixing : bool;
  customFixText : str;
  selectedFixCheckboxes : list str
}.

(** The text [fixPrompt]. *)
Definition fixPrompt (r : request) : str :=
  fix_intro
  ++ List.concat (List.map (fun key => match instruction key detailedInstructions with
                                  | Some (c :: text) => (c :: text) ++ [10]
                                  | _ => []
                                  end) (selectedFixCheckboxes r))
  ++ (if negb (is_blank (customFixText r))
      then custom_fix_before ++ Str.trim (customFixText r) ++ custom_fix_after
      else match selectedFixCheckboxes r with
           | [] => general_review
           | _ :: _ => []
           end).

Definition number_line (kv : str * jsnumber) : str :=
  u16 "- Change the value of the variable '" ++ fst kv ++ u16 "' to "
    ++ Num.to_string (snd kv) ++ u16 "." ++ [10].

Definition feature_line (feature : str) : str :=
  u16 "- " ++ feature ++ [10].

(** The text [formattedChanges] and the flag [changesRequested]. *)
Definition formattedChanges (r : request) : str * bool :=
  let fc := [] in
  let (fc, requested) :=
    if isFixing r then (fc ++ fixPrompt r, true) else (fc, false) in
  let (fc, requested) :=
    match updatedNumbers r with
    | [] => (fc, requested)
    | _ :: _ =>
        (fc ++ [10] ++ u16 "Apply these specific parameter changes:" ++ [10]
            ++ List.concat (List.map number_line (updatedNumbers r)), true)
    end in
  let (fc, requested) :=
    match selectedFeatures r with
    | [] => (fc, requested)
    | _ :: _ =>
        (fc ++ [10] ++ u16 "Implement the following new features/changes:"
            ++ [10] ++ List.concat (List.map feature_line (selectedFeatures r)), true)
    end in
  if negb (is_blank (generalRequest r))
  then (fc ++ [10] ++ u16 "Also, apply this general request from the user:"
           ++ [10] ++ Str.trim (generalRequest r), true)
  else (fc, requested).

(** The text sent to the model. *)
Definition contents (gameScript : str) (changes : str) : str :=
  u16 "Original Script:" ++ [10] ++ gameScript ++ [10; 10]
    ++ u16 "Please apply the following changes and instructions:" ++ [10]
    ++ changes.

Record EditorState : Type := {
  app : AppState;
  isEditing : bool
}.

Definition withError (e : option str) (st : EditorState) : EditorState :=
  {| app := setError e (app st); isEditing := isEditing st |}.

Definition setIsEditing (b : bool) (st : EditorState) : EditorState :=
  {| app := app st; isEditing := b |}.

(** [handleEditGame] up to its request: the state, and the text sent to
    the model when a request is made. *)
Definition handleEditGame (r : request) (st : EditorState)
    : EditorState * option str :=
  match s_gameScript (app st) with
  | None => (st, None)
  | Some [] => (st, None)
  | Some (c :: script) =>
      let st := withError None (setIsEditing true st) in
      let (changes, requested) := formattedChanges r in
      if negb requested
      then (setIsEditing false
              (withError (Some (u16 "No changes were requested.")) st), None)
      else (st, Some (contents (c :: script) changes))
  end.

(** [s.replace(r, '')] for [r] the pattern: the opening fence with the tag
    javascript, then an optional line feed. *)
Definition strip_fence_javascript (s : str) : str :=
  match Str.indexOf s (fence ++ u16 "javascript") with
  | None => s
  | Some i =>
      match skipn (i + 13) s with
      | c :: _ => if c =? 10 then remove_range s i 14 else remove_range s i 13
      | [] => remove_range s i 13
      end
  end.

(** The script that is taken from the reply of the model. *)
Definition newScript (text : str) : str :=
  Str.trim (strip_fence_close (strip_fence_javascript text)).

(** What [handleEditGame] leaves to be run at its second [await]: nothing,
    or the call [analyzeGameScript(script)]. *)
Inductive edit_continuation : Type :=
| EditFinished
| EditAnalyze (script : str).

(** [handleEditGame] from the completion of its request. *)
Definition handleEditGame_response (response : completion str)
    (st : EditorState) : EditorState * edit_continuation :=
  match response with
  | Normal text =>
      ({| app := setGameScript (Some (newScript text)) (app st);
          isEditing := isEditing st |},
       EditAnalyze (newScript text))
  | Throw e =>
      (setIsEditing false
         {| app := handleApiKeyError e (u16 "Error editing game") (app st);
            isEditing := isEditing st |},
       EditFinished)
  end.

End Edit.

(** ** [handleExport] with its file name *)

Module ExportFile.

Section WithLowerCase.

(** [String.prototype.toLowerCase], the lower-case mapping of the
    platform. *)
Variable toLowerCase : str -> str.

(** A character that the pattern of the file name keeps: a lower-case
    letter or a digit. *)
Definition is_slug_char (c : N) : bool :=
  ((97 <=? c) && (c <=? 122)) || ((48 <=? c) && (c <=? 57)).

(** The name of the exported file: the title in lower case, every other
    character replaced by a dash, cut to thirty characters. *)
Definition fileName (title : str) : str :=
  firstn 30 (List.map (fun c => if is_slug_char c then c else 45)
               (toLowerCase title))
    ++ u16 ".txt".

(** [handleExport]: the name and the content of the file; [None] when the
    handler returns without exporting.  The name is computed first: a title
    that is not a string raises a [TypeError]. *)
Definition handleExport (st : AppState) : completion (option (str * str)) :=
  match s_gameData st, s_gameScript st with
  | Some data, Some (c :: script) =>
      title <- prop data (u16 "title") ;;
      match title with
      | Some (JStr t) =>
          Normal (Some (fileName t,
                        JSON_stringify_2 data ++ [10] ++ codeSeparator ++ [10]
                          ++ (c :: script) ++ [10] ++ endSeparator))
      | None =>
          Throw (TypeError (u16 "Cannot read properties of undefined (reading 'toLowerCase')"))
      | Some JNull =>
          Throw (TypeError (u16 "Cannot read properties of null (reading 'toLowerCase')"))
      | Some _ =>
          Throw (TypeError (u16 "gameData.title.toLowerCase is not a function"))
      end
  | _, _ => Normal None
  end.

End WithLowerCase.

End ExportFile.

(** ** The instructions of [generateHtmlTemplate] *)

Module Preview.

Definition no_instructions : str := u16 "<li>No instructions provided.</li>".

(** The item of one rule; the rule is converted to a string by the
    template literal, which may raise. *)
Definition rule_item (rule : json) : completion str :=
  text <- js_to_string rule ;;
  Normal (u16 "<li>" ++ text ++ u16 "</li>").

(** [rules.map(rule => ...)]: the items in order, up to the first rule
    whose conversion raises. *)
Fixpoint rule_items (rules : list json) : completion (list str) :=
  match rules with
  | [] => Normal []
  | rule :: rest =>
      item <- rule_item rule ;;
      items <- rule_items rest ;;
      Normal (item :: items)
  end.

(** The text [howToPlayHtml]; nothing catches what it raises. *)
Definition howToPlayHtml (data : option json) : completion str :=
  match data with
  | None => Normal no_instructions
  | Some d =>
      rules <- prop d (u16 "how_to_play") ;;
      match rules with
      | None => Normal no_instructions
      | Some JNull => Normal no_instructions
      | Some (JArr rules) =>
          items <- rule_items rules ;;
          match List.concat items with
          | [] => Normal no_instructions
          | html => Normal html
          end
      | Some _ =>
          Throw (TypeError (u16 "gameData?.how_to_play?.map is not a function"))
      end
  end.

End Preview.

(** ** [getEditSuggestions] and the reply of the analysis *)

Module Suggest.





(** The parameters read in the reply of the analysis: the JSON value of
    the text from the first opening bracket to the last closing bracket;
    [None] when [analyzeGameScript] throws its error instead. *)
Definition extractParams (rawText : str) : option json :=
  match ChatPanel.match_delimited 91 93 rawText with
  | Some m =>
      match JSON_parse m with
      | Normal params => Some params
      | Throw _ => None
      end
  | None => None
  end.

End Suggest.

(** * Properties *)

(** ** Strings *)

Module StrFacts.
Import Str.

Lemma startsWith_app (p r : str) : startsWith (p ++ r) p = true.
Proof.
  induction p as [|a p IH]; simpl; [reflexivity|].
  now rewrite N.eqb_refl, IH.
Qed.

Lemma startsWith_inv (s p : str) :
  startsWith s p = true -> exists r, s = p ++ r.
Proof.
  revert s; induction p as [|a p IH]; intros s H; simpl in *.
  - now exists s.
  - destruct s as [|b s]; [discriminate|].
    apply andb_true_iff in H as [Hab Hs].
    apply N.eqb_eq in Hab; subst b.
    destruct (IH _ Hs) as [r ->]. now exists r.
Qed.

Lemma startsWith_iff (s p : str) :
  startsWith s p = true <-> exists r, s = p ++ r.
Proof.
  split; [apply startsWith_inv|].
  intros [r ->]. apply startsWith_app.
Qed.

(** [indexOf] finds an occurrence: the text splits around it at the index. *)
Lemma indexOf_Some (s p : str) (i : nat) :
  indexOf s p = Some i ->
  s = firstn i s ++ p ++ skipn (i + List.length p) s /\ (i <= List.length s)%nat.
Proof.
  revert i; induction s as [|c s IH]; intros i H.
  - simpl in H. destruct (startsWith [] p) eqn:E; [|discriminate].
    injection H as <-. destruct p; [|discriminate]. simpl; auto.
  - cbn [indexOf] in H. destruct (startsWith (c :: s) p) eqn:E.
    + injection H as <-. apply startsWith_inv in E as [r E].
      split; [|simpl; lia].
      rewrite E. change (firstn 0 (p ++ r)) with (@nil N).
      rewrite Nat.add_0_l, skipn_app, skipn_all, Nat.sub_diag.
      reflexivity.
    + destruct (indexOf s p) as [j|] eqn:Ej; [|discriminate].
      injection H as <-. destruct (IH j eq_refl) as [IH1 IH2].
      split; [|simpl; lia]. simpl. f_equal. exact IH1.
Qed.

(** [indexOf] misses nothing: without a result there is no occurrence. *)
Lemma indexOf_None (s p : str) :
  indexOf s p = None -> forall a b, s <> a ++ p ++ b.
Proof.
  induction s as [|c s IH]; intros H a b Heq.
  - simpl in H. destruct (startsWith [] p) eqn:E; [discriminate|].
    symmetry in Heq. apply app_eq_nil in Heq as [-> Heq].
    apply app_eq_nil in Heq as [-> _]. discriminate.
  - cbn [indexOf] in H. destruct (startsWith (c :: s) p) eqn:E; [discriminate|].
    destruct (indexOf s p) eqn:Ej; [discriminate|].
    destruct a as [|x a].
    + simpl in Heq. rewrite Heq, startsWith_app in E. discriminate.
    + simpl in Heq. injection Heq as _ Heq. now apply (IH eq_refl a b).
Qed.

Lemma indexOf_occurs (a p b : str) : indexOf (a ++ p ++ b) p <> None.
Proof.
  intros H. now apply (indexOf_None _ _ H a b).
Qed.

(** The result of [indexOf] is the leftmost occurrence. *)
Lemma indexOf_leftmost (s p : str) (i : nat) :
  indexOf s p = Some i ->
  forall a b, s = a ++ p ++ b -> (i <= List.length a)%nat.
Proof.
  revert i; induction s as [|c s IH]; intros i H a b Heq.
  - simpl in H. destruct (startsWith [] p); [|discriminate].
    injection H as <-. lia.
  - cbn [indexOf] in H. destruct (startsWith (c :: s) p) eqn:E.
    + injection H as <-. lia.
    + destruct (indexOf s p) as [j|] eqn:Ej; [|discriminate].
      injection H as <-. destruct a as [|x a].
      * simpl in Heq. rewrite Heq, startsWith_app in E. discriminate.
      * simpl in Heq. injection Heq as _ Heq.
        specialize (IH j eq_refl a b Heq). simpl; lia.
Qed.

Lemma trimStart_blank (s : str) :
  forallb is_white_space s = true -> trimStart s = [].
Proof.
  induction s as [|c s IH]; simpl; [reflexivity|].
  intros H. apply andb_true_iff in H as [Hc Hs]. now rewrite Hc, IH.
Qed.

Lemma trim_blank (s : str) :
  forallb is_white_space s = true -> trim s = [].
Proof.
  intros H. unfold trim, trimEnd. now rewrite (trimStart_blank _ H).
Qed.

Lemma trimStart_nil_inv (s : str) :
  trimStart s = [] -> forallb is_white_space s = true.
Proof.
  induction s as [|c s IH]; simpl; [reflexivity|].
  destruct (is_white_space c); [exact IH | discriminate].
Qed.

Lemma trimStart_suffix (s : str) :
  exists w, s = w ++ trimStart s /\ forallb is_white_space w = true.
Proof.
  induction s as [|c s [w [IH1 IH2]]]; simpl.
  - now exists [].
  - destruct (is_white_space c) eqn:E.
    + exists (c :: w). simpl. rewrite E, IH2. split; [now f_equal | reflexivity].
    + now exists [].
Qed.

(** A text whose trimmed form is empty consists of white space only. *)
Lemma trim_nil_inv (s : str) :
  trim s = [] -> forallb is_white_space s = true.
Proof.
  unfold trim, trimEnd. intros H.
  assert (H1 : trimStart (rev (trimStart s)) = []).
  { rewrite <- (rev_involutive (trimStart _)), H. reflexivity. }
  apply trimStart_nil_inv in H1.
  destruct (trimStart_suffix s) as [w [Hs Hw]].
  rewrite Hs, forallb_app, Hw. simpl.
  rewrite forallb_forall in H1 |- *. intros x Hx.
  apply H1. now apply -> in_rev.
Qed.

End StrFacts.

(** ** [split] cuts at the successive occurrences that [indexOf] finds *)

Module SplitFacts.
Import Str.

(** The current piece is the start of the first piece of the result. *)
Definition prepend (cur : str) (pieces : list str) : list str :=
  match pieces with
  | [] => []
  | x :: rest => (rev cur ++ x) :: rest
  end.

Lemma split_go_skip (sep s : str) (k : nat) (cur : str) :
  (k <= List.length s)%nat ->
  split_go sep s k cur = split_go sep (skipn k s) 0 cur.
Proof.
  revert k. induction s as [|c s IH]; intros k Hk.
  - simpl in Hk. now replace k with 0%nat by lia.
  - destruct k as [|k]; [reflexivity|]. cbn [split_go skipn].
    apply IH. simpl in Hk. lia.
Qed.

Lemma split_go_cur (sep s cur : str) :
  split_go sep s 0 cur = prepend cur (split_go sep s 0 []).
Proof.
  revert cur. induction s as [|c s IH]; intros cur.
  - cbn. now rewrite app_nil_r.
  - cbn [split_go]. destruct (startsWith (c :: s) sep).
    + cbn. now rewrite app_nil_r.
    + rewrite (IH (c :: cur)), (IH [c]).
      destruct (split_go sep s 0 []) as [|x rest]; [reflexivity|].
      cbn [prepend rev app]. now rewrite <- !app_assoc.
Qed.

(** Without an occurrence of the separator the text is the only piece; with
    one, the first piece is the text before the leftmost occurrence, and the
    other pieces are those of the text after it. *)
Theorem split_indexOf (s sep : str) :
  sep <> [] ->
  split s sep
  = match indexOf s sep with
    | None => [s]
    | Some i => firstn i s :: split (skipn (i + List.length sep) s) sep
    end.
Proof.
  intros Hsep. unfold split. induction s as [|c s IH].
  - destruct sep as [|a sep]; [congruence|]. reflexivity.
  - cbn [split_go indexOf]. destruct (startsWith (c :: s) sep) eqn:E.
    + cbn [firstn Nat.add]. f_equal.
      pose proof (StrFacts.startsWith_inv _ _ E) as [r Er].
      destruct sep as [|a sep]; [congruence|].
      cbn [List.length skipn Nat.sub]. rewrite Nat.sub_0_r.
      apply split_go_skip.
      injection Er as _ ->. rewrite length_app. lia.
    + rewrite split_go_cur, IH.
      destruct (indexOf s sep) as [i|]; reflexivity.
Qed.

End SplitFacts.

(** ** The JSON reader always has enough fuel *)

Module JsonFacts.
Import Json.

Lemma skip_ws_length (s : str) : (List.length (skip_ws s) <= List.length s)%nat.
Proof.
  induction s as [|c s IH]; simpl; [lia|].
  destruct (is_ws c); simpl; lia.
Qed.

Lemma pcons_ok (c : N) (r : presult str) (a rest : str) :
  pcons c r = POk a rest -> exists a', r = POk a' rest /\ a = c :: a'.
Proof.
  destruct r; simpl; intros H; try discriminate.
  injection H as <- <-. eauto.
Qed.

Lemma lift_ok {A B : Type} (f : A -> B) (r : presult A) (b : B) (rest : str) :
  lift f r = POk b rest -> exists a, r = POk a rest /\ b = f a.
Proof.
  destruct r; simpl; intros H; try discriminate.
  injection H as <- <-. eauto.
Qed.

Lemma parse_chars_shorter_aux (n : nat) :
  forall s a r, (List.length s <= n)%nat ->
    parse_chars s = POk a r -> (List.length r < List.length s)%nat.
Proof.
  induction n as [|n IH]; intros s a r Hn H.
  - destruct s; [discriminate | simpl in Hn; lia].
  - destruct s as [|c s]; [discriminate|]. cbn [parse_chars] in H.
    simpl in Hn.
    destruct (c =? 34). { injection H as _ <-. simpl; lia. }
    destruct (c =? 92).
    + destruct s as [|e s1]; [discriminate|].
      destruct (e =? 117).
      * destruct s1 as [|h1 [|h2 [|h3 [|h4 s2]]]]; try discriminate.
        destruct (hex4 h1 h2 h3 h4); [|discriminate].
        apply pcons_ok in H as [a' [H _]].
        apply IH in H; simpl in *; lia.
      * destruct (simple_escape e); [|discriminate].
        apply pcons_ok in H as [a' [H _]].
        apply IH in H; simpl in *; lia.
    + destruct (c <? 32); [discriminate|].
      apply pcons_ok in H as [a' [H _]].
      apply IH in H; simpl in *; lia.
Qed.

Lemma parse_chars_shorter (s a r : str) :
  parse_chars s = POk a r -> (List.length r < List.length s)%nat.
Proof. apply (parse_chars_shorter_aux (List.length s)). lia. Qed.

Lemma span_digits_length (s ds r : str) :
  span_digits s = (ds, r) ->
  List.length s = (List.length ds + List.length r)%nat.
Proof.
  revert ds r. induction s as [|c s IH]; intros ds r H; simpl in H.
  - now injection H as <- <-.
  - destruct (Str.is_digit c).
    + destruct (span_digits s) as [ds' r'] eqn:E. injection H as <- <-.
      simpl. now rewrite (IH ds' r' eq_refl).
    + now injection H as <- <-.
Qed.

Lemma pbind_ok {A B : Type} (r : presult A) (k : A -> str -> presult B)
    (b : B) (rest : str) :
  pbind r k = POk b rest ->
  exists a rest', r = POk a rest' /\ k a rest' = POk b rest.
Proof.
  destruct r; simpl; intros H; try discriminate. eauto.
Qed.

Lemma number_sign_length (s s1 : str) (b : bool) :
  number_sign s = (b, s1) -> (List.length s1 <= List.length s)%nat.
Proof.
  unfold number_sign. destruct s as [|c r]; [intros [= <- <-]; lia|].
  destruct (c =? 45); intros [= <- <-]; simpl; lia.
Qed.

Lemma number_int_shorter (s ds r : str) :
  number_int s = POk ds r -> (List.length r < List.length s)%nat.
Proof.
  unfold number_int. destruct s as [|c s]; [discriminate|].
  destruct (Str.is_digit c) eqn:Ec; [|discriminate]. cbn [negb].
  destruct (c =? 48).
  - intros [= <- <-]. simpl; lia.
  - cbn [span_digits]. rewrite Ec.
    destruct (span_digits s) as [ds' r'] eqn:E.
    intros [= <- <-]. apply span_digits_length in E. simpl; lia.
Qed.

Lemma number_frac_length (s ds r : str) :
  number_frac s = POk ds r -> (List.length r <= List.length s)%nat.
Proof.
  unfold number_frac. destruct s as [|c s]; [intros [= <- <-]; lia|].
  destruct (c =? 46); [|intros [= <- <-]; lia].
  destruct (span_digits s) as [fd rest] eqn:E.
  apply span_digits_length in E.
  destruct fd; [discriminate|]. intros [= <- <-]. simpl in *; lia.
Qed.

Lemma number_exp_length (s r : str) (z : Z) :
  number_exp s = POk z r -> (List.length r <= List.length s)%nat.
Proof.
  unfold number_exp. intros H.
  destruct s as [|x s]; [injection H as _ <-; lia|].
  destruct ((x =? 101) || (x =? 69)); [|injection H as _ <-; lia].
  match type of H with
  | (let (_, _) := ?m in _) = _ => destruct m as [eneg r'] eqn:Es
  end.
  assert (Hr : (List.length r' <= List.length s)%nat).
  { destruct s as [|c s']; [injection Es as _ <-; lia|].
    destruct (c =? 45); [injection Es as _ <-; simpl; lia|].
    destruct (c =? 43); injection Es as _ <-; simpl; lia. }
  destruct (span_digits r') as [ed rest] eqn:E.
  apply span_digits_length in E.
  destruct ed; [discriminate|]. injection H as _ <-. simpl in *; lia.
Qed.

Lemma parse_number_shorter (s : str) (n : jsnumber) (r : str) :
  parse_number s = POk n r -> (List.length r < List.length s)%nat.
Proof.
  unfold parse_number. destruct (number_sign s) as [b s1] eqn:E1.
  intros H. apply number_sign_length in E1.
  apply pbind_ok in H as (ds & s2 & E2 & H).
  apply pbind_ok in H as (fd & s3 & E3 & H).
  apply pbind_ok in H as (ex & s4 & E4 & H).
  injection H as _ <-.
  apply number_int_shorter in E2. apply number_frac_length in E3.
  apply number_exp_length in E4. lia.
Qed.

Lemma startsWith_length (s p : str) :
  Str.startsWith s p = true -> (List.length p <= List.length s)%nat.
Proof.
  revert s. induction p as [|a p IH]; intros s H; simpl; [lia|].
  destruct s as [|b s]; [discriminate|]. simpl in H.
  apply andb_true_iff in H as [_ H]. apply IH in H. simpl; lia.
Qed.

Lemma skipn_shorter (n : nat) (s p : str) :
  Str.startsWith s p = true -> List.length p = S n ->
  (List.length (skipn (S n) s) < List.length s)%nat.
Proof.
  intros H Hp. apply startsWith_length in H. rewrite length_skipn. lia.
Qed.

Lemma tl_skip_ws_shorter (c : N) (s : str) :
  next_is c s = true ->
  (List.length (tl (skip_ws s)) < List.length s)%nat.
Proof.
  unfold next_is. pose proof (skip_ws_length s) as H.
  destruct (skip_ws s); [discriminate|]. simpl in *. lia.
Qed.

(** A value, an element list or a member list that is read takes at least
    one character of the input. *)
Lemma parse_shorter (fuel : nat) :
  (forall s v r, parse_value fuel s = POk v r ->
                 (List.length r < List.length s)%nat)
  /\ (forall s v r, parse_elements fuel s = POk v r ->
                    (List.length r < List.length s)%nat)
  /\ (forall s v r, parse_members fuel s = POk v r ->
                    (List.length r < List.length s)%nat).
Proof.
  induction fuel as [|f (IHv & IHe & IHm)];
    [repeat split; intros; discriminate|].
  repeat split; intros s v r H.
  - cbn [parse_value] in H. pose proof (skip_ws_length s) as Hs.
    destruct (skip_ws s) as [|c r0] eqn:Es; [discriminate|]. simpl in Hs.
    destruct (c =? 123).
    { destruct (next_is 125 r0) eqn:En.
      - injection H as _ <-. apply tl_skip_ws_shorter in En. lia.
      - apply lift_ok in H as (a & H & _). apply IHm in H. lia. }
    destruct (c =? 91).
    { destruct (next_is 93 r0) eqn:En.
      - injection H as _ <-. apply tl_skip_ws_shorter in En. lia.
      - apply lift_ok in H as (a & H & _). apply IHe in H. lia. }
    destruct (c =? 34).
    { apply lift_ok in H as (a & H & _). apply parse_chars_shorter in H. lia. }
    destruct (Str.startsWith (c :: r0) (u16 "true")) eqn:Et.
    { injection H as _ <-.
      pose proof (skipn_shorter 3 _ _ Et eq_refl). simpl in *. lia. }
    destruct (Str.startsWith (c :: r0) (u16 "false")) eqn:Ef.
    { injection H as _ <-.
      pose proof (skipn_shorter 4 _ _ Ef eq_refl). simpl in *. lia. }
    destruct (Str.startsWith (c :: r0) (u16 "null")) eqn:En.
    { injection H as _ <-.
      pose proof (skipn_shorter 3 _ _ En eq_refl). simpl in *. lia. }
    destruct ((c =? 45) || Str.is_digit c); [|discriminate].
    apply lift_ok in H as (a & H & _). apply parse_number_shorter in H.
    simpl in *. lia.
  - cbn [parse_elements] in H.
    apply pbind_ok in H as (v0 & r0 & Ev & H).
    apply IHv in Ev. pose proof (skip_ws_length r0) as Hr0.
    destruct (skip_ws r0) as [|c1 r1] eqn:E1; [discriminate|]. simpl in Hr0.
    destruct (c1 =? 44).
    { apply lift_ok in H as (a & H & _). apply IHe in H. lia. }
    destruct (c1 =? 93); [|discriminate].
    injection H as _ <-. lia.
  - cbn [parse_members] in H. pose proof (skip_ws_length s) as Hs.
    destruct (skip_ws s) as [|c0 r0] eqn:Es; [discriminate|]. simpl in Hs.
    destruct (negb (c0 =? 34)); [discriminate|].
    apply pbind_ok in H as (k & r1 & Ek & H).
    apply parse_chars_shorter in Ek. pose proof (skip_ws_length r1) as Hr1.
    destruct (skip_ws r1) as [|c2 r2] eqn:E2; [discriminate|]. simpl in Hr1.
    destruct (negb (c2 =? 58)); [discriminate|].
    apply pbind_ok in H as (v0 & r3 & Ev & H).
    apply IHv in Ev. pose proof (skip_ws_length r3) as Hr3.
    destruct (skip_ws r3) as [|c4 r4] eqn:E4; [discriminate|]. simpl in Hr3.
    destruct (c4 =? 44).
    { apply lift_ok in H as (a & H & _). apply IHm in H. lia. }
    destruct (c4 =? 125); [|discriminate].
    injection H as _ <-. lia.
Qed.

Lemma pcons_fuel (c : N) (r : presult str) : pcons c r = PFuel -> r = PFuel.
Proof. now destruct r. Qed.

Lemma lift_fuel {A B : Type} (f : A -> B) (r : presult A) :
  lift f r = PFuel -> r = PFuel.
Proof. now destruct r. Qed.

Lemma parse_chars_fuel_aux (n : nat) :
  forall s, (List.length s <= n)%nat -> parse_chars s <> PFuel.
Proof.
  induction n as [|n IH]; intros s Hn H.
  - destruct s; [discriminate | simpl in Hn; lia].
  - destruct s as [|c s]; [discriminate|]. cbn [parse_chars] in H.
    simpl in Hn.
    destruct (c =? 34); [discriminate|].
    destruct (c =? 92).
    + destruct s as [|e s1]; [discriminate|].
      destruct (e =? 117).
      * destruct s1 as [|h1 [|h2 [|h3 [|h4 s2]]]]; try discriminate.
        destruct (hex4 h1 h2 h3 h4); [|discriminate].
        apply pcons_fuel in H. revert H. apply IH. simpl in *; lia.
      * destruct (simple_escape e); [|discriminate].
        apply pcons_fuel in H. revert H. apply IH. simpl in *; lia.
    + destruct (c <? 32); [discriminate|].
      apply pcons_fuel in H. revert H. apply IH. lia.
Qed.

Lemma parse_chars_fuel (s : str) : parse_chars s <> PFuel.
Proof. apply (parse_chars_fuel_aux (List.length s)). lia. Qed.

Lemma parse_number_fuel (s : str) : parse_number s <> PFuel.
Proof.
  unfold parse_number, number_int, number_frac, number_exp.
  destruct (number_sign s) as [b s1].
  destruct s1 as [|c s1]; [discriminate|].
  destruct (negb (Str.is_digit c)); [discriminate|].
  assert (H : forall ds r,
    pbind (POk ds r) (fun int_ds s2 =>
      pbind (number_frac s2) (fun frac_ds s3 =>
        pbind (number_exp s3) (fun ex s4 =>
          POk (Num.of_decimal b (digits_value (int_ds ++ frac_ds))
                 (ex - Z.of_nat (List.length frac_ds))%Z) s4))) <> PFuel).
  { intros ds r. cbn [pbind]. unfold number_frac, number_exp.
    assert (Hexp : forall fd s3,
      pbind (number_exp s3) (fun ex s4 =>
        POk (Num.of_decimal b (digits_value (ds ++ fd))
               (ex - Z.of_nat (List.length fd))%Z) s4) <> PFuel).
    { intros fd s3. unfold number_exp.
      destruct s3 as [|x s3]; [discriminate|].
      destruct ((x =? 101) || (x =? 69)); [|discriminate].
      match goal with
      | |- context [let (_, _) := ?m in _] => destruct m as [eneg r']
      end.
      destruct (span_digits r') as [[|e0 ed] rest]; discriminate. }
    destruct r as [|c0 r]; [apply (Hexp [] [])|].
    destruct (c0 =? 46); [|apply (Hexp [] (c0 :: r))].
    destruct (span_digits r) as [[|f0 fd] rest]; [discriminate|].
    apply Hexp. }
  destruct (c =? 48); [apply H|].
  destruct (span_digits (c :: s1)) as [ds rest]. apply H.
Qed.

(** Twice the length of the input, and one more, is enough fuel to read a
    value. *)
Lemma parse_fuel (fuel : nat) :
  (forall s, (2 * List.length s + 1 <= fuel)%nat -> parse_value fuel s <> PFuel)
  /\ (forall s, (2 * List.length s + 2 <= fuel)%nat ->
                parse_elements fuel s <> PFuel)
  /\ (forall s, (2 * List.length s + 2 <= fuel)%nat ->
                parse_members fuel s <> PFuel).
Proof.
  induction fuel as [|f (IHv & IHe & IHm)]; [repeat split; intros; lia|].
  repeat split; intros s Hf H.
  - cbn [parse_value] in H. pose proof (skip_ws_length s) as Hs.
    destruct (skip_ws s) as [|c r0] eqn:Es; [discriminate|]. simpl in Hs.
    destruct (c =? 123).
    { destruct (next_is 125 r0); [discriminate|].
      apply lift_fuel in H. revert H. apply IHm. lia. }
    destruct (c =? 91).
    { destruct (next_is 93 r0); [discriminate|].
      apply lift_fuel in H. revert H. apply IHe. lia. }
    destruct (c =? 34).
    { apply lift_fuel in H. revert H. apply parse_chars_fuel. }
    destruct (Str.startsWith (c :: r0) (u16 "true")); [discriminate|].
    destruct (Str.startsWith (c :: r0) (u16 "false")); [discriminate|].
    destruct (Str.startsWith (c :: r0) (u16 "null")); [discriminate|].
    destruct ((c =? 45) || Str.is_digit c); [|discriminate].
    apply lift_fuel in H. revert H. apply parse_number_fuel.
  - cbn [parse_elements] in H.
    destruct (parse_value f s) as [v0 r0| |] eqn:Ev; cbn [pbind] in H;
      [|discriminate|revert Ev; apply IHv; lia].
    apply (proj1 (parse_shorter f)) in Ev.
    pose proof (skip_ws_length r0) as Hr0.
    destruct (skip_ws r0) as [|c1 r1] eqn:E1; [discriminate|]. simpl in Hr0.
    destruct (c1 =? 44).
    { apply lift_fuel in H. revert H. apply IHe. lia. }
    destruct (c1 =? 93); discriminate.
  - cbn [parse_members] in H. pose proof (skip_ws_length s) as Hs.
    destruct (skip_ws s) as [|c0 r0] eqn:Es; [discriminate|]. simpl in Hs.
    destruct (negb (c0 =? 34)); [discriminate|].
    destruct (parse_chars r0) as [k r1| |] eqn:Ek; cbn [pbind] in H;
      [|discriminate|revert Ek; apply parse_chars_fuel].
    apply parse_chars_shorter in Ek. pose proof (skip_ws_length r1) as Hr1.
    destruct (skip_ws r1) as [|c2 r2] eqn:E2; [discriminate|]. simpl in Hr1.
    destruct (negb (c2 =? 58)); [discriminate|].
    destruct (parse_value f r2) as [v0 r3| |] eqn:Ev; cbn [pbind] in H;
      [|discriminate|revert Ev; apply IHv; lia].
    apply (proj1 (parse_shorter f)) in Ev.
    pose proof (skip_ws_length r3) as Hr3.
    destruct (skip_ws r3) as [|c4 r4] eqn:E4; [discriminate|]. simpl in Hr3.
    destruct (c4 =? 44).
    { apply lift_fuel in H. revert H. apply IHm. lia. }
    destruct (c4 =? 125); discriminate.
Qed.

(** More fuel does not change a result that did not run out of fuel. *)
Lemma parse_stable (f : nat) :
  (forall s g, (f <= g)%nat -> parse_value f s <> PFuel ->
               parse_value g s = parse_value f s)
  /\ (forall s g, (f <= g)%nat -> parse_elements f s <> PFuel ->
                  parse_elements g s = parse_elements f s)
  /\ (forall s g, (f <= g)%nat -> parse_members f s <> PFuel ->
                  parse_members g s = parse_members f s).
Proof.
  induction f as [|f (IHv & IHe & IHm)];
    [repeat split; intros s g _ H; now elim H|].
  repeat split; intros s g Hg H; (destruct g as [|g]; [lia|]);
    apply Nat.succ_le_mono in Hg.
  - cbn [parse_value] in *.
    destruct (skip_ws s) as [|c r0]; [reflexivity|].
    destruct (c =? 123).
    { destruct (next_is 125 r0); [reflexivity|].
      rewrite IHm; [reflexivity | exact Hg |].
      intros E. apply H. now rewrite E. }
    destruct (c =? 91).
    { destruct (next_is 93 r0); [reflexivity|].
      rewrite IHe; [reflexivity | exact Hg |].
      intros E. apply H. now rewrite E. }
    reflexivity.
  - cbn [parse_elements] in *.
    rewrite (IHv s g Hg) by (intros E; apply H; now rewrite E).
    destruct (parse_value f s) as [v0 r0| |]; cbn [pbind] in *;
      try reflexivity.
    destruct (skip_ws r0) as [|c1 r1]; [reflexivity|].
    destruct (c1 =? 44); [|reflexivity].
    rewrite IHe; [reflexivity | exact Hg |].
    intros E. apply H. now rewrite E.
  - cbn [parse_members] in *.
    destruct (skip_ws s) as [|c0 r0]; [reflexivity|].
    destruct (negb (c0 =? 34)); [reflexivity|].
    destruct (parse_chars r0) as [k r1| |]; cbn [pbind] in *;
      try reflexivity.
    destruct (skip_ws r1) as [|c2 r2]; [reflexivity|].
    destruct (negb (c2 =? 58)); [reflexivity|].
    rewrite (IHv r2 g Hg) by (intros E; apply H; now rewrite E).
    destruct (parse_value f r2) as [v0 r3| |]; cbn [pbind] in *;
      try reflexivity.
    destruct (skip_ws r3) as [|c4 r4]; [reflexivity|].
    destruct (c4 =? 44); [|reflexivity].
    rewrite IHm; [reflexivity | exact Hg |].
    intros E. apply H. now rewrite E.
Qed.

(** [JSON_parse] never runs out of fuel: it returns a value or throws a
    [SyntaxError]. *)
Theorem parse_value_fuel (text : str) :
  parse_value (2 * List.length text + 2) text <> PFuel.
Proof. apply (proj1 (parse_fuel _)). lia. Qed.

(** A value read with some fuel is the value that [JSON_parse] reads. *)
Lemma JSON_parse_ok (fuel : nat) (text : str) (v : json) (rest : str) :
  parse_value fuel text = POk v rest -> skip_ws rest = [] ->
  JSON_parse text = Normal v.
Proof.
  intros H Hr. unfold JSON_parse.
  set (F := (2 * List.length text + 2)%nat).
  assert (E : parse_value F text = POk v rest).
  { destruct (Nat.le_ge_cases fuel F) as [Hle|Hle].
    - rewrite (proj1 (parse_stable fuel) text F Hle); [exact H|].
      rewrite H. discriminate.
    - rewrite <- (proj1 (parse_stable F) text fuel Hle); [exact H|].
      apply parse_value_fuel. }
  now rewrite E, Hr.
Qed.

(** The only exception of [JSON_parse] is a [SyntaxError]. *)
Theorem JSON_parse_throws (text : str) (e : js_error) :
  JSON_parse text = Throw e -> exists m, e = SyntaxError m.
Proof.
  unfold JSON_parse. pose proof (parse_value_fuel text) as Hf.
  destruct (parse_value (2 * List.length text + 2) text) as [v rest|a|];
    [| |congruence].
  - destruct (skip_ws rest) as [|c r]; [discriminate|].
    intros [= <-]. unfold syntax_error. eauto.
  - intros [= <-]. unfold syntax_error. destruct a; eauto.
Qed.

End JsonFacts.

(** ** [JSON.parse] reads back what [JSON.stringify] writes *)

Module JsonRoundTrip.
Import Json Stringify JsonFacts.

(** The escape of a code unit is read back as this code unit. *)
Lemma hex_digit_value (n : N) : n < 16 -> hex_value (hex_digit n) = Some n.
Proof.
  intros Hn. unfold hex_value, hex_digit.
  destruct (n <? 10) eqn:E.
  - apply N.ltb_lt in E.
    replace ((48 <=? 48 + n) && (48 + n <=? 57)) with true
      by (symmetry; apply andb_true_iff; split; apply N.leb_le; lia).
    f_equal. lia.
  - apply N.ltb_ge in E.
    replace ((48 <=? 87 + n) && (87 + n <=? 57)) with false
      by (symmetry; apply andb_false_iff; right; apply N.leb_gt; lia).
    replace ((97 <=? 87 + n) && (87 + n <=? 102)) with true
      by (symmetry; apply andb_true_iff; split; apply N.leb_le; lia).
    f_equal. lia.
Qed.

Lemma hex_digits_sum (c : N) :
  c < 65536 ->
  ((c / 4096 mod 16 * 16 + c / 256 mod 16) * 16 + c / 16 mod 16) * 16
    + c mod 16 = c.
Proof.
  intros Hc.
  pose proof (N.div_mod c 16 ltac:(discriminate)) as H1.
  pose proof (N.div_mod (c / 16) 16 ltac:(discriminate)) as H2.
  pose proof (N.div_mod (c / 16 / 16) 16 ltac:(discriminate)) as H3.
  assert (E256 : c / 16 / 16 = c / 256) by apply N.Div0.div_div.
  assert (E4096 : c / 256 / 16 = c / 4096) by apply N.Div0.div_div.
  rewrite E256 in H2, H3. rewrite E4096 in H3.
  assert (H4 : c / 4096 < 16)
    by (apply N.Div0.div_lt_upper_bound; exact Hc).
  rewrite (N.mod_small (c / 4096) 16 H4). lia.
Qed.

Lemma unicode_escape_read (c : N) (r : str) :
  c < 65536 ->
  parse_chars (unicode_escape c ++ r) = pcons c (parse_chars r).
Proof.
  intros Hc. unfold unicode_escape.
  cbn [app parse_chars N.eqb Pos.eqb]. unfold hex4.
  rewrite !hex_digit_value by (apply N.mod_lt; discriminate).
  now rewrite hex_digits_sum.
Qed.

Lemma quote_chars_read_aux (n : nat) :
  forall s rest, (List.length s <= n)%nat ->
    parse_chars (quote_chars s ++ 34 :: rest) = POk s rest.
Proof.
  induction n as [|n IH]; intros s rest Hn.
  { destruct s; [reflexivity | simpl in Hn; lia]. }
  destruct s as [|c s]; [reflexivity|]. simpl in Hn.
  assert (IHs : parse_chars (quote_chars s ++ 34 :: rest) = POk s rest)
    by (apply IH; lia).
  cbn [quote_chars].
  destruct (c =? 34) eqn:E34.
  { apply N.eqb_eq in E34. subst c. cbn. cbn in IHs. now rewrite IHs. }
  destruct (c =? 92) eqn:E92.
  { apply N.eqb_eq in E92. subst c. cbn. cbn in IHs. now rewrite IHs. }
  destruct (c =? 8) eqn:E8.
  { apply N.eqb_eq in E8. subst c. cbn. cbn in IHs. now rewrite IHs. }
  destruct (c =? 12) eqn:E12.
  { apply N.eqb_eq in E12. subst c. cbn. cbn in IHs. now rewrite IHs. }
  destruct (c =? 10) eqn:E10.
  { apply N.eqb_eq in E10. subst c. cbn. cbn in IHs. now rewrite IHs. }
  destruct (c =? 13) eqn:E13.
  { apply N.eqb_eq in E13. subst c. cbn. cbn in IHs. now rewrite IHs. }
  destruct (c =? 9) eqn:E9.
  { apply N.eqb_eq in E9. subst c. cbn. cbn in IHs. now rewrite IHs. }
  destruct (c <? 32) eqn:E32.
  { apply N.ltb_lt in E32. rewrite <- app_assoc.
    rewrite unicode_escape_read by lia. now rewrite IHs. }
  assert (Hlit : forall t, parse_chars (c :: t) = pcons c (parse_chars t)).
  { intros t. cbn [parse_chars]. now rewrite E34, E92, E32. }
  destruct (is_lead_surrogate c) eqn:Elead.
  { assert (Hc : c < 65536).
    { unfold is_lead_surrogate in Elead. apply andb_true_iff in Elead as [_ H].
      apply N.leb_le in H. lia. }
    destruct s as [|d s'].
    - rewrite unicode_escape_read by exact Hc. reflexivity.
    - destruct (is_trail_surrogate d) eqn:Etrail.
      + cbn [app]. rewrite Hlit.
        assert (Hd : parse_chars (d :: quote_chars s' ++ 34 :: rest)
                     = pcons d (parse_chars (quote_chars s' ++ 34 :: rest))).
        { unfold is_trail_surrogate in Etrail.
          apply andb_true_iff in Etrail as [H1 H2].
          apply N.leb_le in H1. cbn [parse_chars].
          destruct (d =? 34) eqn:D34; [apply N.eqb_eq in D34; lia|].
          destruct (d =? 92) eqn:D92; [apply N.eqb_eq in D92; lia|].
          destruct (d <? 32) eqn:D32; [apply N.ltb_lt in D32; lia|].
          reflexivity. }
        rewrite Hd, IH by (simpl in Hn; lia). reflexivity.
      + rewrite <- app_assoc, unicode_escape_read by exact Hc.
        now rewrite IHs. }
  destruct (is_trail_surrogate c) eqn:Etrail.
  { assert (Hc : c < 65536).
    { unfold is_trail_surrogate in Etrail. apply andb_true_iff in Etrail as [_ H].
      apply N.leb_le in H. lia. }
    rewrite <- app_assoc, unicode_escape_read by exact Hc. now rewrite IHs. }
  cbn [app]. now rewrite Hlit, IHs.
Qed.

(** A string literal written by [quote] is read back as the string. *)
Lemma quote_read (s rest : str) :
  parse_chars (quote_chars s ++ 34 :: rest) = POk s rest.
Proof. apply (quote_chars_read_aux (List.length s)). lia. Qed.

(** *** The values that the round trip covers *)

Fixpoint distinct (keys : list str) : bool :=
  match keys with
  | [] => true
  | k :: rest => negb (existsb (str_eqb k) rest) && distinct rest
  end.

Definition plain_key (k : str) : bool :=
  match array_index k with
  | None => true
  | Some _ => false
  end.

(** A JSON value without numbers, whose objects have distinct keys that are
    not array indices: the own properties of such an object are enumerated
    in the order in which they were written. *)
Fixpoint serializable (v : json) : bool :=
  match v with
  | JNull => true
  | JBool _ => true
  | JNum _ => false
  | JStr _ => true
  | JArr items => forallb serializable items
  | JObj fields =>
      distinct (List.map fst fields)
      && forallb plain_key (List.map fst fields)
      && forallb (fun kv => serializable (snd kv)) fields
  end.

Fixpoint size (v : json) : nat :=
  match v with
  | JArr items => S (list_sum (List.map (fun x => S (size x)) items))
  | JObj fields => S (list_sum (List.map (fun kv => S (size (snd kv))) fields))
  | _ => 1
  end.

Definition gap2 : str := [32; 32].

(** The text of the elements of an array and of the members of an object,
    one on each line, followed by [tail]. *)
Fixpoint elements_text (inner : str) (items : list json) (tail : str) : str :=
  match items with
  | [] => tail
  | x :: xs =>
      value gap2 inner x
        ++ match xs with
           | [] => tail
           | _ :: _ => 44 :: 10 :: inner ++ elements_text inner xs tail
           end
  end.

Fixpoint members_text (inner : str) (fields : list (str * json)) (tail : str)
    : str :=
  match fields with
  | [] => tail
  | kv :: fs =>
      34 :: quote_chars (fst kv) ++ 34 :: 58 :: 32 :: value gap2 inner (snd kv)
        ++ match fs with
           | [] => tail
           | _ :: _ => 44 :: 10 :: inner ++ members_text inner fs tail
           end
  end.

Lemma elements_join (inner : str) (x : json) (xs : list json) (tail : str) :
  join (44 :: 10 :: inner) (List.map (value gap2 inner) (x :: xs)) ++ tail
  = elements_text inner (x :: xs) tail.
Proof.
  revert x. induction xs as [|y ys IH]; intros x; [reflexivity|].
  change (List.map (value gap2 inner) (x :: y :: ys))
    with (value gap2 inner x :: List.map (value gap2 inner) (y :: ys)).
  change (join (44 :: 10 :: inner)
            (value gap2 inner x :: List.map (value gap2 inner) (y :: ys)))
    with (value gap2 inner x ++ (44 :: 10 :: inner)
            ++ join (44 :: 10 :: inner) (List.map (value gap2 inner) (y :: ys))).
  rewrite <- !app_assoc, IH. reflexivity.
Qed.

Lemma array_text (indent : str) (x : json) (xs : list json) (rest : str) :
  value gap2 indent (JArr (x :: xs)) ++ rest
  = 91 :: (10 :: indent ++ gap2)
      ++ elements_text (indent ++ gap2) (x :: xs) (10 :: indent ++ 93 :: rest).
Proof.
  change (value gap2 indent (JArr (x :: xs)))
    with (91 :: (10 :: indent ++ gap2)
            ++ join (44 :: 10 :: indent ++ gap2)
                 (List.map (value gap2 (indent ++ gap2)) (x :: xs))
            ++ (10 :: indent) ++ [93]).
  rewrite <- elements_join.
  repeat (cbn [app]; rewrite <- ?app_assoc). reflexivity.
Qed.

Definition member_text (inner : str) (kv : str * json) : str :=
  quote (fst kv) ++ u16 ": " ++ value gap2 inner (snd kv).

Lemma members_join (inner : str) (kv : str * json) (fs : list (str * json))
    (tail : str) :
  join (44 :: 10 :: inner) (List.map (member_text inner) (kv :: fs)) ++ tail
  = members_text inner (kv :: fs) tail.
Proof.
  revert kv. induction fs as [|y ys IH]; intros kv.
  - cbn [List.map join members_text]. unfold member_text, quote.
    change (u16 ": ") with [58; 32]. cbn [app]. rewrite <- !app_assoc.
    reflexivity.
  - change (List.map (member_text inner) (kv :: y :: ys))
      with (member_text inner kv :: List.map (member_text inner) (y :: ys)).
    change (join (44 :: 10 :: inner)
              (member_text inner kv :: List.map (member_text inner) (y :: ys)))
      with (member_text inner kv ++ (44 :: 10 :: inner)
              ++ join (44 :: 10 :: inner)
                   (List.map (member_text inner) (y :: ys))).
    rewrite <- !app_assoc, IH. unfold member_text at 1, quote.
    change (u16 ": ") with [58; 32]. cbn [app members_text].
    rewrite <- !app_assoc. reflexivity.
Qed.

Lemma object_text (indent : str) (kv : str * json) (fs : list (str * json))
    (rest : str) :
  value gap2 indent (JObj (kv :: fs)) ++ rest
  = 123 :: (10 :: indent ++ gap2)
      ++ members_text (indent ++ gap2) (kv :: fs) (10 :: indent ++ 125 :: rest).
Proof.
  change (value gap2 indent (JObj (kv :: fs)))
    with (123 :: (10 :: indent ++ gap2)
            ++ join (44 :: 10 :: indent ++ gap2)
                 (List.map (member_text (indent ++ gap2)) (kv :: fs))
            ++ (10 :: indent) ++ [125]).
  rewrite <- members_join.
  repeat (cbn [app]; rewrite <- ?app_assoc). reflexivity.
Qed.

Lemma skip_ws_app (w : str) (c : N) (t : str) :
  forallb is_ws w = true -> is_ws c = false ->
  skip_ws (w ++ c :: t) = c :: t.
Proof.
  intros Hw Hc. induction w as [|x w IH]; simpl.
  - now rewrite Hc.
  - simpl in Hw. apply andb_true_iff in Hw as [Hx Hw]. rewrite Hx. now apply IH.
Qed.

(** The first character of the text of a value: not white space, and not a
    closing bracket or brace. *)
Definition opens (c : N) : Prop :=
  is_ws c = false /\ c <> 93 /\ c <> 125.

Lemma value_opens (indent : str) (v : json) :
  serializable v = true ->
  exists c t, value gap2 indent v = c :: t /\ opens c.
Proof.
  intros Hs. destruct v as [|[]|n|s|[|x xs]|[|kv fs]]; try discriminate;
    cbn [value]; eexists; eexists;
    (split; [reflexivity | repeat split; discriminate]).
Qed.

(** Passes the white space before the first character of a value. *)
Ltac skip_white :=
  rewrite skip_ws_app by (assumption || reflexivity).

Lemma size_pos (v : json) : (1 <= size v)%nat.
Proof. destruct v; simpl; lia. Qed.

Section Read.

(** The values of size at most [n] are read back, after white space and
    before any text. *)
Variable n : nat.

Hypothesis read_value :
  forall v indent w rest fuel,
    (size v <= n)%nat -> serializable v = true ->
    forallb is_ws w = true -> forallb is_ws indent = true ->
    (size v <= fuel)%nat ->
    parse_value fuel (w ++ value gap2 indent v ++ rest) = POk v rest.

Lemma read_elements (inner indent : str) (items : list json) :
  items <> [] ->
  Forall (fun x => (size x <= n)%nat /\ serializable x = true) items ->
  forallb is_ws inner = true -> forallb is_ws indent = true ->
  forall w rest fuel,
    forallb is_ws w = true ->
    (list_sum (List.map (fun x => S (size x)) items) <= fuel)%nat ->
    parse_elements fuel
      (w ++ elements_text inner items (10 :: indent ++ 93 :: rest))
    = POk items rest.
Proof.
  intros Hne Hall Hinner Hindent.
  induction Hall as [|x xs [Hx Hsx] Hall IH]; [congruence|].
  intros w rest fuel Hw Hfuel. cbn [List.map list_sum fold_right] in Hfuel.
  destruct fuel as [|f]; [lia|].
  cbn [parse_elements elements_text].
  rewrite read_value; [|exact Hx|exact Hsx|exact Hw|exact Hinner|lia].
  cbn [pbind]. destruct xs as [|y ys].
  - replace (10 :: indent ++ 93 :: rest) with ((10 :: indent) ++ 93 :: rest)
      by reflexivity.
    rewrite skip_ws_app; [reflexivity | | reflexivity].
    cbn [forallb]. now rewrite Hindent.
  - cbn [skip_ws is_ws N.eqb Pos.eqb orb].
    change (10 :: inner ++ elements_text inner (y :: ys)
                             (10 :: indent ++ 93 :: rest))
      with ((10 :: inner) ++ elements_text inner (y :: ys)
                               (10 :: indent ++ 93 :: rest)).
    rewrite IH; [reflexivity | discriminate | |].
    + cbn [forallb]. now rewrite Hinner.
    + cbn [List.map list_sum fold_right] in *. lia.
Qed.

Lemma read_members (inner indent : str) (fields : list (str * json)) :
  fields <> [] ->
  Forall (fun kv => (size (snd kv) <= n)%nat /\ serializable (snd kv) = true)
    fields ->
  forallb is_ws inner = true -> forallb is_ws indent = true ->
  forall w rest fuel,
    forallb is_ws w = true ->
    (list_sum (List.map (fun kv => S (size (snd kv))) fields) <= fuel)%nat ->
    parse_members fuel
      (w ++ members_text inner fields (10 :: indent ++ 125 :: rest))
    = POk fields rest.
Proof.
  intros Hne Hall Hinner Hindent.
  induction Hall as [|[k x] xs [Hx Hsx] Hall IH]; [congruence|].
  intros w rest fuel Hw Hfuel. cbn [List.map list_sum fold_right snd] in Hfuel.
  cbn [snd] in Hx, Hsx.
  destruct fuel as [|f]; [lia|].
  cbn [parse_members members_text fst snd].
  skip_white.
  cbn [N.eqb Pos.eqb negb]. rewrite quote_read. cbn [pbind].
  cbn [skip_ws is_ws N.eqb Pos.eqb orb negb].
  change (32 :: value gap2 inner x ++ ?t) with ([32] ++ value gap2 inner x ++ t).
  rewrite read_value; [|exact Hx|exact Hsx|reflexivity|exact Hinner|lia].
  cbn [pbind]. destruct xs as [|y ys].
  - replace (10 :: indent ++ 125 :: rest) with ((10 :: indent) ++ 125 :: rest)
      by reflexivity.
    rewrite skip_ws_app; [reflexivity | | reflexivity].
    cbn [forallb]. now rewrite Hindent.
  - cbn [skip_ws is_ws N.eqb Pos.eqb orb].
    change (10 :: inner ++ members_text inner (y :: ys)
                             (10 :: indent ++ 125 :: rest))
      with ((10 :: inner) ++ members_text inner (y :: ys)
                               (10 :: indent ++ 125 :: rest)).
    rewrite IH; [reflexivity | discriminate | |].
    + cbn [forallb]. now rewrite Hinner.
    + cbn [List.map list_sum fold_right] in *. lia.
Qed.

End Read.

(** *** The object that the members make *)

Lemma str_eqb_eq (a b : str) : str_eqb a b = true <-> a = b.
Proof. unfold str_eqb. destruct (list_eq_dec N.eq_dec a b); intuition congruence. Qed.

Lemma distinct_NoDup (keys : list str) : distinct keys = true -> NoDup keys.
Proof.
  induction keys as [|k keys IH]; [constructor|]. cbn [distinct].
  intros H. apply andb_true_iff in H as [Hk Hd]. constructor; [|auto].
  intros Hin. apply negb_true_iff in Hk.
  assert (E : existsb (str_eqb k) keys = true).
  { apply existsb_exists. exists k. split; [exact Hin | now apply str_eqb_eq]. }
  congruence.
Qed.

Lemma lookup_absent (k : str) (fields : list (str * json)) :
  ~ In k (List.map fst fields) -> lookup k fields = None.
Proof.
  induction fields as [|[k' v] fields IH]; [reflexivity|]. cbn [List.map fst].
  intros H. cbn [lookup]. destruct (str_eqb k k') eqn:E.
  - apply str_eqb_eq in E. subst k'. exfalso. apply H. now left.
  - apply IH. intros Hin. apply H. now right.
Qed.

Lemma define_all (fields acc : list (str * json)) :
  NoDup (List.map fst (acc ++ fields)) ->
  forallb plain_key (List.map fst fields) = true ->
  fold_left define fields acc = acc ++ fields.
Proof.
  revert acc. induction fields as [|[k v] fields IH]; intros acc Hnd Hplain.
  - now rewrite app_nil_r.
  - cbn [List.map fst forallb] in Hplain.
    apply andb_true_iff in Hplain as [Hk Hplain].
    cbn [fold_left]. unfold define at 2.
    rewrite lookup_absent.
    + unfold plain_key in Hk. destruct (array_index k); [discriminate|].
      rewrite IH.
      * now rewrite <- app_assoc.
      * now rewrite <- app_assoc.
      * exact Hplain.
    + rewrite map_app in Hnd. cbn [List.map fst] in Hnd.
      apply NoDup_remove_2 in Hnd. intros Hin. apply Hnd.
      apply in_or_app. now left.
Qed.

Lemma make_object_fields (fields : list (str * json)) :
  distinct (List.map fst fields) = true ->
  forallb plain_key (List.map fst fields) = true ->
  make_object fields = JObj fields.
Proof.
  intros Hd Hp. unfold make_object. rewrite define_all; [reflexivity | | exact Hp].
  now apply distinct_NoDup.
Qed.

(** *** The round trip *)

Lemma next_is_opens (c x : N) (w t : str) :
  forallb is_ws w = true -> opens x -> (c = 93 \/ c = 125) ->
  next_is c (w ++ x :: t) = false.
Proof.
  intros Hw (Hx & H93 & H125) Hc. unfold next_is.
  rewrite skip_ws_app by assumption.
  apply N.eqb_neq. destruct Hc; congruence.
Qed.

Lemma in_list_sum {A : Type} (g : A -> nat) (l : list A) (x : A) :
  In x l -> (g x <= list_sum (List.map g l))%nat.
Proof.
  induction l as [|y l IH]; [contradiction|].
  cbn [List.map list_sum fold_right]. intros [->|H]; [lia|].
  apply IH in H. unfold list_sum in H. lia.
Qed.

Lemma read_value_all (n : nat) :
  forall v indent w rest fuel,
    (size v <= n)%nat -> serializable v = true ->
    forallb is_ws w = true -> forallb is_ws indent = true ->
    (size v <= fuel)%nat ->
    parse_value fuel (w ++ value gap2 indent v ++ rest) = POk v rest.
Proof.
  induction n as [|n IH]; intros v indent w rest fuel Hn Hs Hw Hi Hf.
  { pose proof (size_pos v). lia. }
  destruct fuel as [|f]; [pose proof (size_pos v); lia|].
  assert (Hinner : forallb is_ws (indent ++ gap2) = true)
    by (rewrite forallb_app, Hi; reflexivity).
  assert (Hw' : forallb is_ws (10 :: indent ++ gap2) = true)
    by (cbn [forallb]; rewrite Hinner; reflexivity).
  destruct v as [|b|x|s|items|fields].
  - cbn [parse_value value]. change (u16 "null") with [110; 117; 108; 108].
    cbn [app]. skip_white. reflexivity.
  - cbn [parse_value value]. destruct b.
    + change (u16 "true") with [116; 114; 117; 101].
      cbn [app]. skip_white. reflexivity.
    + change (u16 "false") with [102; 97; 108; 115; 101].
      cbn [app]. skip_white. reflexivity.
  - discriminate.
  - cbn [parse_value value]. unfold quote. cbn [app]. rewrite <- app_assoc.
    cbn [app]. skip_white.
    cbn [N.eqb Pos.eqb]. now rewrite quote_read.
  - destruct items as [|x xs].
    + cbn [parse_value value]. change (u16 "[]") with [91; 93].
      cbn [app]. skip_white. reflexivity.
    + rewrite array_text. cbn [parse_value].
      skip_white.
      cbn [N.eqb Pos.eqb].
      cbn [serializable forallb] in Hs. apply andb_true_iff in Hs as [Hsx Hsxs].
      destruct (value_opens (indent ++ gap2) x Hsx) as (c & t & Ec & Hc).
      assert (Hnext : next_is 93
                        ((10 :: indent ++ gap2)
                           ++ elements_text (indent ++ gap2) (x :: xs)
                                (10 :: indent ++ 93 :: rest)) = false).
      { cbn [elements_text]. rewrite Ec. cbn [app].
        change (10 :: (indent ++ gap2) ++ c :: ?u)
          with ((10 :: indent ++ gap2) ++ c :: u).
        apply next_is_opens; [exact Hw' | exact Hc | now left]. }
      rewrite Hnext.
      cbn [size] in Hn, Hf.
      rewrite (read_elements n IH); [reflexivity | discriminate | | exact Hinner
                                    | exact Hi | exact Hw' | lia].
      apply Forall_forall. intros y Hy. split.
      * pose proof (in_list_sum (fun x => S (size x)) _ _ Hy). cbn beta in H. lia.
      * destruct Hy as [<-|Hy]; [exact Hsx|].
        rewrite forallb_forall in Hsxs. now apply Hsxs.
  - destruct fields as [|kv fs].
    + cbn [parse_value value]. change (u16 "{}") with [123; 125].
      cbn [app]. skip_white. reflexivity.
    + rewrite object_text. cbn [parse_value].
      skip_white.
      cbn [N.eqb Pos.eqb].
      cbn [serializable] in Hs. apply andb_true_iff in Hs as [Hs Hvals].
      apply andb_true_iff in Hs as [Hdist Hplain].
      assert (Hnext : next_is 125
                        ((10 :: indent ++ gap2)
                           ++ members_text (indent ++ gap2) (kv :: fs)
                                (10 :: indent ++ 125 :: rest)) = false).
      { cbn [members_text].
        apply next_is_opens; [exact Hw' | repeat split; discriminate | now right]. }
      rewrite Hnext.
      cbn [size] in Hn, Hf.
      rewrite (read_members n IH); [| discriminate | | exact Hinner
                                   | exact Hi | exact Hw' | lia].
      * cbn [lift]. now rewrite make_object_fields.
      * apply Forall_forall. intros y Hy. split.
        -- pose proof (in_list_sum (fun kv => S (size (snd kv))) _ _ Hy).
           cbn beta in H. lia.
        -- rewrite forallb_forall in Hvals. now apply Hvals.
Qed.

(** [JSON.parse] reads back the text that [JSON.stringify] writes, with the
    indentation of two spaces, for a serializable value. *)
Theorem JSON_roundtrip (v : json) :
  serializable v = true -> JSON_parse (JSON_stringify_2 v) = Normal v.
Proof.
  intros Hs. apply (JSON_parse_ok (size v) (JSON_stringify_2 v) v []);
    [|reflexivity].
  pose proof (read_value_all (size v) v [] [] [] (size v)
                (le_n _) Hs eq_refl eq_refl (le_n _)) as H.
  cbn [app] in H. rewrite app_nil_r in H. exact H.
Qed.

End JsonRoundTrip.

(** ** The response parser *)

(** [contains s p]: the text [p] occurs in [s]. *)
Definition contains (s p : str) : Prop := exists a b, s = a ++ p ++ b.

Lemma indexOf_contains (s p : str) (i : nat) :
  Str.indexOf s p = Some i -> contains s p.
Proof.
  intros H. apply StrFacts.indexOf_Some in H as [H _].
  now exists (firstn i s), (skipn (i + List.length p) s).
Qed.

Lemma not_contains (s p : str) : Str.indexOf s p = None -> ~ contains s p.
Proof.
  intros H [a [b Hab]]. exact (StrFacts.indexOf_None _ _ H a b Hab).
Qed.

Definition idle : ParseResult :=
  {| gameData := None; gameScript := None; error := None |}.

(** C6: for every raw input that is empty or consists of white space only,
    [parseAiOutput] returns the neutral idle outcome: no descriptor, no
    script and no error. *)
Theorem parseAiOutput_blank (rawInput : str) :
  forallb Str.is_white_space rawInput = true ->
  parseAiOutput rawInput = Normal idle.
Proof.
  intros H. unfold parseAiOutput.
  now rewrite (StrFacts.trim_blank _ H).
Qed.

Lemma parseAiOutput_blank_witness :
  forallb Str.is_white_space [32; 9; 10; 13; 160] = true
  /\ parseAiOutput [32; 9; 10; 13; 160] = Normal idle.
Proof.
  split; [reflexivity | apply parseAiOutput_blank; reflexivity].
Defined.

(** C7: for every raw input that is not blank and does not contain the
    token %%BEGINCODE%%, [parseAiOutput] fails with the message that names
    this token, and returns no descriptor and no script. *)
Theorem parseAiOutput_no_separator (rawInput : str) :
  forallb Str.is_white_space rawInput = false ->
  ~ contains rawInput codeSeparator ->
  parseAiOutput rawInput
    = Normal {| gameData := None; gameScript := None;
                error := Some separator_not_found |}
  /\ contains separator_not_found codeSeparator.
Proof.
  intros Hblank Hsep. split.
  - unfold parseAiOutput.
    destruct (Str.trim rawInput) eqn:Et.
    + apply StrFacts.trim_nil_inv in Et. congruence.
    + destruct (Str.indexOf rawInput codeSeparator) eqn:Ei; [|reflexivity].
      exfalso. apply Hsep. eapply indexOf_contains; eassumption.
  - exists (u16 "Parsing Error: '"), (u16 "' separator not found.").
    reflexivity.
Qed.

Lemma parseAiOutput_no_separator_witness :
  forallb Str.is_white_space (u16 "Here is your game: %%BEGIN%% var x;") = false
  /\ ~ contains (u16 "Here is your game: %%BEGIN%% var x;") codeSeparator
  /\ parseAiOutput (u16 "Here is your game: %%BEGIN%% var x;")
     = Normal {| gameData := None; gameScript := None;
                 error := Some separator_not_found |}
  /\ contains separator_not_found codeSeparator.
Proof.
  assert (H : ~ contains (u16 "Here is your game: %%BEGIN%% var x;")
                codeSeparator) by (apply not_contains; reflexivity).
  split; [reflexivity|]. split; [exact H|].
  apply parseAiOutput_no_separator; [reflexivity | exact H].
Defined.

(** The input of the example of the specification. *)
Definition match_game_input : str :=
  jq "{'title':'Match Game','description':'Match pairs.','how_to_play':['Click a card']}%%BEGINCODE%%<script>var x=1;</script>%%ENDCODE%%".

(** C5: the example input parses to the descriptor with title Match Game,
    description Match pairs. and the one instruction Click a card, and to
    the script var x=1; (cut at the end marker, without its script tags,
    trimmed). *)
Theorem parseAiOutput_match_game :
  parseAiOutput match_game_input
  = Normal {| gameData :=
                Some (JObj [(u16 "title", JStr (u16 "Match Game"));
                            (u16 "description", JStr (u16 "Match pairs."));
                            (u16 "how_to_play",
                             JArr [JStr (u16 "Click a card")])]);
              gameScript := Some (u16 "var x=1;");
              error := None |}.
Proof. vm_compute. reflexivity. Qed.

(** [field v k]: the own property [k] of a JSON object, [undefined] on any
    other value. *)
Definition field (v : json) (k : str) : jsval :=
  match v with
  | JObj fields => lookup k fields
  | _ => None
  end.

(** The invariant of a descriptor that the validation enforces: a title and
    a description that are truthy, and instructions that are an array. *)
Definition descriptor_ok (v : json) : bool :=
  truthy (field v (u16 "title"))
  && truthy (field v (u16 "description"))
  && isArray (field v (u16 "how_to_play")).

Lemma json_is_null (v : json) : v = JNull \/ v <> JNull.
Proof. destruct v; (now left) || (right; discriminate). Qed.

Lemma required_fields_missing_spec (v : json) :
  v <> JNull ->
  required_fields_missing v = Normal (negb (descriptor_ok v)).
Proof.
  intros Hv. unfold required_fields_missing, not_prop, or_else, descriptor_ok.
  destruct v; try congruence; try reflexivity.
  cbn [prop bind field].
  destruct (truthy (lookup (u16 "title") fields)); [|reflexivity].
  destruct (truthy (lookup (u16 "description") fields)); [|reflexivity].
  destruct (lookup (u16 "how_to_play") fields) as [[]|]; try reflexivity.
  - cbn. now destruct b.
  - cbn. now destruct (Num.is_zero n).
  - cbn. now destruct s.
Qed.

Lemma separator_not_blank (raw : str) (i : nat) :
  Str.indexOf raw codeSeparator = Some i ->
  forallb Str.is_white_space raw = false.
Proof.
  intros H. apply indexOf_contains in H as [a [b ->]].
  rewrite !forallb_app.
  replace (forallb Str.is_white_space codeSeparator) with false by reflexivity.
  now rewrite andb_false_r.
Qed.

(** The paths of [parseAiOutput], one constructor for each [return] and one
    for the exception of the field validation. *)
Inductive parse_case (raw : str) : completion ParseResult -> Prop :=
| case_idle :
    forallb Str.is_white_space raw = true ->
    parse_case raw (Normal idle)
| case_no_separator :
    forallb Str.is_white_space raw = false ->
    ~ contains raw codeSeparator ->
    parse_case raw (Normal (failure separator_not_found))
| case_bad_json i e :
    Str.indexOf raw codeSeparator = Some i ->
    JSON_parse (cleanedJsonString (Str.substring_to raw i)) = Throw e ->
    parse_case raw (Normal (failure (u16 "JSON Parsing Error: " ++ message e)))
| case_null i :
    Str.indexOf raw codeSeparator = Some i ->
    JSON_parse (cleanedJsonString (Str.substring_to raw i)) = Normal JNull ->
    parse_case raw
      (Throw (TypeError (u16 "Cannot read properties of null (reading 'title')")))
| case_missing i v :
    Str.indexOf raw codeSeparator = Some i ->
    JSON_parse (cleanedJsonString (Str.substring_to raw i)) = Normal v ->
    v <> JNull -> descriptor_ok v = false ->
    parse_case raw (Normal (failure missing_fields))
| case_pair i v :
    Str.indexOf raw codeSeparator = Some i ->
    JSON_parse (cleanedJsonString (Str.substring_to raw i)) = Normal v ->
    descriptor_ok v = true ->
    parse_case raw (Normal {| gameData := Some v;
                              gameScript := Some (extractScript raw i);
                              error := None |}).

Lemma parseAiOutput_case (raw : str) : parse_case raw (parseAiOutput raw).
Proof.
  unfold parseAiOutput.
  destruct (Str.trim raw) eqn:Et.
  { apply case_idle. now apply StrFacts.trim_nil_inv. }
  assert (Hnb : forallb Str.is_white_space raw = false).
  { destruct (forallb Str.is_white_space raw) eqn:E; [|reflexivity].
    apply StrFacts.trim_blank in E. congruence. }
  destruct (Str.indexOf raw codeSeparator) as [i|] eqn:Ei.
  2:{ apply case_no_separator; [exact Hnb | now apply not_contains]. }
  cbv zeta.
  destruct (JSON_parse (cleanedJsonString (Str.substring_to raw i)))
    as [v|e] eqn:Ep.
  2:{ eapply case_bad_json; eassumption. }
  destruct (json_is_null v) as [->|Hv].
  { eapply case_null; eassumption. }
  rewrite (required_fields_missing_spec v Hv). cbn [bind].
  destruct (descriptor_ok v) eqn:Ok; cbn [negb].
  - eapply case_pair; eassumption.
  - eapply case_missing; eassumption.
Qed.

(** C2 (as amended): [parseAiOutput] returns a descriptor only when the
    JSON preamble has a truthy title, a truthy description and instructions
    that are an array (an empty array is accepted); the descriptor then comes
    with a script and without an error.  For every input whose preamble is a
    JSON value other than null that violates this, parsing fails as a unit
    with the error that names the required fields; and every preamble that
    satisfies it gives the pair of the descriptor and the script. *)
Theorem parseAiOutput_descriptor_invariant :
  (forall raw r d,
      parseAiOutput raw = Normal r -> gameData r = Some d ->
      (exists i, Str.indexOf raw codeSeparator = Some i
                 /\ JSON_parse (cleanedJsonString (Str.substring_to raw i))
                    = Normal d)
      /\ descriptor_ok d = true
      /\ (exists script, gameScript r = Some script)
      /\ error r = None)
  /\
  (forall raw i v,
      Str.indexOf raw codeSeparator = Some i ->
      JSON_parse (cleanedJsonString (Str.substring_to raw i)) = Normal v ->
      v <> JNull -> descriptor_ok v = false ->
      parseAiOutput raw
      = Normal {| gameData := None; gameScript := None;
                  error := Some missing_fields |})
  /\
  (forall raw i v,
      Str.indexOf raw codeSeparator = Some i ->
      JSON_parse (cleanedJsonString (Str.substring_to raw i)) = Normal v ->
      descriptor_ok v = true ->
      parseAiOutput raw
      = Normal {| gameData := Some v;
                  gameScript := Some (extractScript raw i);
                  error := None |}).
Proof.
  split; [|split].
  - intros raw r d Hr Hd.
    destruct (parseAiOutput_case raw) as [| | | |i v Hi Hp Hv Hok|i v Hi Hp Hok];
      try discriminate; injection Hr as <-; try discriminate.
    cbn in Hd. injection Hd as <-.
    split; [exists i; split; assumption|].
    split; [exact Hok|]. split; [eexists; reflexivity | reflexivity].
  - intros raw i v Hi Hp Hv Hok.
    destruct (parseAiOutput_case raw)
      as [Hb| Hb Hc|j e Hj He|j Hj Hn|j w Hj Hw Hnn Hko|j w Hj Hw Hok'].
    + rewrite (separator_not_blank raw i Hi) in Hb. discriminate.
    + exfalso. apply Hc. eapply indexOf_contains; eassumption.
    + congruence.
    + congruence.
    + reflexivity.
    + congruence.
  - intros raw i v Hi Hp Hok.
    destruct (parseAiOutput_case raw)
      as [Hb| Hb Hc|j e Hj He|j Hj Hn|j w Hj Hw Hnn Hko|j w Hj Hw Hok'].
    + rewrite (separator_not_blank raw i Hi) in Hb. discriminate.
    + exfalso. apply Hc. eapply indexOf_contains; eassumption.
    + congruence.
    + rewrite Hi in Hj. injection Hj as <-. rewrite Hp in Hn.
      injection Hn as ->. discriminate.
    + congruence.
    + rewrite Hi in Hj. injection Hj as <-. rewrite Hp in Hw.
      now injection Hw as <-.
Qed.

Definition no_title_input : str :=
  jq "{'description':'Match pairs.','how_to_play':'Click a card'}%%BEGINCODE%%var x=1;".

Lemma parseAiOutput_descriptor_invariant_witness :
  Str.indexOf no_title_input codeSeparator = Some 59%nat
  /\ parseAiOutput no_title_input
     = Normal {| gameData := None; gameScript := None;
                 error := Some missing_fields |}.
Proof.
  split; [reflexivity|].
  apply (proj1 (proj2 parseAiOutput_descriptor_invariant) no_title_input 59%nat
           (JObj [(u16 "description", JStr (u16 "Match pairs."));
                  (u16 "how_to_play", JStr (u16 "Click a card"))])).
  - reflexivity.
  - vm_compute. reflexivity.
  - discriminate.
  - reflexivity.
Defined.

(** The claim C2 fails as stated: a preamble whose instructions are the
    empty array gives a descriptor and a script. *)
Lemma parseAiOutput_empty_how_to_play :
  parseAiOutput
    (jq "{'title':'T','description':'D','how_to_play':[]}%%BEGINCODE%%x")
  = Normal {| gameData :=
                Some (JObj [(u16 "title", JStr (u16 "T"));
                            (u16 "description", JStr (u16 "D"));
                            (u16 "how_to_play", JArr [])]);
              gameScript := Some (u16 "x");
              error := None |}.
Proof. vm_compute. reflexivity. Qed.

(** ** The callers of the parser *)

(** The three input fields of the form are filled. *)
Definition filled (st : AppState) : Prop :=
  is_blank (gameIdea st) = false
  /\ is_blank (targetLang st) = false
  /\ is_blank (comfLang st) = false.

(** A state of the application with the form filled. *)
Definition ready : AppState :=
  {| s_gameData := None; s_gameScript := None; s_error := None;
     s_isGenerating := false; s_activeTab := TabGenerate;
     s_apiKeySelected := true;
     gameIdea := u16 "a memory game about animals";
     targetLang := u16 "es"; comfLang := u16 "en" |}.

Lemma ready_filled : filled ready.
Proof. repeat split. Qed.

Lemma handleGenerate_filled (response : completion str) (st : AppState) :
  filled st ->
  handleGenerate response st
  = let st := setGameScript None (setGameData None
                (setError None (setIsGenerating true st))) in
    match response with
    | Throw e =>
        (setIsGenerating false (handleApiKeyError e (u16 "API Error") st),
         Finished)
    | Normal rawInput =>
        match rejection_probe rawInput with
        | Some msg =>
            (setIsGenerating false
               (setIsGenerating false (setError (Some msg) st)), Finished)
        | None =>
            match parseAiOutput rawInput with
            | Throw e =>
                (setIsGenerating false
                   (handleApiKeyError e (u16 "API Error") st), Finished)
            | Normal r =>
                match error r with
                | Some (c :: parseError) =>
                    (setIsGenerating false
                       (setError (Some ((c :: parseError) ++ raw_output_label
                                          ++ rawInput)) st),
                     Finished)
                | _ =>
                    (setGameScript (gameScript r) (setGameData (gameData r) st),
                     AnalyzeThenEdit (gameScript r))
                end
            end
        end
    end.
Proof.
  intros (H1 & H2 & H3). unfold handleGenerate.
  now rewrite H1, H2, H3.
Qed.

(** The preamble of the input is the JSON value null: the one case in which
    the field validation of [parseAiOutput] raises a [TypeError]. *)
Definition preamble_null (raw : str) : Prop :=
  exists i, Str.indexOf raw codeSeparator = Some i
            /\ JSON_parse (cleanedJsonString (Str.substring_to raw i))
               = Normal JNull.

(** The messages of a failed parse. *)
Definition explanation (e : str) : Prop :=
  e = separator_not_found
  \/ e = missing_fields
  \/ exists m, e = u16 "JSON Parsing Error: " ++ m.

(** C4 (as amended): for every raw input whose preamble is not the JSON
    value null, [parseAiOutput] returns without raising.  When it returns a
    failure, the failure has an explanation and neither descriptor nor
    script; the generation path (for an input that is not a rejection notice)
    shows the explanation followed by the raw input text; the file-import
    path shows the explanation after the words Import Error, without the raw
    text. *)
Theorem parse_failure_reporting (raw : str) (st : AppState) :
  ~ preamble_null raw ->
  exists r,
    parseAiOutput raw = Normal r
    /\ forall e, error r = Some e ->
         explanation e /\ gameData r = None /\ gameScript r = None
         /\ (filled st -> rejection_probe raw = None ->
             handleGenerate (Normal raw) st
             = (setIsGenerating false
                  (setError (Some (e ++ raw_output_label ++ raw))
                     (setGameScript None (setGameData None
                        (setError None (setIsGenerating true st))))),
                Finished))
         /\ handleFileSelected_onload (Some raw) st
            = (setError (Some (u16 "Import Error: " ++ e))
                 (setGameScript None (setGameData None (setError None st))),
               Finished).
Proof.
  intros Hnull.
  assert (Hgen : forall r c e, parseAiOutput raw = Normal r ->
            error r = Some (c :: e) ->
            (filled st -> rejection_probe raw = None ->
             handleGenerate (Normal raw) st
             = (setIsGenerating false
                  (setError (Some ((c :: e) ++ raw_output_label ++ raw))
                     (setGameScript None (setGameData None
                        (setError None (setIsGenerating true st))))),
                Finished))
            /\ handleFileSelected_onload (Some raw) st
               = (setError (Some (u16 "Import Error: " ++ c :: e))
                    (setGameScript None (setGameData None (setError None st))),
                  Finished)).
  { intros r c e Hr He. split.
    - intros Hf Hp. rewrite (handleGenerate_filled _ _ Hf). cbv zeta.
      now rewrite Hp, Hr, He.
    - unfold handleFileSelected_onload. now rewrite Hr, He. }
  revert Hgen.
  destruct (parseAiOutput_case raw)
    as [Hb| Hb Hc|j e Hj He|j Hj Hn|j w Hj Hw Hnn Hko|j w Hj Hw Hok];
    intros Hgen.
  - eexists; split; [reflexivity|]. discriminate.
  - eexists; split; [reflexivity|]. intros e [= <-].
    repeat split; [now left | |]; now apply (Hgen _ _ _ eq_refl eq_refl).
  - eexists; split; [reflexivity|]. intros e' [= <-].
    repeat split; [right; right; now eexists | |];
      now apply (Hgen _ _ _ eq_refl eq_refl).
  - exfalso. apply Hnull. exists j. now split.
  - eexists; split; [reflexivity|]. intros e [= <-].
    repeat split; [right; now left | |]; now apply (Hgen _ _ _ eq_refl eq_refl).
  - eexists; split; [reflexivity|]. discriminate.
Qed.

Lemma parse_failure_reporting_witness :
  ~ preamble_null (u16 "Sure! Here is your game.")
  /\ exists r,
       parseAiOutput (u16 "Sure! Here is your game.") = Normal r
       /\ forall e, error r = Some e ->
            explanation e /\ gameData r = None /\ gameScript r = None
            /\ (filled ready ->
                rejection_probe (u16 "Sure! Here is your game.") = None ->
                handleGenerate (Normal (u16 "Sure! Here is your game.")) ready
                = (setIsGenerating false
                     (setError
                        (Some (e ++ raw_output_label
                                 ++ u16 "Sure! Here is your game."))
                        (setGameScript None (setGameData None
                           (setError None (setIsGenerating true ready))))),
                   Finished))
            /\ handleFileSelected_onload (Some (u16 "Sure! Here is your game."))
                 ready
               = (setError (Some (u16 "Import Error: " ++ e))
                    (setGameScript None (setGameData None
                       (setError None ready))),
                  Finished).
Proof.
  assert (H : ~ preamble_null (u16 "Sure! Here is your game.")).
  { intros [i [Hi _]]. vm_compute in Hi. discriminate. }
  split; [exact H|].
  exact (parse_failure_reporting (u16 "Sure! Here is your game.") ready H).
Defined.

(** The claim C4 fails as stated on the file-import path: the message shown
    for a malformed file does not carry the text of the file; and a file
    whose preamble is the JSON value null ends the callback with an
    exception that nothing catches. *)
Lemma import_error_without_raw_text :
  (exists e,
     s_error (fst (handleFileSelected_onload
                     (Some (u16 "Sure! Here is your game.")) ready))
     = Some e
     /\ e = u16 "Import Error: Parsing Error: '%%BEGINCODE%%' separator not found."
     /\ ~ contains e (u16 "Sure! Here is your game."))
  /\ snd (handleFileSelected_onload (Some (u16 "null%%BEGINCODE%%")) ready)
     = Uncaught
         (TypeError (u16 "Cannot read properties of null (reading 'title')")).
Proof.
  split.
  - eexists. split; [reflexivity|]. split; [reflexivity|].
    apply not_contains. reflexivity.
  - vm_compute. reflexivity.
Qed.

(** C1 (as amended): when the whole trimmed response is a JSON object whose
    field rejection is true and whose field reason is a non-empty string,
    such as the document with rejection true and reason No audio support,
    the generation flow stops with the rejection notice that carries this
    reason, and loads neither descriptor nor script.  Only the field
    rejection is accepted: an object without it is not a rejection. *)
Theorem rejection_notice :
  (forall raw st fields reason,
      filled st ->
      JSON_parse (Str.trim raw) = Normal (JObj fields) ->
      lookup (u16 "rejection") fields = Some (JBool true) ->
      lookup (u16 "reason") fields = Some (JStr reason) ->
      reason <> [] ->
      handleGenerate (Normal raw) st
      = (setIsGenerating false (setIsGenerating false
           (setError (Some (u16 "AI Rejection: " ++ reason))
              (setGameScript None (setGameData None
                 (setError None (setIsGenerating true st)))))),
         Finished))
  /\
  (forall raw fields,
      JSON_parse (Str.trim raw) = Normal (JObj fields) ->
      lookup (u16 "rejection") fields = None ->
      rejection_probe raw = None).
Proof.
  split.
  - intros raw st fields reason Hf Hp Hrej Hreason Hne.
    rewrite (handleGenerate_filled _ _ Hf). cbv zeta.
    unfold rejection_probe. rewrite Hp. cbn [truthy prop].
    rewrite Hrej, Hreason.
    destruct reason as [|c reason]; [congruence|]. reflexivity.
  - intros raw fields Hp Hrej. unfold rejection_probe.
    rewrite Hp. cbn [truthy prop]. now rewrite Hrej.
Qed.

Definition rejection_document : str :=
  jq "{'rejection': true, 'reason': 'No audio support'}".

Lemma rejection_notice_witness :
  filled ready
  /\ handleGenerate (Normal rejection_document) ready
     = (setIsGenerating false (setIsGenerating false
          (setError (Some (u16 "AI Rejection: No audio support"))
             (setGameScript None (setGameData None
                (setError None (setIsGenerating true ready)))))),
        Finished).
Proof.
  split; [exact ready_filled|].
  apply (proj1 rejection_notice rejection_document ready
           [(u16 "rejection", JBool true);
            (u16 "reason", JStr (u16 "No audio support"))]
           (u16 "No audio support")).
  - exact ready_filled.
  - vm_compute. reflexivity.
  - reflexivity.
  - reflexivity.
  - discriminate.
Defined.

(** The claim C1 fails as stated: the document with the field rejected is
    not taken as a rejection; the flow reports that the separator is
    missing. *)
Lemma rejected_field_not_accepted :
  let raw := jq "{'rejected': true, 'reason': 'No audio support'}" in
  rejection_probe raw = None
  /\ s_error (fst (handleGenerate (Normal raw) ready))
     = Some (separator_not_found ++ raw_output_label ++ raw)
  /\ s_error (fst (handleGenerate (Normal raw) ready))
     <> Some (u16 "AI Rejection: No audio support").
Proof.
  cbv zeta. split; [vm_compute; reflexivity|].
  split; [vm_compute; reflexivity|].
  vm_compute. discriminate.
Qed.

(** ** Export and import *)

Module RoundTrip.
Import Str.

Lemma contains_cons (c : N) (a p : str) :
  ~ In c p -> p <> [] -> contains (c :: a) p -> contains a p.
Proof.
  intros Hc Hp [x [y H]]. destruct x as [|x0 x].
  - destruct p as [|p0 p]; [congruence|]. simpl in H.
    injection H as -> _. exfalso. apply Hc. now left.
  - simpl in H. injection H as _ ->. now exists x, y.
Qed.

Lemma contains_snoc (c : N) (a p : str) :
  ~ In c p -> p <> [] -> contains (a ++ [c]) p -> contains a p.
Proof.
  intros Hc Hp [x [y H]].
  destruct (exists_last Hp) as [p' [p1 ->]].
  destruct y as [|y0 y] using rev_ind.
  - rewrite app_nil_r, app_assoc in H. apply app_inj_tail in H as [_ ->].
    exfalso. apply Hc. apply in_or_app. right. now left.
  - clear IHy. rewrite !app_assoc in H. apply app_inj_tail in H as [-> _].
    exists x, y. now rewrite <- !app_assoc.
Qed.

(** The first occurrence of [p] in a text that continues, after a part
    [a] without [p], with a character foreign to [p] and then [p]. *)
Lemma indexOf_after (a p b : str) (c : N) :
  ~ In c p -> p <> [] -> ~ contains a p ->
  indexOf (a ++ c :: p ++ b) p = Some (S (List.length a)).
Proof.
  intros Hc Hp. induction a as [|x a IH]; intros Ha.
  - cbn [app List.length indexOf].
    destruct (startsWith (c :: p ++ b) p) eqn:E.
    + apply StrFacts.startsWith_inv in E as [r E].
      destruct p as [|p0 p]; [congruence|]. injection E as <- _.
      exfalso. apply Hc. now left.
    + destruct p as [|p0 p]; [congruence|].
      cbn [app indexOf].
      change (p0 :: p ++ b) with ((p0 :: p) ++ b).
      now rewrite StrFacts.startsWith_app.
  - cbn [app List.length indexOf].
    destruct (startsWith (x :: a ++ c :: p ++ b) p) eqn:E.
    + exfalso. apply StrFacts.startsWith_inv in E as [r E].
      change (x :: a ++ c :: p ++ b) with ((x :: a) ++ c :: p ++ b) in E.
      apply app_eq_app in E as [l [[E1 E2]|[E1 E2]]].
      * apply Ha. exists [], l. exact E1.
      * destruct l as [|l0 l].
        -- rewrite app_nil_r in E1. subst p. apply Ha.
           exists [], []. now rewrite app_nil_r.
        -- injection E2 as <- _. apply Hc. rewrite E1.
           apply in_or_app. right. now left.
    + rewrite IH; [reflexivity|].
      intros [u [v H]]. apply Ha. exists (x :: u), v. simpl. now f_equal.
Qed.

Lemma trimStart_app_blank (w s : str) :
  forallb is_white_space w = true -> trimStart (w ++ s) = trimStart s.
Proof.
  induction w as [|c w IH]; [reflexivity|]. simpl.
  intros H. apply andb_true_iff in H as [Hc Hw]. rewrite Hc. now apply IH.
Qed.

Lemma trimEnd_snoc (s : str) (c : N) :
  is_white_space c = true -> trimEnd (s ++ [c]) = trimEnd s.
Proof.
  intros Hc. unfold trimEnd. rewrite rev_app_distr. simpl. now rewrite Hc.
Qed.

Lemma trimStart_solid (c : N) (s : str) :
  is_white_space c = false -> trimStart (c :: s) = c :: s.
Proof. intros H. simpl. now rewrite H. Qed.

Lemma trimEnd_solid (s : str) (c : N) :
  is_white_space c = false -> trimEnd (s ++ [c]) = s ++ [c].
Proof.
  intros H. unfold trimEnd. rewrite rev_app_distr. simpl. rewrite H.
  simpl. now rewrite rev_involutive.
Qed.

Lemma trim_snoc (s : str) (c : N) :
  is_white_space c = true -> trim (s ++ [c]) = trim s.
Proof.
  intros Hc. unfold trim.
  destruct (StrFacts.trimStart_suffix s) as [w [Hs Hw]].
  destruct (trimStart s) as [|t0 t] eqn:Et.
  - rewrite app_nil_r in Hs. subst w.
    rewrite (StrFacts.trimStart_blank (s ++ [c])); [reflexivity|].
    rewrite forallb_app, Hw. simpl. now rewrite Hc.
  - rewrite Hs at 1. rewrite <- app_assoc, (trimStart_app_blank _ _ Hw).
    assert (H0 : is_white_space t0 = false).
    { destruct (is_white_space t0) eqn:E0; [|reflexivity].
      exfalso. clear - Et E0.
      induction s as [|x s IH]; [discriminate|]. simpl in Et.
      destruct (is_white_space x) eqn:Ex; [auto|].
      injection Et as -> _. congruence. }
    change ((t0 :: t) ++ [c]) with (t0 :: (t ++ [c])).
    rewrite (trimStart_solid _ _ H0).
    change (t0 :: (t ++ [c])) with ((t0 :: t) ++ [c]).
    now apply trimEnd_snoc.
Qed.

Lemma trim_cons (c : N) (s : str) :
  is_white_space c = true -> trim (c :: s) = trim s.
Proof. intros Hc. unfold trim. simpl. now rewrite Hc. Qed.

(** Case-insensitive search is search in the lower-case forms. *)
Lemma startsWith_ci_lower (s p : str) :
  startsWith_ci s p = startsWith (List.map lower s) (List.map lower p).
Proof.
  revert s. induction p as [|a p IH]; intros s; [reflexivity|].
  destruct s as [|b s]; [reflexivity|]. simpl. now rewrite IH.
Qed.

Lemma indexOf_ci_lower (s p : str) :
  indexOf_ci s p = indexOf (List.map lower s) (List.map lower p).
Proof.
  induction s as [|c s IH].
  - simpl. now rewrite startsWith_ci_lower.
  - cbn [indexOf_ci List.map indexOf].
    rewrite startsWith_ci_lower, IH. reflexivity.
Qed.

End RoundTrip.

Module ExportFacts.
Import Str RoundTrip.

(** The serialization of a valid descriptor is an object text: it starts
    with an opening brace and ends with a closing brace. *)
Lemma stringify_object_shape (d : json) :
  descriptor_ok d = true ->
  exists body, JSON_stringify_2 d = 123 :: body ++ [125].
Proof.
  intros Hok. destruct d; try discriminate.
  destruct fields as [|f fields]; [discriminate|].
  unfold JSON_stringify_2. cbn [Stringify.value].
  change (u16 "  ") with [32; 32]. cbv iota. change (u16 "{") with [123].
  change (u16 "}") with [125]. cbn [app].
  match goal with
  | |- exists body, 123 :: 10 :: 32 :: 32 :: ?j ++ [10; 125] = _ =>
      exists (10 :: 32 :: 32 :: j ++ [10])
  end.
  cbn [app]. now rewrite <- app_assoc.
Qed.

Lemma firstn_exact (a b : str) : firstn (List.length a) (a ++ b) = a.
Proof. now rewrite firstn_app, Nat.sub_diag, firstn_all, app_nil_r. Qed.

Lemma skipn_exact (a b : str) : skipn (List.length a) (a ++ b) = b.
Proof. now rewrite skipn_app, Nat.sub_diag, skipn_all. Qed.

Lemma not_contains_indexOf (s p : str) :
  ~ contains s p -> indexOf s p = None.
Proof.
  intros H. destruct (indexOf s p) eqn:E; [|reflexivity].
  exfalso. apply H. eapply indexOf_contains; eassumption.
Qed.

(** The preamble of an exported file, a serialized descriptor and a line
    feed, is cleaned to the serialized descriptor. *)
Lemma cleaned_export (J body : str) :
  J = 123 :: body ++ [125] ->
  ~ contains J (fence ++ u16 "json") ->
  cleanedJsonString (J ++ [10]) = J.
Proof.
  intros HJ Hf. unfold cleanedJsonString.
  assert (Ho : strip_fence_open (J ++ [10]) = J ++ [10]).
  { unfold strip_fence_open. rewrite not_contains_indexOf; [reflexivity|].
    intros H. apply Hf. revert H. apply contains_snoc.
    - cbv. intuition discriminate.
    - discriminate. }
  rewrite Ho.
  assert (Hc : strip_fence_close (J ++ [10]) = J ++ [10]).
  { unfold strip_fence_close, endsWith. rewrite HJ.
    change ((123 :: body ++ [125]) ++ [10])
      with (123 :: (body ++ [125]) ++ [10]).
    cbn [rev]. rewrite !rev_app_distr. reflexivity. }
  rewrite Hc. unfold trim. rewrite HJ.
  change ((123 :: body ++ [125]) ++ [10]) with (123 :: (body ++ [125]) ++ [10]).
  rewrite trimStart_solid by reflexivity.
  change (123 :: (body ++ [125]) ++ [10])
    with ((123 :: body ++ [125]) ++ [10]).
  rewrite trimEnd_snoc by reflexivity.
  change (123 :: body ++ [125]) with ((123 :: body) ++ [125]).
  now rewrite trimEnd_solid.
Qed.

End ExportFacts.

(** [contains_ci s p]: the text [p] occurs in [s], letter case apart. *)
Definition contains_ci (s p : str) : Prop :=
  contains (List.map Str.lower s) (List.map Str.lower p).

(** The text of an exported file. *)
Definition exported (d : json) (script : str) : str :=
  JSON_stringify_2 d ++ [10] ++ codeSeparator ++ [10]
    ++ script ++ [10] ++ endSeparator.

Module ImportFacts.
Import Str RoundTrip ExportFacts.

Lemma no_tag (script tag : str) :
  ~ In 10 (List.map lower tag) -> tag <> [] ->
  ~ contains_ci script tag ->
  indexOf_ci (10 :: script ++ [10]) tag = None.
Proof.
  intros H10 Htag Hc. rewrite indexOf_ci_lower.
  apply not_contains_indexOf. intros H. apply Hc. unfold contains_ci.
  assert (Hne : List.map lower tag <> []) by (destruct tag; [congruence | discriminate]).
  cbn [List.map] in H. rewrite map_app in H. cbn [List.map] in H.
  change (lower 10) with 10 in H.
  apply (contains_cons 10 _ _ H10 Hne) in H.
  now apply (contains_snoc 10 _ _ H10 Hne) in H.
Qed.

(** The script region of an exported file gives back the script,
    trimmed. *)
Lemma script_region (script : str) :
  ~ contains script endSeparator ->
  ~ contains_ci script (u16 "<script") ->
  ~ contains_ci script (u16 "</script>") ->
  let region := 10 :: script ++ 10 :: endSeparator in
  trim (strip_script_close (strip_script_open
          match indexOf region endSeparator with
          | Some k => substring_to region k
          | None => region
          end))
  = trim script.
Proof.
  intros Hend Hopen Hclose region.
  assert (Hi : indexOf region endSeparator
               = Some (S (List.length (10 :: script)))).
  { unfold region. rewrite <- (app_nil_r endSeparator).
    change (10 :: script ++ 10 :: endSeparator ++ [])
      with ((10 :: script) ++ 10 :: endSeparator ++ []).
    apply indexOf_after.
    - cbv. intuition discriminate.
    - discriminate.
    - intros H. apply Hend. revert H. apply contains_cons.
      + cbv. intuition discriminate.
      + discriminate. }
  rewrite Hi. unfold substring_to, region.
  replace (firstn (S (List.length (10 :: script)))
             (10 :: script ++ 10 :: endSeparator))
    with (10 :: script ++ [10]).
  2:{ change (10 :: script ++ 10 :: endSeparator)
        with ((10 :: script) ++ [10] ++ endSeparator).
      rewrite app_assoc.
      replace (S (List.length (10 :: script)))
        with (List.length ((10 :: script) ++ [10]))
        by (rewrite length_app; simpl; lia).
      now rewrite firstn_exact. }
  unfold strip_script_open.
  rewrite no_tag; [|cbv; intuition discriminate|discriminate|exact Hopen].
  unfold strip_script_close.
  rewrite no_tag; [|cbv; intuition discriminate|discriminate|exact Hclose].
  rewrite trim_cons by reflexivity. now apply trim_snoc.
Qed.

End ImportFacts.

(** C3 (as amended): a descriptor and a script that are exported and read
    back give the same descriptor and the script without its surrounding
    white space, provided that the descriptor is valid, has a title that is
    a string (the file is named from it before anything is written) and is
    serializable (strings, booleans, null, arrays and objects with distinct
    keys that are not array indices), that its serialized text contains
    neither the begin marker nor an opening json fence, and that the script
    is not empty and contains neither the end marker nor an opening or
    closing script tag in any letter case.  The export is the handler with
    the step that names the file, for any lower-case mapping. *)
Theorem export_import_roundtrip (toLowerCase : str -> str) (st : AppState)
    (d : json) (title script : str) :
  s_gameData st = Some d ->
  s_gameScript st = Some script ->
  script <> [] ->
  descriptor_ok d = true ->
  field d (u16 "title") = Some (JStr title) ->
  JsonRoundTrip.serializable d = true ->
  ~ contains (JSON_stringify_2 d) codeSeparator ->
  ~ contains (JSON_stringify_2 d) (fence ++ u16 "json") ->
  ~ contains script endSeparator ->
  ~ contains_ci script (u16 "<script") ->
  ~ contains_ci script (u16 "</script>") ->
  ExportFile.handleExport toLowerCase st
  = Normal (Some (ExportFile.fileName toLowerCase title, exported d script))
  /\ parseAiOutput (exported d script)
     = Normal {| gameData := Some d;
                 gameScript := Some (Str.trim script);
                 error := None |}.
Proof.
  intros Hd Hs Hne Hok Htitle Hser Hsep Hfence Hend Hopen Hclose.
  pose proof (JsonRoundTrip.JSON_roundtrip d Hser) as Hjson. split.
  { unfold ExportFile.handleExport. rewrite Hd, Hs.
    destruct script as [|c script]; [congruence|].
    destruct d; try discriminate Htitle.
    cbn [field] in Htitle. cbn [prop bind]. now rewrite Htitle. }
  destruct (ExportFacts.stringify_object_shape d Hok) as [body HJ].
  set (J := JSON_stringify_2 d) in *.
  assert (Hi : Str.indexOf (exported d script) codeSeparator
               = Some (S (List.length J))).
  { unfold exported. fold J.
    change (J ++ [10] ++ codeSeparator ++ [10] ++ script ++ [10] ++ endSeparator)
      with (J ++ 10 :: codeSeparator ++ ([10] ++ script ++ [10] ++ endSeparator)).
    apply RoundTrip.indexOf_after;
      [cbv; intuition discriminate | discriminate | exact Hsep]. }
  unfold parseAiOutput.
  destruct (Str.trim (exported d script)) eqn:Et.
  { apply StrFacts.trim_nil_inv in Et.
    rewrite (separator_not_blank _ _ Hi) in Et. discriminate. }
  rewrite Hi. cbv zeta.
  assert (Hpre : Str.substring_to (exported d script) (S (List.length J))
                 = J ++ [10]).
  { unfold Str.substring_to, exported. fold J.
    replace (S (List.length J)) with (List.length (J ++ [10]))
      by (rewrite length_app; simpl; lia).
    rewrite app_assoc. apply ExportFacts.firstn_exact. }
  rewrite Hpre, (ExportFacts.cleaned_export J body HJ Hfence).
  rewrite Hjson.
  rewrite required_fields_missing_spec
    by (intros ->; discriminate).
  rewrite Hok. cbn [negb bind]. do 3 f_equal.
  unfold extractScript, Str.substring_from.
  replace (skipn (S (List.length J) + List.length codeSeparator)
             (exported d script))
    with (10 :: script ++ 10 :: endSeparator).
  - now apply ImportFacts.script_region.
  - unfold exported. fold J.
    replace (S (List.length J) + List.length codeSeparator)%nat
      with (List.length (J ++ [10] ++ codeSeparator))
      by (rewrite !length_app; simpl; lia).
    replace (J ++ [10] ++ codeSeparator ++ [10] ++ script ++ [10] ++ endSeparator)
      with ((J ++ [10] ++ codeSeparator) ++ 10 :: script ++ 10 :: endSeparator)
      by (now rewrite <- !app_assoc).
    now rewrite ExportFacts.skipn_exact.
Qed.

(** A descriptor and a state that holds it with a script.  The title is
    made of ASCII letters and a space: its lower case is the ASCII one. *)
Definition match_game : json :=
  JObj [(u16 "title", JStr (u16 "Match Game"));
        (u16 "description", JStr (u16 "Match pairs."));
        (u16 "target_lang", JStr (u16 "es"));
        (u16 "comf_language", JStr (u16 "en"));
        (u16 "labels",
         JStr (u16 "Language/Idioma, Play/Jugar, How to Play/Reglas, Settings/Ajustes, Date/Fecha, by/de, Made with/Hecho con"));
        (u16 "how_to_play", JArr [JStr (u16 "Click a card")])].

Definition loaded (script : str) : AppState :=
  setGameScript (Some script) (setGameData (Some match_game) ready).

Definition plain_script : str :=
  [10] ++ u16 "  window.addEventListener('gameStart', function () { start(); });"
  ++ [10].

Lemma export_import_roundtrip_witness :
  s_gameData (loaded plain_script) = Some match_game
  /\ s_gameScript (loaded plain_script) = Some plain_script
  /\ descriptor_ok match_game = true
  /\ field match_game (u16 "title") = Some (JStr (u16 "Match Game"))
  /\ JsonRoundTrip.serializable match_game = true
  /\ ExportFile.handleExport (List.map Str.lower) (loaded plain_script)
     = Normal (Some (ExportFile.fileName (List.map Str.lower)
                       (u16 "Match Game"),
                     exported match_game plain_script))
  /\ parseAiOutput (exported match_game plain_script)
     = Normal {| gameData := Some match_game;
                 gameScript :=
                   Some (u16 "window.addEventListener('gameStart', function () { start(); });");
                 error := None |}.
Proof.
  split; [reflexivity|]. split; [reflexivity|]. split; [reflexivity|].
  split; [reflexivity|]. split; [reflexivity|].
  apply (export_import_roundtrip (List.map Str.lower) (loaded plain_script)
           match_game (u16 "Match Game") plain_script).
  - reflexivity.
  - reflexivity.
  - discriminate.
  - reflexivity.
  - reflexivity.
  - reflexivity.
  - apply not_contains. vm_compute. reflexivity.
  - apply not_contains. vm_compute. reflexivity.
  - apply not_contains. vm_compute. reflexivity.
  - apply not_contains. vm_compute. reflexivity.
  - apply not_contains. vm_compute. reflexivity.
Defined.

(** A script that compares with the length of a variable named script. *)
Definition loop_script : str :=
  u16 "for (var i = 0; i<script.length; i++) { if (x>0) run(); }".

(** The claim C3 fails as stated: the script read back from the exported
    file is not the exported script. *)
Lemma export_import_changes_script :
  ExportFile.handleExport (List.map Str.lower) (loaded loop_script)
  = Normal (Some (u16 "match-game.txt", exported match_game loop_script))
  /\ parseAiOutput (exported match_game loop_script)
     = Normal {| gameData := Some match_game;
                 gameScript := Some (u16 "for (var i = 0; i0) run(); }");
                 error := None |}
  /\ u16 "for (var i = 0; i0) run(); }" <> Str.trim loop_script.
Proof.
  split; [reflexivity|]. split; [vm_compute; reflexivity|].
  vm_compute. discriminate.
Qed.

(** ** The label decoder *)

(** C8: for every labels string that splits into fewer than seven entries at
    its commas, the decoder yields the built-in default table, whatever the
    entries are; no table is built from a part of the entries. *)
Theorem labels_fallback (data : option json) (labels : str) :
  Template.labels_of data = Some (JStr labels) ->
  (List.length (Str.split labels (u16 ",")) < 7)%nat ->
  Template.translationsObject data = Template.default_translations.
Proof.
  intros Hl Hlen. unfold Template.translationsObject. rewrite Hl.
  destruct (truthy (Some (JStr labels))); [|reflexivity].
  unfold Template.pairs_of. rewrite length_map.
  replace (List.length Template.keys) with 7%nat by reflexivity.
  destruct (Nat.leb_spec 7 (List.length (Str.split labels (u16 ",")))) as [H|H];
    [lia | reflexivity].
Qed.

Definition six_labels : json :=
  JObj [(u16 "title", JStr (u16 "Match Game"));
        (u16 "labels",
         JStr (u16 "Language/Idioma, Play/Jugar, How to Play/Reglas, Settings/Ajustes, Date/Fecha, by/de"))].

Lemma labels_fallback_witness :
  Template.labels_of (Some six_labels)
  = Some (JStr (u16 "Language/Idioma, Play/Jugar, How to Play/Reglas, Settings/Ajustes, Date/Fecha, by/de"))
  /\ (List.length
        (Str.split (u16 "Language/Idioma, Play/Jugar, How to Play/Reglas, Settings/Ajustes, Date/Fecha, by/de")
           (u16 ",")) < 7)%nat
  /\ Template.translationsObject (Some six_labels)
     = Template.default_translations.
Proof.
  split; [reflexivity|]. split; [vm_compute; lia|].
  apply (labels_fallback (Some six_labels)
           (u16 "Language/Idioma, Play/Jugar, How to Play/Reglas, Settings/Ajustes, Date/Fecha, by/de")).
  - reflexivity.
  - vm_compute. lia.
Defined.

(** ** The parameter coercion *)

Module AnalyzeFacts.
Import Analyze.

(** A text that starts with an apostrophe is not JSON. *)
Lemma JSON_parse_apostrophe (r : str) :
  exists e, JSON_parse (39 :: r) = Throw e.
Proof.
  unfold JSON_parse.
  destruct (2 * List.length _ + 2)%nat as [|f] eqn:E; [lia|].
  cbn. eexists. reflexivity.
Qed.

Lemma single_quoted_inv (s : str) :
  single_quoted s = true -> exists r, s = 39 :: r.
Proof.
  unfold single_quoted. intros H. apply andb_true_iff in H as [H _].
  destruct s as [|c s]; [discriminate|]. cbn [Str.startsWith] in H.
  rewrite andb_true_r in H. apply N.eqb_eq in H. subst c. now exists s.
Qed.

(** A character that a string literal holds as it is, or after the
    escape of a double quote. *)
Definition plain (c : N) : Prop := 32 <= c /\ c <> 92.

Lemma parse_chars_escaped (t rest : str) :
  Forall plain t ->
  Json.parse_chars (Str.escape_double_quotes t ++ 34 :: rest)
  = Json.POk t rest.
Proof.
  induction 1 as [|c t [Hc1 Hc2] _ IH]; [reflexivity|].
  cbn [Str.escape_double_quotes].
  destruct (c =? 34) eqn:E34.
  - apply N.eqb_eq in E34. subst c.
    cbn [app]. cbn [Json.parse_chars]. cbn.
    cbn in IH. rewrite IH. reflexivity.
  - cbn [app Json.parse_chars]. rewrite E34.
    destruct (c =? 92) eqn:E92; [apply N.eqb_eq in E92; congruence|].
    destruct (c <? 32) eqn:E32; [apply N.ltb_lt in E32; lia|].
    rewrite IH. reflexivity.
Qed.

Lemma JSON_parse_string (t : str) :
  Forall plain t ->
  JSON_parse (34 :: Str.escape_double_quotes t ++ [34]) = Normal (JStr t).
Proof.
  intros Ht. unfold JSON_parse.
  destruct (2 * List.length _ + 2)%nat as [|f] eqn:E; [lia|].
  cbn [Json.parse_value Json.skip_ws Json.is_ws N.eqb Pos.eqb orb].
  cbn [Json.lift]. rewrite (parse_chars_escaped t [] Ht). reflexivity.
Qed.

Lemma single_quoted_wrap (t : str) : single_quoted (39 :: t ++ [39]) = true.
Proof.
  unfold single_quoted, Str.endsWith. cbn [Str.startsWith rev].
  rewrite rev_app_distr. reflexivity.
Qed.

Lemma slice_wrap (t : str) : Str.slice_1_m1 (39 :: t ++ [39]) = t.
Proof. unfold Str.slice_1_m1. cbn [tl]. apply removelast_last. Qed.

End AnalyzeFacts.

(** The coercion as the specification words it: a strict parse; for a text
    between single quotes that fails, the parse of the text rewritten between
    double quotes; the text itself as a string when this fails too. *)
Definition coercion_spec (text : str) : json :=
  match JSON_parse text with
  | Normal v => v
  | Throw _ =>
      if Analyze.single_quoted text then
        match JSON_parse (Analyze.rewrap text) with
        | Normal v => v
        | Throw _ => JStr text
        end
      else JStr text
  end.

Definition quoted (t : str) : str := 39 :: t ++ [39].

Definition raw_parameter (text : str) : Analyze.RawParameter :=
  {| Analyze.name := u16 "greeting";
     Analyze.description := u16 "The greeting shown at the start.";
     Analyze.type := u16 "string";
     Analyze.value := text |}.

(** C9: the coercion of a parameter value never raises, for one parameter
    and for a whole batch; its result is the one the specification words
    (strict parse, rewriting of a single-quoted text, the text itself as the
    last resort); and a single-quoted text of plain characters, such as
    'hello', gives the string between the quotes. *)
Theorem coercion_total :
  (forall p, Analyze.parsedValue p = Normal (coercion_spec (Analyze.value p)))
  /\ (forall params,
        Analyze.parsedParams params
        = Normal (List.map
                    (fun p =>
                       {| Analyze.name := Analyze.name p;
                          Analyze.description := Analyze.description p;
                          Analyze.type :=
                            Analyze.finalType (Analyze.type p)
                              (coercion_spec (Analyze.value p));
                          Analyze.value := coercion_spec (Analyze.value p) |})
                    params))
  /\ (forall p t,
        Forall AnalyzeFacts.plain t -> Analyze.value p = quoted t ->
        Analyze.parsedValue p = Normal (JStr t))
  /\ Analyze.parsedValue (raw_parameter (u16 "'hello'"))
     = Normal (JStr (u16 "hello")).
Proof.
  assert (H1 : forall p,
             Analyze.parsedValue p = Normal (coercion_spec (Analyze.value p))).
  { intros p. unfold Analyze.parsedValue, coercion_spec, try_catch.
    destruct (Analyze.single_quoted (Analyze.value p)) eqn:Eq.
    - destruct (AnalyzeFacts.single_quoted_inv _ Eq) as [r Hr].
      destruct (AnalyzeFacts.JSON_parse_apostrophe r) as [e He].
      rewrite Hr at 2. rewrite He.
      now destruct (JSON_parse (Analyze.rewrap (Analyze.value p))).
    - now destruct (JSON_parse (Analyze.value p)). }
  split; [exact H1|]. split; [|split].
  - induction params as [|p params IH]; [reflexivity|].
    cbn [Analyze.parsedParams List.map]. unfold Analyze.coerce.
    rewrite H1. cbn [bind]. rewrite IH. reflexivity.
  - intros p t Ht Hp. unfold Analyze.parsedValue, try_catch. rewrite Hp.
    unfold quoted. rewrite AnalyzeFacts.single_quoted_wrap.
    unfold Analyze.rewrap. rewrite AnalyzeFacts.slice_wrap.
    cbn [app]. now rewrite (AnalyzeFacts.JSON_parse_string t Ht).
  - vm_compute. reflexivity.
Qed.

Lemma coercion_total_witness :
  Forall AnalyzeFacts.plain (u16 "hello")
  /\ Analyze.value (raw_parameter (u16 "'hello'")) = quoted (u16 "hello")
  /\ Analyze.parsedValue (raw_parameter (u16 "'hello'"))
     = Normal (JStr (u16 "hello")).
Proof.
  assert (H : Forall AnalyzeFacts.plain (u16 "hello")).
  { repeat constructor; unfold AnalyzeFacts.plain; cbn; lia || discriminate. }
  split; [exact H|]. split; [reflexivity|].
  exact (proj1 (proj2 (proj2 coercion_total))
           (raw_parameter (u16 "'hello'")) (u16 "hello") H eq_refl).
Defined.

(** ** The idea splitter *)

Module ChatFacts.
Import Chat.

Lemma split_go_nonempty (sep s : str) (skip : nat) (cur : str) :
  Str.split_go sep s skip cur <> [].
Proof.
  revert skip cur. induction s as [|c s IH]; intros skip cur; simpl.
  - discriminate.
  - destruct skip; [|apply IH].
    destruct (Str.startsWith (c :: s) sep); [discriminate | apply IH].
Qed.

(** What a part that is not the last one renders to. *)
Definition inner_part (part : str) : option BodyPart :=
  Some {| text := part;
          ideaButton := if nonempty (ideaText part)
                        then Some (ideaText part) else None |}.

(** What the last part renders to. *)
Definition last_part (part : str) : option BodyPart :=
  if is_blank part then None
  else Some {| text := part; ideaButton := None |}.

Lemma renderPart_inner (part : str) : renderPart false part = inner_part part.
Proof.
  unfold renderPart, inner_part. now rewrite andb_false_r.
Qed.

Lemma renderPart_last (part : str) : renderPart true part = last_part part.
Proof.
  unfold renderPart, last_part. now rewrite andb_true_r.
Qed.

Lemma renderParts_shape (parts : list str) :
  parts <> [] ->
  renderParts parts
  = List.map inner_part (removelast parts) ++ [last_part (last parts [])].
Proof.
  induction parts as [|p parts IH]; [congruence|]. intros _.
  destruct parts as [|q parts].
  - simpl. now rewrite renderPart_last.
  - change (renderParts (p :: q :: parts))
      with (renderPart false p :: renderParts (q :: parts)).
    rewrite IH by discriminate. now rewrite renderPart_inner.
Qed.

Definition button_of (r : option BodyPart) : list str :=
  match r with
  | Some {| ideaButton := Some idea |} => [idea]
  | _ => []
  end.

Lemma offers_inner (parts : list str) :
  flat_map button_of (List.map inner_part parts)
  = filter nonempty (List.map ideaText parts).
Proof.
  induction parts as [|p parts IH]; [reflexivity|].
  simpl. rewrite IH. now destruct (nonempty (ideaText p)).
Qed.

Lemma offers_last (part : str) : button_of (last_part part) = [].
Proof. unfold last_part. now destruct (is_blank part). Qed.

(** A text that is empty or starts with a character that is not a digit. *)
Definition solid_after (s : str) : Prop :=
  match s with
  | [] => True
  | c :: _ => Str.is_digit c = false
  end.

(** A text that is empty or starts with a character that is not white
    space. *)
Definition solid (s : str) : Prop :=
  match s with
  | [] => True
  | c :: _ => Str.is_white_space c = false
  end.

Lemma trimStart_blank_solid (w s : str) :
  forallb Str.is_white_space w = true -> solid s -> Str.trimStart (w ++ s) = s.
Proof.
  intros Hw Hs. rewrite RoundTrip.trimStart_app_blank by exact Hw.
  destruct s as [|c s]; [reflexivity|]. now apply RoundTrip.trimStart_solid.
Qed.

(** A bullet, a star or a dash, is removed with the white space around
    it. *)
Lemma strip_bullet (w1 w2 s : str) (c : N) :
  c = 42 \/ c = 45 ->
  forallb Str.is_white_space w1 = true ->
  forallb Str.is_white_space w2 = true -> solid s ->
  strip_list_marker (w1 ++ c :: w2 ++ s) = s.
Proof.
  intros Hc H1 H2 Hs. unfold strip_list_marker.
  rewrite (trimStart_blank_solid w1 (c :: w2 ++ s) H1)
    by (destruct Hc; subst c; reflexivity).
  replace ((c =? 42) || (c =? 45)) with true
    by (destruct Hc; subst c; reflexivity).
  now apply trimStart_blank_solid.
Qed.

Lemma span_digits_all (ds rest : str) :
  forallb Str.is_digit ds = true -> solid_after rest ->
  Json.span_digits (ds ++ rest) = (ds, rest).
Proof.
  intros Hd Hr. induction ds as [|d ds IH]; cbn [app].
  - destruct rest as [|c rest]; [reflexivity|]. cbn [Json.span_digits].
    now rewrite Hr.
  - cbn [forallb] in Hd. apply andb_true_iff in Hd as [Hd Hds].
    cbn [Json.span_digits]. now rewrite Hd, (IH Hds).
Qed.

(** An ordinal, digits and a point, is removed with the white space around
    it. *)
Lemma strip_ordinal (w1 w2 s ds : str) :
  ds <> [] -> forallb Str.is_digit ds = true ->
  forallb Str.is_white_space w1 = true ->
  forallb Str.is_white_space w2 = true -> solid s ->
  strip_list_marker (w1 ++ ds ++ 46 :: w2 ++ s) = s.
Proof.
  intros Hne Hd H1 H2 Hs. unfold strip_list_marker.
  destruct ds as [|d ds]; [congruence|]. cbn [app].
  cbn [forallb] in Hd. pose proof Hd as Hd'.
  apply andb_true_iff in Hd' as [Hd0 _].
  assert (Hdw : Str.is_white_space d = false).
  { unfold Str.is_digit in Hd0. apply andb_true_iff in Hd0 as [Ha Hb].
    apply N.leb_le in Ha, Hb. unfold Str.is_white_space.
    repeat (apply orb_false_iff; split);
      try (apply N.eqb_neq; lia).
    apply andb_false_iff. left. apply N.leb_gt. lia. }
  rewrite (trimStart_blank_solid w1 (d :: ds ++ 46 :: w2 ++ s) H1) by exact Hdw.
  assert (Hb : (d =? 42) || (d =? 45) = false).
  { unfold Str.is_digit in Hd0. apply andb_true_iff in Hd0 as [Ha Hb].
    apply N.leb_le in Ha, Hb.
    apply orb_false_iff; split; apply N.eqb_neq; lia. }
  rewrite Hb, Hd0.
  change (d :: ds ++ 46 :: w2 ++ s) with ((d :: ds) ++ 46 :: w2 ++ s).
  rewrite span_digits_all; [|exact Hd|reflexivity]. cbn [snd].
  now apply trimStart_blank_solid.
Qed.

(** A text that starts with neither a bullet nor a digit is left as it
    is. *)
Lemma strip_none (s : str) (c : N) :
  Str.is_white_space c = false -> c <> 42 -> c <> 45 ->
  Str.is_digit c = false ->
  strip_list_marker (c :: s) = c :: s.
Proof.
  intros Hw H42 H45 Hd. unfold strip_list_marker.
  rewrite RoundTrip.trimStart_solid by exact Hw.
  apply N.eqb_neq in H42, H45. now rewrite H42, H45, Hd.
Qed.

End ChatFacts.

(** The body of the example of the specification; 10 is the line feed. *)
Definition idea_body : str :=
  u16 "Try this: &&IDEA&&" ++ [10] ++ u16 "More text.".

(** * Further properties *)

(** ** The pieces of a split text *)

Module PieceFacts.
Import Str.

Lemma firstn_clean (s p : str) (i : nat) :
  p <> [] -> indexOf s p = Some i -> ~ contains (firstn i s) p.
Proof.
  intros Hp Hi [a [b Hab]].
  pose proof (StrFacts.indexOf_Some s p i Hi) as [Hs Hlen].
  assert (Hle : (i <= List.length a)%nat).
  { apply (StrFacts.indexOf_leftmost s p i Hi a (b ++ skipn i s)).
    rewrite <- (firstn_skipn i s) at 1. rewrite Hab.
    now rewrite <- !app_assoc. }
  assert (Hl : List.length (firstn i s) = i) by (apply firstn_length_le; exact Hlen).
  rewrite Hab, !length_app in Hl.
  destruct p; [congruence | simpl in Hl; lia].
Qed.

Lemma split_clean_aux (sep : str) (n : nat) :
  sep <> [] ->
  forall s, (List.length s <= n)%nat ->
    forall piece, In piece (split s sep) -> ~ contains piece sep.
Proof.
  intros Hsep. induction n as [|n IH]; intros s Hn piece Hin;
    rewrite (SplitFacts.split_indexOf s sep Hsep) in Hin;
    destruct (indexOf s sep) as [i|] eqn:Ei.
  - destruct s; [|simpl in Hn; lia]. destruct sep; [congruence|].
    cbn in Ei. discriminate.
  - destruct Hin as [<-|[]]. now apply not_contains.
  - destruct Hin as [<-|Hin]; [now apply firstn_clean|].
    apply (IH (skipn (i + List.length sep) s)); [|exact Hin].
    rewrite length_skipn. destruct sep; [congruence|]. simpl. lia.
  - destruct Hin as [<-|[]]. now apply not_contains.
Qed.

(** No piece of a split text contains the separator. *)
Lemma split_clean (s sep piece : str) :
  sep <> [] -> In piece (split s sep) -> ~ contains piece sep.
Proof.
  intros Hsep. apply (split_clean_aux sep (List.length s) Hsep s (le_n _)).
Qed.

(** A text that occurs in a part of [s] occurs in [s]. *)
Lemma contains_trans (s t p : str) : contains s t -> contains t p -> contains s p.
Proof.
  intros [a [b ->]] [c [d ->]]. exists (a ++ c), (d ++ b).
  now rewrite <- !app_assoc.
Qed.

Lemma trimStart_part (s : str) : contains s (trimStart s).
Proof.
  destruct (StrFacts.trimStart_suffix s) as [w [Hs _]].
  exists w, []. now rewrite app_nil_r.
Qed.

Lemma trim_part (s : str) : contains s (trim s).
Proof.
  unfold trim, trimEnd.
  apply (contains_trans s (trimStart s)); [apply trimStart_part|].
  destruct (trimStart_part (rev (trimStart s))) as [a [b H]].
  exists (rev b), (rev a).
  remember (trimStart (rev (trimStart s))) as t eqn:Et. clear Et.
  apply (f_equal (@rev N)) in H. rewrite rev_involutive in H.
  rewrite H, !rev_app_distr, <- !app_assoc. reflexivity.
Qed.

Lemma strip_list_marker_part (s : str) : contains s (Chat.strip_list_marker s).
Proof.
  assert (Hrefl : contains s s) by (exists [], []; now rewrite app_nil_r).
  unfold Chat.strip_list_marker.
  pose proof (trimStart_part s) as Ht.
  destruct (trimStart s) as [|c r] eqn:E; [exact Hrefl|].
  assert (Hr : forall t, contains r t -> contains s t).
  { intros t [a [b Hab]]. apply (contains_trans s (c :: r)); [exact Ht|].
    exists (c :: a), b. simpl. now rewrite Hab. }
  destruct ((c =? 42) || (c =? 45)); [apply Hr, trimStart_part|].
  destruct (is_digit c); [|exact Hrefl].
  destruct (Json.span_digits (c :: r)) as [ds rest] eqn:Es. cbn [snd].
  destruct rest as [|d rest]; [exact Hrefl|].
  destruct d as [|p]; [exact Hrefl|].
  destruct (N.eq_dec (N.pos p) 46) as [Hd|Hd].
  2:{ repeat (destruct p as [p|p|]; try exact Hrefl); congruence. }
  injection Hd as ->.
  assert (Hsplit : c :: r = ds ++ 46 :: rest).
  { clear - Es. revert ds Es. generalize (c :: r) as l.
    induction l as [|x l IH]; intros ds Es; simpl in Es.
    - discriminate.
    - destruct (is_digit x).
      + destruct (Json.span_digits l) as [ds' r'] eqn:E'.
        injection Es as <- ->. simpl. now rewrite (IH ds' eq_refl).
      + inversion Es; subst; reflexivity. }
  apply (contains_trans s (c :: r)); [exact Ht|].
  apply (contains_trans (c :: r) rest); [|apply trimStart_part].
  exists (ds ++ [46]), []. rewrite Hsplit, app_nil_r, <- app_assoc. reflexivity.
Qed.

End PieceFacts.

(** X1: no segment that the chat panel renders contains the sentinel, and
    no idea offer carries it. *)
Theorem rendered_without_sentinel (body : str) (r : Chat.BodyPart) :
  In (Some r) (Chat.renderBody body) ->
  ~ contains (Chat.text r) Chat.ideaMarker
  /\ forall idea, Chat.ideaButton r = Some idea ->
                  ~ contains idea Chat.ideaMarker.
Proof.
  intros Hin.
  assert (Hparts : exists part,
             In part (Str.split body Chat.ideaMarker)
             /\ Chat.text r = part
             /\ forall idea, Chat.ideaButton r = Some idea ->
                             idea = Chat.ideaText part).
  { destruct body as [|c body]; [contradiction|].
    unfold Chat.renderBody in Hin.
    set (parts := Str.split (c :: body) Chat.ideaMarker) in *.
    assert (Hne : parts <> []) by apply ChatFacts.split_go_nonempty.
    rewrite (ChatFacts.renderParts_shape parts Hne) in Hin.
    apply in_app_or in Hin as [Hin|Hin].
    - apply in_map_iff in Hin as [part [Hpart Hp]].
      exists part. split.
      + destruct (exists_last Hne) as [l [x Hl]]. rewrite Hl in *.
        rewrite removelast_last in Hp. apply in_or_app. now left.
      + unfold ChatFacts.inner_part in Hpart. injection Hpart as <-.
        split; [reflexivity|]. cbn [Chat.ideaButton]. intros idea.
        destruct (Chat.nonempty (Chat.ideaText part)); [|discriminate].
        now intros [= <-].
    - destruct Hin as [Hlast|[]]. exists (last parts []). split.
      + destruct (exists_last Hne) as [l [x Hl]]. rewrite Hl.
        rewrite last_last. apply in_or_app. right. now left.
      + unfold ChatFacts.last_part in Hlast.
        destruct (is_blank (last parts [])); [discriminate|].
        injection Hlast as <-. split; [reflexivity|]. discriminate. }
  destruct Hparts as (part & Hpart & Htext & Hidea).
  assert (Hclean : ~ contains part Chat.ideaMarker)
    by (apply (PieceFacts.split_clean body); [discriminate | exact Hpart]).
  split; [now rewrite Htext|].
  intros idea Hi Hc. apply Hclean. rewrite (Hidea idea Hi) in Hc.
  apply (PieceFacts.contains_trans part (Chat.ideaText part)); [|exact Hc].
  unfold Chat.ideaText.
  apply (PieceFacts.contains_trans part (Str.trim part));
    [apply PieceFacts.trim_part | apply PieceFacts.strip_list_marker_part].
Qed.

Lemma rendered_without_sentinel_witness :
  In (Some {| Chat.text := u16 "Try this: ";
              Chat.ideaButton := Some (u16 "Try this:") |})
     (Chat.renderBody idea_body)
  /\ ~ contains (u16 "Try this: ") Chat.ideaMarker
  /\ forall idea, Some (u16 "Try this:") = Some idea ->
                  ~ contains idea Chat.ideaMarker.
Proof.
  assert (H : In (Some {| Chat.text := u16 "Try this: ";
                          Chat.ideaButton := Some (u16 "Try this:") |})
                 (Chat.renderBody idea_body)) by (left; reflexivity).
  split; [exact H|].
  exact (rendered_without_sentinel idea_body _ H).
Defined.

Module CopyFacts.
Import Str.

Lemma remove_all_split (sep s : str) (skip : nat) (cur : str) :
  List.concat (split_go sep s skip cur)
  = rev cur ++ ChatPanel.remove_all_go sep s skip.
Proof.
  revert skip cur. induction s as [|c s IH]; intros skip cur.
  - cbn. now rewrite !app_nil_r.
  - cbn [split_go ChatPanel.remove_all_go]. destruct skip as [|k].
    + destruct (startsWith (c :: s) sep).
      * cbn [List.concat]. now rewrite IH.
      * rewrite IH. cbn [rev]. now rewrite <- app_assoc.
    + apply IH.
Qed.

End CopyFacts.

(** X2: the text that the copy button writes is the concatenation of the
    segments between the sentinels, those that are not rendered
    included. *)
Theorem handleCopy_segments (body : str) :
  ChatPanel.handleCopy body
  = List.concat (Str.split body Chat.ideaMarker).
Proof.
  unfold ChatPanel.handleCopy, Str.split.
  now rewrite CopyFacts.remove_all_split.
Qed.

(** ** The escaping step of the Markdown renderer *)

Module EscapeFacts.
Import ChatPanel.

(** What the five replacements make of one code unit. *)
Definition entity (c : N) : str :=
  if c =? 38 then u16 "&amp;"
  else if c =? 60 then u16 "&lt;"
  else if c =? 62 then u16 "&gt;"
  else if c =? 34 then u16 "&quot;"
  else if c =? 39 then u16 "&#039;"
  else [c].

Lemma replace_char_flat_map (c : N) (by_text : str) (f : N -> str) (s : str) :
  replace_char c by_text (flat_map f s)
  = flat_map (fun x => replace_char c by_text (f x)) s.
Proof.
  unfold replace_char. induction s as [|x s IH]; [reflexivity|].
  cbn [flat_map]. now rewrite flat_map_app, IH.
Qed.

(** The ampersand is replaced first, so that the later replacements, which
    insert ampersands, are not escaped again: the five passes amount to one
    pass. *)
Lemma escape_one_pass (s : str) : toHtml_escape s = flat_map entity s.
Proof.
  unfold toHtml_escape.
  unfold replace_char at 5. rewrite !replace_char_flat_map.
  apply flat_map_ext. intros x. unfold entity.
  destruct (x =? 38) eqn:E1; [reflexivity|].
  unfold replace_char at 4. cbn [flat_map]. rewrite app_nil_r.
  destruct (x =? 60) eqn:E2; [reflexivity|].
  unfold replace_char at 3. cbn [flat_map]. rewrite app_nil_r.
  destruct (x =? 62) eqn:E3; [reflexivity|].
  unfold replace_char at 2. cbn [flat_map]. rewrite app_nil_r.
  destruct (x =? 34) eqn:E4; [reflexivity|].
  unfold replace_char. cbn [flat_map]. rewrite app_nil_r.
  destruct (x =? 39) eqn:E5; reflexivity.
Qed.

Ltac entity_cases x :=
  unfold entity;
  destruct (N.eqb_spec x 38); [subst x|];
  [|destruct (N.eqb_spec x 60); [subst x|];
    [|destruct (N.eqb_spec x 62); [subst x|];
      [|destruct (N.eqb_spec x 34); [subst x|];
        [|destruct (N.eqb_spec x 39); [subst x|]]]]].

Lemma entity_head (x y : N) (r1 r2 : str) :
  entity x ++ r1 = entity y ++ r2 -> x = y /\ r1 = r2.
Proof.
  entity_cases x; entity_cases y; cbn; intros H;
    try (injection H as H; subst; split; (reflexivity || congruence));
    try discriminate H;
    try (injection H; intros; subst; congruence).
Qed.

Lemma entity_nonempty (x : N) (r : str) : entity x ++ r <> [].
Proof. entity_cases x; discriminate. Qed.

End EscapeFacts.

(** X3: the escaped text holds no angle bracket and no quote of either
    kind, whatever the text was. *)
Theorem escape_no_markup (markdown : str) (c : N) :
  In c (ChatPanel.toHtml_escape markdown) ->
  c <> 60 /\ c <> 62 /\ c <> 34 /\ c <> 39.
Proof.
  rewrite EscapeFacts.escape_one_pass. intros H.
  apply in_flat_map in H as [x [_ H]]. revert H.
  EscapeFacts.entity_cases x; cbn; intros H;
    repeat (destruct H as [<-|H]; [repeat split; (discriminate || congruence)|]);
    contradiction.
Qed.

Lemma escape_no_markup_witness :
  In 59 (ChatPanel.toHtml_escape (u16 "<b>"))
  /\ 59 <> 60 /\ 59 <> 62 /\ 59 <> 34 /\ 59 <> 39.
Proof.
  assert (H : In 59 (ChatPanel.toHtml_escape (u16 "<b>")))
    by (cbn; right; right; right; left; reflexivity).
  split; [exact H|].
  exact (escape_no_markup (u16 "<b>") 59 H).
Defined.

(** X4: escaping loses nothing: two texts with the same escaped form are
    the same text. *)
Theorem escape_injective (a b : str) :
  ChatPanel.toHtml_escape a = ChatPanel.toHtml_escape b -> a = b.
Proof.
  rewrite !EscapeFacts.escape_one_pass. revert b.
  induction a as [|x a IH]; intros [|y b] H; cbn [flat_map] in H.
  - reflexivity.
  - symmetry in H. now apply EscapeFacts.entity_nonempty in H.
  - now apply EscapeFacts.entity_nonempty in H.
  - apply EscapeFacts.entity_head in H as [-> H]. f_equal. now apply IH.
Qed.

Lemma escape_injective_witness : u16 "a<b" = u16 "a<b".
Proof.
  apply (escape_injective (u16 "a<b") (u16 "a<b")). reflexivity.
Defined.

(** ** Replies of the assistant *)

Module DelimitedFacts.
Import Str ChatPanel.

Lemma indexOf_single (c : N) (p r : str) :
  ~ In c p -> indexOf (p ++ c :: r) [c] = Some (List.length p).
Proof.
  induction p as [|x p IH]; intros Hp.
  - cbn. now rewrite N.eqb_refl.
  - cbn [app indexOf startsWith List.length].
    destruct (N.eqb_spec c x) as [->|Hx]; [exfalso; apply Hp; now left|].
    cbn [andb]. rewrite IH; [reflexivity|]. intros H. apply Hp. now right.
Qed.

Lemma indexOf_single_None (c : N) (s : str) : ~ In c s -> indexOf s [c] = None.
Proof.
  induction s as [|x s IH]; intros Hs.
  - reflexivity.
  - cbn [indexOf startsWith].
    destruct (N.eqb_spec c x) as [->|Hx]; [exfalso; apply Hs; now left|].
    cbn [andb]. rewrite IH; [reflexivity|]. intros H. apply Hs. now right.
Qed.

Lemma up_to_last_None (c : N) (s : str) : ~ In c s -> up_to_last c s = None.
Proof.
  induction s as [|x s IH]; intros Hs; [reflexivity|].
  cbn [up_to_last]. rewrite IH by (intros H; apply Hs; now right).
  destruct (N.eqb_spec x c) as [->|Hx]; [exfalso; apply Hs; now left|reflexivity].
Qed.

Lemma up_to_last_app (c : N) (m q : str) :
  ~ In c q -> up_to_last c (m ++ c :: q) = Some (m ++ [c]).
Proof.
  intros Hq. induction m as [|x m IH].
  - cbn [app up_to_last]. rewrite up_to_last_None by exact Hq.
    now rewrite N.eqb_refl.
  - cbn [app up_to_last]. now rewrite IH.
Qed.

Lemma up_to_last_part (c : N) (s m : str) :
  up_to_last c s = Some m -> exists q, s = m ++ q.
Proof.
  revert m. induction s as [|x s IH]; intros m H; [discriminate|].
  cbn [up_to_last] in H. destruct (up_to_last c s) as [p|].
  - injection H as <-. destruct (IH p eq_refl) as [q ->]. now exists q.
  - destruct (x =? c); [|discriminate]. injection H as <-. now exists s.
Qed.

(** The match of a text that has the opening character for the first time
    before [mid] and the closing character for the last time after it. *)
Lemma match_delimited_found (o c : N) (p mid q : str) :
  ~ In o p -> ~ In c q ->
  match_delimited o c (p ++ o :: mid ++ c :: q) = Some (o :: mid ++ [c]).
Proof.
  intros Hp Hq. unfold match_delimited.
  rewrite indexOf_single by exact Hp.
  replace (skipn (S (List.length p)) (p ++ o :: mid ++ c :: q))
    with (mid ++ c :: q).
  - now rewrite up_to_last_app.
  - clear. induction p as [|x p IH]; [reflexivity | exact IH].
Qed.

Lemma match_delimited_None (o c : N) (s : str) :
  ~ In o s \/ ~ In c s -> match_delimited o c s = None.
Proof.
  intros H. unfold match_delimited.
  destruct (indexOf s [o]) as [i|] eqn:Ei; [|reflexivity].
  destruct H as [H|H].
  - now rewrite indexOf_single_None in Ei.
  - rewrite up_to_last_None; [reflexivity|].
    intros Hin. apply H.
    rewrite <- (firstn_skipn (S i) s). apply in_or_app. now right.
Qed.

End DelimitedFacts.

Module MessageFacts.
Import Json JsonRoundTrip ChatPanel.

Lemma str_eqb_refl (k : str) : str_eqb k k = true.
Proof. now apply str_eqb_eq. Qed.

Lemma str_eqb_trans (k a b : str) :
  str_eqb a b = true -> str_eqb k a = str_eqb k b.
Proof. intros H. apply str_eqb_eq in H. now subst. Qed.

Lemma lookup_replace (k k' : str) (v : json) (fields : list (str * json)) :
  lookup k' fields <> None ->
  lookup k (replace_field k' v fields)
  = if str_eqb k k' then Some v else lookup k fields.
Proof.
  induction fields as [|[a w] fields IH]; intros H; [now contradiction H|].
  cbn [lookup replace_field] in *. destruct (str_eqb k' a) eqn:Ea.
  - cbn [lookup]. apply str_eqb_eq in Ea. subst a.
    now destruct (str_eqb k k').
  - cbn [lookup]. rewrite IH by exact H.
    destruct (str_eqb k a) eqn:Eka; [|reflexivity].
    apply str_eqb_eq in Eka. subst a.
    destruct (str_eqb k k') eqn:Ekk; [|reflexivity].
    apply str_eqb_eq in Ekk. subst k'. now rewrite str_eqb_refl in Ea.
Qed.

Lemma lookup_insert (k k' : str) (i : N) (v : json)
    (fields : list (str * json)) :
  lookup k' fields = None ->
  lookup k (insert_index i k' v fields)
  = if str_eqb k k' then Some v else lookup k fields.
Proof.
  induction fields as [|[a w] fields IH]; intros H.
  - reflexivity.
  - cbn [lookup] in H. destruct (str_eqb k' a) eqn:Ea; [discriminate|].
    cbn [insert_index].
    destruct (array_index a) as [j|]; [destruct (j <? i)|]; cbn [lookup];
      try reflexivity.
    rewrite IH by exact H.
    destruct (str_eqb k a) eqn:Eka; [|reflexivity].
    apply str_eqb_eq in Eka. subst a.
    destruct (str_eqb k k') eqn:Ekk; [|reflexivity].
    apply str_eqb_eq in Ekk. subst k'. now rewrite str_eqb_refl in Ea.
Qed.

Lemma lookup_app (k : str) (a b : list (str * json)) :
  lookup k (a ++ b)
  = match lookup k a with Some v => Some v | None => lookup k b end.
Proof.
  induction a as [|[x w] a IH]; [reflexivity|]. cbn [app lookup].
  now destruct (str_eqb k x).
Qed.

(** Reading a property after a property was defined. *)
Lemma lookup_define (k k' : str) (v : json) (acc : list (str * json)) :
  lookup k (define acc (k', v))
  = if str_eqb k k' then Some v else lookup k acc.
Proof.
  unfold define. destruct (lookup k' acc) as [w|] eqn:E.
  - apply lookup_replace. congruence.
  - destruct (array_index k') as [i|].
    + now apply lookup_insert.
    + rewrite lookup_app. cbn [lookup].
      destruct (str_eqb k k') eqn:Ek.
      * apply str_eqb_eq in Ek. subst k'. now rewrite E.
      * now destruct (lookup k acc).
Qed.

Lemma lookup_fold_define (k : str) (l acc : list (str * json)) :
  NoDup (List.map fst l) ->
  lookup k (fold_left define l acc)
  = match lookup k l with Some v => Some v | None => lookup k acc end.
Proof.
  revert acc. induction l as [|[a w] l IH]; intros acc Hnd; [reflexivity|].
  cbn [List.map fst] in Hnd. inversion Hnd as [|? ? Ha Hl]; subst.
  cbn [fold_left lookup]. rewrite IH by exact Hl. rewrite lookup_define.
  destruct (str_eqb k a) eqn:Ek; [|reflexivity].
  apply str_eqb_eq in Ek. subst a. now rewrite lookup_absent.
Qed.

End MessageFacts.

(** X5: once the guard lets a message through, the list of messages grows
    by exactly two, the message of the user and one message of the
    assistant, whatever the call gives; the input is cleared and the
    loading flag is down. *)
Theorem handleSendMessage_appends (chat : bool) (response : completion str)
    (st : ChatPanel.ChatState) (app : AppState) :
  is_blank (ChatPanel.inputValue st) = false ->
  ChatPanel.isLoading st = false -> chat = true ->
  exists reply,
    fst (ChatPanel.handleSendMessage chat response st app)
    = {| ChatPanel.messages :=
           ChatPanel.messages st
           ++ [ChatPanel.userMessage (ChatPanel.inputValue st); JObj reply];
         ChatPanel.inputValue := [];
         ChatPanel.isLoading := false |}
    /\ lookup (u16 "role") reply <> None.
Proof.
  intros Hb Hl ->. unfold ChatPanel.handleSendMessage. rewrite Hb, Hl.
  cbn [orb negb]. destruct response as [text|e]; cbn [fst].
  - eexists. rewrite <- app_assoc. split; [reflexivity|].
    generalize (ChatPanel.spread (ChatPanel.parsedResponse (Str.trim text))).
    intros l.
    assert (H : forall acc, lookup (u16 "role") acc <> None ->
                lookup (u16 "role") (fold_left Json.define l acc) <> None).
    { induction l as [|[a w] l IH]; intros acc Hacc; [exact Hacc|].
      cbn [fold_left]. apply IH. rewrite MessageFacts.lookup_define.
      now destruct (str_eqb (u16 "role") a). }
    apply H. discriminate.
  - eexists. rewrite <- app_assoc. split; [reflexivity|]. discriminate.
Qed.

Lemma handleSendMessage_appends_witness :
  exists reply,
    fst (ChatPanel.handleSendMessage true (Normal (u16 "no"))
           {| ChatPanel.messages := []; ChatPanel.inputValue := u16 "hi";
              ChatPanel.isLoading := false |} ready)
    = {| ChatPanel.messages :=
           [ChatPanel.userMessage (u16 "hi"); JObj reply];
         ChatPanel.inputValue := [];
         ChatPanel.isLoading := false |}
    /\ lookup (u16 "role") reply <> None.
Proof.
  exact (handleSendMessage_appends true (Normal (u16 "no"))
           {| ChatPanel.messages := []; ChatPanel.inputValue := u16 "hi";
              ChatPanel.isLoading := false |} ready
           eq_refl eq_refl eq_refl).
Defined.

(** X6: a reply without an opening brace, or without a closing brace,
    becomes the message headed Response Error, whose body ends with the
    reply itself. *)
Theorem reply_without_object (rawText : str) :
  ~ In 123 rawText \/ ~ In 125 rawText ->
  ChatPanel.ainaraMessage (ChatPanel.parsedResponse rawText)
  = JObj [(u16 "role", JStr (u16 "model"));
          (u16 "header", JStr (u16 "Response Error"));
          (u16 "body",
           JStr (u16 "The AI returned a response that was not in the expected JSON format."
                 ++ [10; 10] ++ u16 "Raw response:" ++ [10] ++ rawText));
          (u16 "footer", JStr (u16 "Please try rephrasing your message."));
          (u16 "language", JStr (u16 "en"))].
Proof.
  intros H. unfold ChatPanel.parsedResponse.
  now rewrite DelimitedFacts.match_delimited_None.
Qed.

Lemma reply_without_object_witness :
  ChatPanel.ainaraMessage (ChatPanel.parsedResponse (u16 "Hello {"))
  = JObj [(u16 "role", JStr (u16 "model"));
          (u16 "header", JStr (u16 "Response Error"));
          (u16 "body",
           JStr (u16 "The AI returned a response that was not in the expected JSON format."
                 ++ [10; 10] ++ u16 "Raw response:" ++ [10] ++ u16 "Hello {"));
          (u16 "footer", JStr (u16 "Please try rephrasing your message."));
          (u16 "language", JStr (u16 "en"))].
Proof.
  apply (reply_without_object (u16 "Hello {")). right.
  cbn. intros H. repeat (destruct H as [H|H]; [discriminate H|]). exact H.
Defined.

(** X7: what is read is the text from the first opening brace to the last
    closing brace: the text before and after it does not count. *)
Theorem reply_object_extracted (p mid q : str) :
  ~ In 123 p -> ~ In 125 q ->
  ChatPanel.parsedResponse (p ++ 123 :: mid ++ 125 :: q)
  = match JSON_parse (123 :: mid ++ [125]) with
    | Normal v => v
    | Throw _ => ChatPanel.responseError (p ++ 123 :: mid ++ 125 :: q)
    end.
Proof.
  intros Hp Hq. unfold ChatPanel.parsedResponse.
  now rewrite DelimitedFacts.match_delimited_found.
Qed.

Lemma reply_object_extracted_witness :
  ChatPanel.parsedResponse
    (u16 "Sure: " ++ 123 :: jq "'body':'Hi'" ++ 125 :: u16 " ok")
  = JObj [(u16 "body", JStr (u16 "Hi"))].
Proof.
  rewrite (reply_object_extracted (u16 "Sure: ") (jq "'body':'Hi'") (u16 " ok")).
  - reflexivity.
  - cbn. intros H. repeat (destruct H as [H|H]; [discriminate H|]). exact H.
  - cbn. intros H. repeat (destruct H as [H|H]; [discriminate H|]). exact H.
Defined.

Module ReplyFacts.

Lemma message_field (fields : list (str * json)) (k : str) :
  NoDup (List.map fst fields) ->
  prop (ChatPanel.ainaraMessage (JObj fields)) k
  = Normal match lookup k fields with
           | Some v => Some v
           | None => if str_eqb k (u16 "role")
                     then Some (JStr (u16 "model")) else None
           end.
Proof.
  intros Hnd. unfold ChatPanel.ainaraMessage. cbn [prop ChatPanel.spread].
  rewrite MessageFacts.lookup_fold_define by exact Hnd. reflexivity.
Qed.

End ReplyFacts.

(** X8: the message that is stored has the properties of the reply; the
    role is that of the reply when it has one, and model otherwise. *)
Theorem ainaraMessage_fields (fields : list (str * json)) (k : str) :
  NoDup (List.map fst fields) ->
  prop (ChatPanel.ainaraMessage (JObj fields)) k
  = Normal match lookup k fields with
           | Some v => Some v
           | None => if str_eqb k (u16 "role")
                     then Some (JStr (u16 "model")) else None
           end.
Proof.
  exact (ReplyFacts.message_field fields k).
Qed.

Lemma ainaraMessage_fields_witness :
  prop (ChatPanel.ainaraMessage (JObj [(u16 "role", JStr (u16 "user"))]))
    (u16 "role")
  = Normal (Some (JStr (u16 "user"))).
Proof.
  apply (ainaraMessage_fields [(u16 "role", JStr (u16 "user"))] (u16 "role")).
  repeat constructor. intros [].
Defined.

(** X9: the message that is stored for a reply that is an object without
    a body that is a string, and without the role of the user, cannot be
    rendered: the callback of the list raises a TypeError. *)
Theorem render_without_body (fields : list (str * json)) :
  NoDup (List.map fst fields) ->
  lookup (u16 "role") fields <> Some (JStr (u16 "user")) ->
  (forall b, lookup (u16 "body") fields <> Some (JStr b)) ->
  exists m,
    ChatPanel.renderMessage (ChatPanel.ainaraMessage (JObj fields))
    = Throw (TypeError m).
Proof.
  intros Hnd Hrole Hbody.
  pose proof (ReplyFacts.message_field fields (u16 "role") Hnd) as Hr.
  pose proof (ReplyFacts.message_field fields (u16 "body") Hnd) as Hb.
  change (str_eqb (u16 "body") (u16 "role")) with false in Hb.
  change (str_eqb (u16 "role") (u16 "role")) with true in Hr.
  unfold ChatPanel.renderMessage, ChatPanel.renderModel.
  rewrite Hr, Hb. cbn [bind].
  destruct (lookup (u16 "role") fields) as [[|?|?|r|?|?]|] eqn:Er;
    cbn [ChatPanel.is_user];
    try (destruct (str_eqb r (u16 "user")) eqn:E;
         [apply JsonRoundTrip.str_eqb_eq in E; subst r; now contradiction Hrole|]);
    change (str_eqb (u16 "model") (u16 "user")) with false; cbv iota;
    (destruct (lookup (u16 "body") fields) as [[|?|?|txt|?|?]|] eqn:Eb;
     try (eexists; reflexivity); now contradiction (Hbody txt)).
Qed.

Lemma render_without_body_witness :
  exists m,
    ChatPanel.renderMessage
      (ChatPanel.ainaraMessage (JObj [(u16 "header", JStr (u16 "Hi"))]))
    = Throw (TypeError m).
Proof.
  apply (render_without_body [(u16 "header", JStr (u16 "Hi"))]).
  - repeat constructor. intros [].
  - discriminate.
  - discriminate.
Defined.

(** ** More on the parser of responses *)

Module TextFacts.
Import Str.

Lemma startsWith_app_long (s t p : str) :
  (List.length p <= List.length s)%nat ->
  startsWith (s ++ t) p = startsWith s p.
Proof.
  revert s. induction p as [|c p IH]; intros s Hl; [reflexivity|].
  destruct s as [|x s]; [simpl in Hl; lia|].
  cbn [app startsWith]. rewrite IH; [reflexivity | simpl in Hl; lia].
Qed.

Lemma indexOf_length (s p : str) (i : nat) :
  indexOf s p = Some i -> (i + List.length p <= List.length s)%nat.
Proof.
  intros H. destruct (StrFacts.indexOf_Some s p i H) as [Hs Hi].
  apply (f_equal (@List.length N)) in Hs.
  rewrite !length_app, firstn_length_le in Hs by exact Hi. lia.
Qed.

(** An occurrence stays the leftmost one when text is added at the end. *)
Lemma indexOf_app_left (s t p : str) (i : nat) :
  indexOf s p = Some i -> indexOf (s ++ t) p = Some i.
Proof.
  revert i. induction s as [|c s IH]; intros i H.
  - cbn [indexOf] in H. destruct (startsWith [] p) eqn:E; [|discriminate].
    injection H as <-. destruct p; [|discriminate].
    destruct t; reflexivity.
  - cbn [indexOf] in H. cbn [app indexOf].
    destruct (startsWith (c :: s) p) eqn:E.
    + injection H as <-.
      apply StrFacts.startsWith_inv in E as [r E].
      change (c :: s ++ t) with ((c :: s) ++ t). rewrite E, <- app_assoc.
      now rewrite StrFacts.startsWith_app.
    + destruct (indexOf s p) as [j|] eqn:Ej; [|discriminate].
      change (c :: s ++ t) with ((c :: s) ++ t).
      rewrite startsWith_app_long, E.
      * now rewrite (IH j eq_refl).
      * apply indexOf_length in Ej. simpl. lia.
Qed.

(** The first occurrence of a text that starts with a character that the
    text before it does not have. *)
Lemma indexOf_head_absent (a r : str) (c : N) (p : str) :
  ~ In c a -> indexOf (a ++ (c :: p) ++ r) (c :: p) = Some (List.length a).
Proof.
  induction a as [|x a IH]; intros Ha.
  - cbn [app List.length indexOf startsWith]. rewrite N.eqb_refl.
    cbn [andb]. now rewrite StrFacts.startsWith_app.
  - change ((x :: a) ++ (c :: p) ++ r) with (x :: (a ++ (c :: p) ++ r)).
    cbn [indexOf startsWith List.length].
    destruct (N.eqb_spec c x) as [->|Hx]; [exfalso; apply Ha; now left|].
    cbn [andb]. rewrite IH; [reflexivity|]. intros H. apply Ha. now right.
Qed.

Lemma indexOf_prefix (p r : str) : indexOf (p ++ r) p = Some 0%nat.
Proof.
  pose proof (StrFacts.startsWith_app p r) as H.
  destruct (p ++ r); cbn [indexOf]; now rewrite H.
Qed.

Lemma endsWith_inv (s p : str) : endsWith s p = true -> exists a, s = a ++ p.
Proof.
  unfold endsWith. intros H. apply StrFacts.startsWith_inv in H as [r H].
  exists (rev r). apply (f_equal (@rev N)) in H.
  now rewrite rev_involutive, rev_app_distr, rev_involutive in H.
Qed.

Lemma endsWith_app (a p : str) : endsWith (a ++ p) p = true.
Proof. unfold endsWith. rewrite rev_app_distr. apply StrFacts.startsWith_app. Qed.

Lemma contains_more (s p q r : str) : contains s (q ++ p ++ r) -> contains s p.
Proof.
  intros [a [b ->]]. exists (a ++ q), (r ++ b). now rewrite <- !app_assoc.
Qed.

(** A text without a code fence goes through the two replacements of the
    fences unchanged. *)
Lemma strip_fence_free (p : str) :
  ~ contains p fence -> strip_fence_close (strip_fence_open p) = p.
Proof.
  intros H.
  assert (Ho : strip_fence_open p = p).
  { unfold strip_fence_open.
    rewrite ExportFacts.not_contains_indexOf; [reflexivity|].
    intros Hc. apply H. apply (contains_more p fence [] (u16 "json")).
    exact Hc. }
  rewrite Ho. unfold strip_fence_close.
  destruct (endsWith p (fence ++ [10])) eqn:E1.
  { exfalso. apply H. apply endsWith_inv in E1 as [a ->].
    exists a, [10]. reflexivity. }
  destruct (endsWith p fence) eqn:E2; [|reflexivity].
  exfalso. apply H. apply endsWith_inv in E2 as [a ->].
  exists a, []. now rewrite app_nil_r.
Qed.

Lemma absent_not_contains (c : N) (s p : str) :
  ~ In c s -> In c p -> ~ contains s p.
Proof.
  intros Hs Hp [a [b ->]]. apply Hs.
  apply in_or_app. right. apply in_or_app. now left.
Qed.

Lemma nonblank_trim (s : str) :
  forallb is_white_space s = false -> trim s <> [].
Proof.
  intros H E. apply StrFacts.trim_nil_inv in E. congruence.
Qed.

Lemma blank_no (c : N) (w : str) :
  is_white_space c = false -> forallb is_white_space w = true -> ~ In c w.
Proof.
  intros Hc Hw Hin. rewrite forallb_forall in Hw.
  specialize (Hw c Hin). congruence.
Qed.

Lemma trimStart_head (s : str) : ChatFacts.solid (trimStart s).
Proof.
  induction s as [|c s IH]; [exact I|]. cbn [trimStart].
  destruct (is_white_space c) eqn:E; [exact IH | exact E].
Qed.

(** A trimmed text is empty, or starts and ends with characters that are
    not white space. *)
Lemma trim_shape (s : str) :
  trim s = []
  \/ exists x l c, trim s = l ++ [c] /\ l ++ [c] = x :: tl (l ++ [c])
                   /\ is_white_space x = false /\ is_white_space c = false.
Proof.
  unfold trim, trimEnd.
  pose proof (trimStart_head s) as Ht.
  pose proof (trimStart_head (rev (trimStart s))) as Hu.
  destruct (StrFacts.trimStart_suffix (rev (trimStart s))) as [w [Hw _]].
  destruct (trimStart (rev (trimStart s))) as [|c r] eqn:Eu;
    [now left | right].
  cbn [rev]. apply (f_equal (@rev N)) in Hw.
  rewrite rev_involutive, rev_app_distr in Hw. cbn [rev] in Hw.
  destruct (rev r ++ [c]) as [|x l'] eqn:El.
  { now destruct (rev r). }
  rewrite Hw in Ht. cbn [app ChatFacts.solid] in Ht.
  exists x, (rev r), c. rewrite El. repeat split; assumption.
Qed.

Lemma trim_idempotent (s : str) : trim (trim s) = trim s.
Proof.
  destruct (trim_shape s) as [->|(x & l & c & -> & E & Hx & Hc)];
    [reflexivity|].
  unfold trim at 1. rewrite E, RoundTrip.trimStart_solid by exact Hx.
  rewrite <- E. now apply RoundTrip.trimEnd_solid.
Qed.

End TextFacts.

(** X10: what comes after the first end marker that follows the code
    marker does not count: with or without it the response parses to the
    same result. *)
Theorem parseAiOutput_after_end (a b junk : str) :
  parseAiOutput (a ++ codeSeparator ++ b ++ endSeparator ++ junk)
  = parseAiOutput (a ++ codeSeparator ++ b ++ endSeparator).
Proof.
  set (raw := a ++ codeSeparator ++ b ++ endSeparator).
  replace (a ++ codeSeparator ++ b ++ endSeparator ++ junk)
    with (raw ++ junk) by (unfold raw; now rewrite <- !app_assoc).
  destruct (Str.indexOf raw codeSeparator) as [i|] eqn:Ei.
  2:{ exfalso. revert Ei. apply StrFacts.indexOf_occurs. }
  pose proof (TextFacts.indexOf_app_left raw junk _ i Ei) as Ei'.
  pose proof (TextFacts.indexOf_length raw _ i Ei) as Hlen.
  assert (Hia : (i <= List.length a)%nat).
  { apply (StrFacts.indexOf_leftmost raw codeSeparator i Ei a
             (b ++ endSeparator)). reflexivity. }
  destruct (Str.indexOf (skipn (i + List.length codeSeparator) raw) endSeparator)
    as [j|] eqn:Ej.
  2:{ exfalso. revert Ej. unfold raw.
      rewrite (app_assoc a codeSeparator), skipn_app.
      replace (i + List.length codeSeparator
               - List.length (a ++ codeSeparator))%nat with 0%nat
        by (rewrite length_app; lia).
      cbn [skipn].
      set (x := skipn (i + List.length codeSeparator) (a ++ codeSeparator)).
      replace (x ++ b ++ endSeparator) with ((x ++ b) ++ endSeparator ++ [])
        by (now rewrite app_nil_r, app_assoc).
      apply StrFacts.indexOf_occurs. }
  pose proof (TextFacts.indexOf_length _ _ j Ej) as Hj.
  assert (Hskip : skipn (i + List.length codeSeparator) (raw ++ junk)
                  = skipn (i + List.length codeSeparator) raw ++ junk).
  { rewrite skipn_app.
    replace (i + List.length codeSeparator - List.length raw)%nat with 0%nat
      by lia. reflexivity. }
  assert (Hscript : extractScript (raw ++ junk) i = extractScript raw i).
  { unfold extractScript, Str.substring_from, Str.substring_to.
    rewrite Hskip, (TextFacts.indexOf_app_left _ junk _ j Ej), Ej.
    rewrite firstn_app.
    replace (j - List.length (skipn (i + List.length codeSeparator) raw))%nat
      with 0%nat by lia.
    cbn [firstn]. now rewrite app_nil_r. }
  assert (Hpre : Str.substring_to (raw ++ junk) i = Str.substring_to raw i).
  { unfold Str.substring_to. rewrite firstn_app.
    replace (i - List.length raw)%nat with 0%nat by lia.
    cbn [firstn]. now rewrite app_nil_r. }
  pose proof (TextFacts.nonblank_trim raw (separator_not_blank raw i Ei)) as H1.
  pose proof (TextFacts.nonblank_trim _ (separator_not_blank _ i Ei')) as H2.
  unfold parseAiOutput.
  destruct (Str.trim raw) as [|? ?]; [congruence|].
  destruct (Str.trim (raw ++ junk)) as [|? ?]; [congruence|].
  rewrite Ei, Ei'. cbv zeta. now rewrite Hpre, Hscript.
Qed.

(** X11: a preamble wrapped in a json code fence parses like the bare
    preamble, for a preamble that has no percent sign and no fence of its
    own. *)
Theorem parseAiOutput_fenced (p rest : str) :
  ~ In 37 p -> ~ contains p fence ->
  parseAiOutput (fence ++ u16 "json" ++ [10] ++ p ++ [10] ++ fence ++ [10]
                 ++ codeSeparator ++ rest)
  = parseAiOutput (p ++ codeSeparator ++ rest).
Proof.
  intros Hp Hf.
  set (X := fence ++ u16 "json" ++ [10] ++ p ++ [10] ++ fence ++ [10]).
  replace (fence ++ u16 "json" ++ [10] ++ p ++ [10] ++ fence ++ [10]
           ++ codeSeparator ++ rest)
    with (X ++ codeSeparator ++ rest)
    by (unfold X; now rewrite <- !app_assoc).
  assert (HX : ~ In 37 X).
  { unfold X. intros H.
    repeat (apply in_app_or in H as [H|H];
            [cbn in H; repeat (destruct H as [H|H]; [discriminate H|]);
             try contradiction|]);
      try (cbn in H; repeat (destruct H as [H|H]; [discriminate H|]);
           contradiction). }
  assert (E1 : Str.indexOf (X ++ codeSeparator ++ rest) codeSeparator
               = Some (List.length X))
    by (apply (TextFacts.indexOf_head_absent X rest 37); exact HX).
  assert (E2 : Str.indexOf (p ++ codeSeparator ++ rest) codeSeparator
               = Some (List.length p))
    by (apply (TextFacts.indexOf_head_absent p rest 37); exact Hp).
  pose proof (TextFacts.nonblank_trim _ (separator_not_blank _ _ E1)) as H1.
  pose proof (TextFacts.nonblank_trim _ (separator_not_blank _ _ E2)) as H2.
  assert (C1 : cleanedJsonString X = Str.trim p).
  { unfold cleanedJsonString, strip_fence_open.
    change (Str.indexOf X (fence ++ u16 "json"))
      with (Str.indexOf ((fence ++ u16 "json")
                         ++ 10 :: p ++ [10] ++ fence ++ [10])
              (fence ++ u16 "json")).
    rewrite TextFacts.indexOf_prefix.
    change (skipn (0 + 7) X) with (10 :: p ++ [10] ++ fence ++ [10]).
    cbv beta iota. change (10 =? 10) with true. cbv iota.
    change (remove_range X 0 8) with (p ++ [10] ++ fence ++ [10]).
    unfold strip_fence_close.
    replace (p ++ [10] ++ fence ++ [10]) with ((p ++ [10]) ++ fence ++ [10])
      by now rewrite <- app_assoc.
    rewrite TextFacts.endsWith_app.
    rewrite length_app, Nat.add_sub.
    rewrite ExportFacts.firstn_exact.
    now apply RoundTrip.trim_snoc. }
  assert (C2 : cleanedJsonString p = Str.trim p).
  { unfold cleanedJsonString. now rewrite TextFacts.strip_fence_free. }
  assert (S1 : extractScript (X ++ codeSeparator ++ rest) (List.length X)
               = extractScript (p ++ codeSeparator ++ rest) (List.length p)).
  { unfold extractScript, Str.substring_from.
    rewrite <- !length_app, !app_assoc, !ExportFacts.skipn_exact.
    reflexivity. }
  unfold parseAiOutput.
  destruct (Str.trim (X ++ codeSeparator ++ rest)) as [|? ?]; [congruence|].
  destruct (Str.trim (p ++ codeSeparator ++ rest)) as [|? ?]; [congruence|].
  rewrite E1, E2. cbv zeta. unfold Str.substring_to.
  rewrite !ExportFacts.firstn_exact, C1, C2, S1. reflexivity.
Qed.

Lemma parseAiOutput_fenced_witness :
  parseAiOutput (fence ++ u16 "json" ++ [10] ++ jq "{'title':'T'}" ++ [10]
                 ++ fence ++ [10] ++ codeSeparator ++ u16 "x")
  = parseAiOutput (jq "{'title':'T'}" ++ codeSeparator ++ u16 "x").
Proof.
  apply (parseAiOutput_fenced (jq "{'title':'T'}") (u16 "x")).
  - cbn. intros H. repeat (destruct H as [H|H]; [discriminate H|]). exact H.
  - apply (TextFacts.absent_not_contains 96); [|now left].
    cbn. intros H. repeat (destruct H as [H|H]; [discriminate H|]). exact H.
Defined.

(** X12: a response whose code marker comes first, or after white space
    only, has no preamble to read: it fails with a JSON parsing error,
    whatever follows the marker. *)
Theorem parseAiOutput_no_preamble (w rest : str) :
  forallb Str.is_white_space w = true ->
  exists m,
    parseAiOutput (w ++ codeSeparator ++ rest)
    = Normal (failure (u16 "JSON Parsing Error: " ++ m)).
Proof.
  intros Hw.
  assert (E : Str.indexOf (w ++ codeSeparator ++ rest) codeSeparator
              = Some (List.length w)).
  { apply (TextFacts.indexOf_head_absent w rest 37).
    now apply TextFacts.blank_no. }
  pose proof (TextFacts.nonblank_trim _ (separator_not_blank _ _ E)) as H1.
  assert (C : cleanedJsonString w = []).
  { unfold cleanedJsonString. rewrite TextFacts.strip_fence_free.
    - now apply StrFacts.trim_blank.
    - apply (TextFacts.absent_not_contains 96); [|now left].
      now apply TextFacts.blank_no. }
  unfold parseAiOutput.
  destruct (Str.trim (w ++ codeSeparator ++ rest)) as [|? ?]; [congruence|].
  rewrite E. cbv zeta. unfold Str.substring_to.
  rewrite ExportFacts.firstn_exact, C.
  eexists. reflexivity.
Qed.

Lemma parseAiOutput_no_preamble_witness :
  exists m,
    parseAiOutput ([32; 10] ++ codeSeparator ++ u16 "var x;")
    = Normal (failure (u16 "JSON Parsing Error: " ++ m)).
Proof.
  exact (parseAiOutput_no_preamble [32; 10] (u16 "var x;") eq_refl).
Defined.

(** X13: the outcomes of a generation, for every response: it ends with
    an error shown, nothing loaded and the busy flag down; or it goes on to
    the analysis with a descriptor that has the required fields and its
    script; or, for a blank response, it goes on to the analysis with
    nothing loaded.  No exception escapes. *)
Theorem handleGenerate_outcome (response : completion str) (st : AppState) :
  filled st ->
  match handleGenerate response st with
  | (st', Finished) =>
      s_gameData st' = None /\ s_gameScript st' = None
      /\ s_isGenerating st' = false /\ s_error st' <> None
  | (st', AnalyzeThenEdit script) =>
      s_error st' = None /\ s_gameScript st' = script
      /\ ((exists d s, s_gameData st' = Some d /\ descriptor_ok d = true
                       /\ script = Some s)
          \/ (exists rawInput, response = Normal rawInput
                /\ forallb Str.is_white_space rawInput = true
                /\ s_gameData st' = None /\ script = None))
  | (_, Uncaught _) => False
  end.
Proof.
  intros Hf. rewrite (handleGenerate_filled response st Hf). cbv zeta.
  assert (Hk : forall e c st0,
             s_error (handleApiKeyError e c st0) <> None
             /\ s_gameData (handleApiKeyError e c st0) = s_gameData st0
             /\ s_gameScript (handleApiKeyError e c st0) = s_gameScript st0).
  { intros e c st0. unfold handleApiKeyError.
    destruct (message e); [repeat split; discriminate|].
    destruct (Str.includes _ _); repeat split; discriminate. }
  destruct response as [rawInput|e].
  2:{ destruct (Hk e (u16 "API Error")
                  (setGameScript None (setGameData None
                     (setError None (setIsGenerating true st)))))
        as (H1 & H2 & H3).
      cbn [setIsGenerating s_gameData s_gameScript s_isGenerating s_error].
      rewrite H2, H3. repeat split; assumption. }
  destruct (rejection_probe rawInput) as [msg|].
  { repeat split; discriminate. }
  pose proof (parseAiOutput_case rawInput) as Hc.
  destruct (parseAiOutput rawInput) as [r|e].
  2:{ destruct (Hk e (u16 "API Error")
                  (setGameScript None (setGameData None
                     (setError None (setIsGenerating true st)))))
        as (H1 & H2 & H3).
      cbn [setIsGenerating s_gameData s_gameScript s_isGenerating s_error].
      rewrite H2, H3. repeat split; assumption. }
  inversion Hc; subst; cbn [error failure idle].
  - repeat split. right. exists rawInput. repeat split. assumption.
  - repeat split; discriminate.
  - repeat split; discriminate.
  - repeat split; discriminate.
  - repeat split. left. eexists. eexists. repeat split. assumption.
Qed.

Lemma handleGenerate_outcome_witness :
  match handleGenerate (Normal (u16 "no game here")) ready with
  | (st', Finished) =>
      s_gameData st' = None /\ s_gameScript st' = None
      /\ s_isGenerating st' = false /\ s_error st' <> None
  | (st', AnalyzeThenEdit script) =>
      s_error st' = None /\ s_gameScript st' = script
      /\ ((exists d s, s_gameData st' = Some d /\ descriptor_ok d = true
                       /\ script = Some s)
          \/ (exists rawInput, Normal (u16 "no game here") = Normal rawInput
                /\ forallb Str.is_white_space rawInput = true
                /\ s_gameData st' = None /\ script = None))
  | (_, Uncaught _) => False
  end.
Proof.
  exact (handleGenerate_outcome (Normal (u16 "no game here")) ready
           ready_filled).
Defined.

(** X14: the script that the parser returns is trimmed: trimming it again
    changes nothing. *)
Theorem parseAiOutput_script_trimmed (raw : str) (r : ParseResult)
    (script : str) :
  parseAiOutput raw = Normal r -> gameScript r = Some script ->
  Str.trim script = script.
Proof.
  intros H Hs. pose proof (parseAiOutput_case raw) as Hc.
  rewrite H in Hc. inversion Hc; subst; try discriminate Hs.
  cbn [gameScript] in Hs. injection Hs as <-.
  unfold extractScript. apply TextFacts.trim_idempotent.
Qed.

Lemma parseAiOutput_script_trimmed_witness :
  Str.trim (u16 "var x=1;") = u16 "var x=1;".
Proof.
  apply (parseAiOutput_script_trimmed match_game_input
           {| gameData :=
                Some (JObj [(u16 "title", JStr (u16 "Match Game"));
                            (u16 "description", JStr (u16 "Match pairs."));
                            (u16 "how_to_play",
                             JArr [JStr (u16 "Click a card")])]);
              gameScript := Some (u16 "var x=1;");
              error := None |}).
  - reflexivity.
  - reflexivity.
Defined.

(** ** The edit request *)

Module EditFacts.
Import Edit.

Lemma contains_refl (s : str) : contains s s.
Proof. exists [], []. now rewrite app_nil_r. Qed.

Lemma contains_app_l (a b p : str) : contains a p -> contains (a ++ b) p.
Proof. intros [x [y ->]]. exists x, (y ++ b). now rewrite <- !app_assoc. Qed.

Lemma contains_app_r (a b p : str) : contains b p -> contains (a ++ b) p.
Proof. intros [x [y ->]]. exists (a ++ x), y. now rewrite <- !app_assoc. Qed.

Lemma contains_concat_map {A : Type} (f : A -> str) (l : list A) (x : A) :
  In x l -> contains (List.concat (List.map f l)) (f x).
Proof.
  induction l as [|y l IH]; intros H; [contradiction|].
  cbn [List.map List.concat]. destruct H as [->|H].
  - apply contains_app_l, contains_refl.
  - apply contains_app_r, IH, H.
Qed.

(** The four parts of the text of the changes. *)
Definition fixPart (r : request) : str :=
  if isFixing r then fixPrompt r else [].

Definition numbersPart (r : request) : str :=
  match updatedNumbers r with
  | [] => []
  | _ :: _ =>
      [10] ++ u16 "Apply these specific parameter changes:" ++ [10]
        ++ List.concat (List.map number_line (updatedNumbers r))
  end.

Definition featuresPart (r : request) : str :=
  match selectedFeatures r with
  | [] => []
  | _ :: _ =>
      [10] ++ u16 "Implement the following new features/changes:" ++ [10]
        ++ List.concat (List.map feature_line (selectedFeatures r))
  end.

Definition generalPart (r : request) : str :=
  if negb (is_blank (generalRequest r))
  then [10] ++ u16 "Also, apply this general request from the user:"
         ++ [10] ++ Str.trim (generalRequest r)
  else [].

Lemma formattedChanges_parts (r : request) :
  fst (formattedChanges r)
  = fixPart r ++ numbersPart r ++ featuresPart r ++ generalPart r.
Proof.
  unfold formattedChanges, fixPart, numbersPart, featuresPart, generalPart.
  destruct (isFixing r), (updatedNumbers r), (selectedFeatures r),
    (negb (is_blank (generalRequest r)));
    cbn [fst]; rewrite ?app_nil_r, <- ?app_assoc; reflexivity.
Qed.

Lemma formattedChanges_requested (r : request) :
  snd (formattedChanges r)
  = isFixing r
    || match updatedNumbers r with [] => false | _ :: _ => true end
    || match selectedFeatures r with [] => false | _ :: _ => true end
    || negb (is_blank (generalRequest r)).
Proof.
  unfold formattedChanges.
  destruct (isFixing r), (updatedNumbers r), (selectedFeatures r),
    (negb (is_blank (generalRequest r))); reflexivity.
Qed.

Lemma handleEditGame_sent (r : request) (st : EditorState) (text : str) :
  snd (handleEditGame r st) = Some text ->
  exists script,
    s_gameScript (app st) = Some script
    /\ text = contents script (fst (formattedChanges r)).
Proof.
  unfold handleEditGame.
  destruct (s_gameScript (app st)) as [[|c script]|]; try discriminate.
  destruct (formattedChanges r) as [changes requested].
  destruct requested; cbn [negb snd fst]; [|discriminate].
  intros [= <-]. now exists (c :: script).
Qed.

(** Every option of the fix checkboxes of the edit panel is a key of the
    table of instructions. *)
Lemma option_instruction (key : str) :
  In key EditPanel.fixCheckOptions ->
  exists c text, instruction key detailedInstructions = Some (c :: text).
Proof.
  intros H. unfold EditPanel.fixCheckOptions in H.
  repeat (destruct H as [<-|H]; [eexists; eexists; reflexivity|]).
  contradiction.
Qed.

End EditFacts.

(** X15: with a script loaded, no request is sent exactly when nothing is
    asked for: no fix, no changed number, no feature, and a general request
    that is blank.  The panel then shows that no changes were requested and
    leaves the editing state. *)
Theorem handleEditGame_nothing_requested (r : Edit.request)
    (st : Edit.EditorState) (c : N) (script : str) :
  s_gameScript (Edit.app st) = Some (c :: script) ->
  (snd (Edit.handleEditGame r st) = None
   <-> Edit.isFixing r = false /\ Edit.updatedNumbers r = []
       /\ Edit.selectedFeatures r = []
       /\ is_blank (Edit.generalRequest r) = true)
  /\ (snd (Edit.handleEditGame r st) = None ->
      s_error (Edit.app (fst (Edit.handleEditGame r st)))
      = Some (u16 "No changes were requested.")
      /\ Edit.isEditing (fst (Edit.handleEditGame r st)) = false).
Proof.
  intros Hs. unfold Edit.handleEditGame. rewrite Hs.
  pose proof (EditFacts.formattedChanges_requested r) as Hr.
  destruct (Edit.formattedChanges r) as [changes requested].
  cbn [snd] in Hr. subst requested.
  destruct (Edit.isFixing r), (Edit.updatedNumbers r),
    (Edit.selectedFeatures r), (is_blank (Edit.generalRequest r));
    cbn [orb negb snd fst]; (split; [split|]);
    try discriminate; try (intros (H1 & H2 & H3 & H4); discriminate);
    try (intros _; repeat split; reflexivity).
Qed.

Lemma handleEditGame_nothing_requested_witness :
  (snd (Edit.handleEditGame
          {| Edit.updatedNumbers := []; Edit.selectedFeatures := [];
             Edit.generalRequest := [32]; Edit.isFixing := false;
             Edit.customFixText := []; Edit.selectedFixCheckboxes := [] |}
          {| Edit.app := loaded plain_script; Edit.isEditing := false |})
   = None)
  /\ s_error (Edit.app (fst (Edit.handleEditGame
          {| Edit.updatedNumbers := []; Edit.selectedFeatures := [];
             Edit.generalRequest := [32]; Edit.isFixing := false;
             Edit.customFixText := []; Edit.selectedFixCheckboxes := [] |}
          {| Edit.app := loaded plain_script; Edit.isEditing := false |})))
     = Some (u16 "No changes were requested.").
Proof.
  destruct (handleEditGame_nothing_requested
              {| Edit.updatedNumbers := []; Edit.selectedFeatures := [];
                 Edit.generalRequest := [32]; Edit.isFixing := false;
                 Edit.customFixText := []; Edit.selectedFixCheckboxes := [] |}
              {| Edit.app := loaded plain_script; Edit.isEditing := false |}
              10 (tl plain_script) eq_refl) as [[_ H1] H2].
  assert (H : snd (Edit.handleEditGame
          {| Edit.updatedNumbers := []; Edit.selectedFeatures := [];
             Edit.generalRequest := [32]; Edit.isFixing := false;
             Edit.customFixText := []; Edit.selectedFixCheckboxes := [] |}
          {| Edit.app := loaded plain_script; Edit.isEditing := false |})
              = None)
    by (apply H1; repeat split; reflexivity).
  split; [exact H | exact (proj1 (H2 H))].
Defined.

(** X16: the text that is sent carries the script that is loaded, a line
    for every feature selected, a line for every number changed, and the
    general request, trimmed, when it is not blank. *)
Theorem handleEditGame_prompt (r : Edit.request) (st : Edit.EditorState)
    (text : str) :
  snd (Edit.handleEditGame r st) = Some text ->
  (exists script, s_gameScript (Edit.app st) = Some script
                  /\ contains text script)
  /\ (forall feature, In feature (Edit.selectedFeatures r) ->
                      contains text (Edit.feature_line feature))
  /\ (forall kv, In kv (Edit.updatedNumbers r) ->
                 contains text (Edit.number_line kv))
  /\ (is_blank (Edit.generalRequest r) = false ->
      contains text (Str.trim (Edit.generalRequest r))).
Proof.
  intros H. apply EditFacts.handleEditGame_sent in H as (script & Hs & ->).
  rewrite EditFacts.formattedChanges_parts. unfold Edit.contents.
  split; [|split; [|split]].
  - exists script. split; [exact Hs|].
    do 2 apply EditFacts.contains_app_r.
    apply EditFacts.contains_app_l, EditFacts.contains_refl.
  - intros feature Hin. do 8 apply EditFacts.contains_app_r.
    apply EditFacts.contains_app_l. unfold EditFacts.featuresPart.
    destruct (Edit.selectedFeatures r) as [|f fs] eqn:E; [contradiction|].
    do 3 apply EditFacts.contains_app_r.
    now apply EditFacts.contains_concat_map.
  - intros kv Hin. do 7 apply EditFacts.contains_app_r.
    apply EditFacts.contains_app_l. unfold EditFacts.numbersPart.
    destruct (Edit.updatedNumbers r) as [|n ns] eqn:E; [contradiction|].
    do 3 apply EditFacts.contains_app_r.
    now apply EditFacts.contains_concat_map.
  - intros Hb. do 9 apply EditFacts.contains_app_r.
    unfold EditFacts.generalPart. rewrite Hb. cbn [negb].
    do 3 apply EditFacts.contains_app_r. apply EditFacts.contains_refl.
Qed.

Lemma handleEditGame_prompt_witness :
  exists text,
    snd (Edit.handleEditGame
           {| Edit.updatedNumbers := []; Edit.selectedFeatures := [u16 "Add a timer"];
              Edit.generalRequest := []; Edit.isFixing := false;
              Edit.customFixText := []; Edit.selectedFixCheckboxes := [] |}
           {| Edit.app := loaded plain_script; Edit.isEditing := false |})
    = Some text
    /\ contains text (Edit.feature_line (u16 "Add a timer")).
Proof.
  eexists. split; [reflexivity|].
  refine (proj1 (proj2 (handleEditGame_prompt
           {| Edit.updatedNumbers := []; Edit.selectedFeatures := [u16 "Add a timer"];
              Edit.generalRequest := []; Edit.isFixing := false;
              Edit.customFixText := []; Edit.selectedFixCheckboxes := [] |}
           {| Edit.app := loaded plain_script; Edit.isEditing := false |}
           _ eq_refl)) (u16 "Add a timer") _).
  left. reflexivity.
Defined.

(** X17: every option of the fix checkboxes of the edit panel has an
    instruction in the table of the handler: in a fix request, each checked
    option puts its instruction, on a line of its own, in the changes. *)
Theorem fix_option_instruction (r : Edit.request) (key : str) :
  Edit.isFixing r = true ->
  In key (Edit.selectedFixCheckboxes r) ->
  In key EditPanel.fixCheckOptions ->
  exists text,
    Edit.instruction key Edit.detailedInstructions = Some text
    /\ text <> []
    /\ contains (fst (Edit.formattedChanges r)) (text ++ [10]).
Proof.
  intros Hf Hsel Hopt.
  destruct (EditFacts.option_instruction key Hopt) as (c & text & Hi).
  exists (c :: text). split; [exact Hi|]. split; [discriminate|].
  rewrite EditFacts.formattedChanges_parts. unfold EditFacts.fixPart.
  rewrite Hf. apply EditFacts.contains_app_l. unfold Edit.fixPrompt.
  apply EditFacts.contains_app_r, EditFacts.contains_app_l.
  pose proof (EditFacts.contains_concat_map
                (fun key => match Edit.instruction key Edit.detailedInstructions with
                            | Some (c :: text) => (c :: text) ++ [10]
                            | _ => []
                            end) (Edit.selectedFixCheckboxes r) key Hsel) as H.
  cbv beta in H. now rewrite Hi in H.
Qed.

Lemma fix_option_instruction_witness :
  exists text,
    Edit.instruction (u16 "...and the buttons don't work")
      Edit.detailedInstructions = Some text
    /\ text <> []
    /\ contains
         (fst (Edit.formattedChanges
                 {| Edit.updatedNumbers := []; Edit.selectedFeatures := [];
                    Edit.generalRequest := []; Edit.isFixing := true;
                    Edit.customFixText := [];
                    Edit.selectedFixCheckboxes :=
                      [u16 "...and the buttons don't work"] |}))
         (text ++ [10]).
Proof.
  apply (fix_option_instruction
           {| Edit.updatedNumbers := []; Edit.selectedFeatures := [];
              Edit.generalRequest := []; Edit.isFixing := true;
              Edit.customFixText := [];
              Edit.selectedFixCheckboxes :=
                [u16 "...and the buttons don't work"] |}
           (u16 "...and the buttons don't work")).
  - reflexivity.
  - left. reflexivity.
  - right. right. left. reflexivity.
Defined.

Module FenceFacts.
Import Str Edit.

Lemma strip_javascript_prefix (t : str) :
  strip_fence_javascript (fence ++ u16 "javascript" ++ [10] ++ t) = t.
Proof.
  unfold strip_fence_javascript.
  change (indexOf (fence ++ u16 "javascript" ++ [10] ++ t)
            (fence ++ u16 "javascript"))
    with (indexOf ((fence ++ u16 "javascript") ++ 10 :: t)
            (fence ++ u16 "javascript")).
  rewrite TextFacts.indexOf_prefix. reflexivity.
Qed.

End FenceFacts.

(** X18: a reply that wraps the script in a javascript code fence, with or
    without a line feed after the closing fence, gives the script itself,
    for a script that has no white space at its ends. *)
Theorem newScript_fenced (script : str) :
  Str.trim script = script ->
  Edit.newScript (fence ++ u16 "javascript" ++ [10] ++ script ++ [10] ++ fence)
  = script
  /\ Edit.newScript (fence ++ u16 "javascript" ++ [10] ++ script ++ [10]
                     ++ fence ++ [10])
     = script.
Proof.
  intros Ht. unfold Edit.newScript.
  rewrite !FenceFacts.strip_javascript_prefix. unfold strip_fence_close.
  split.
  - replace (Str.endsWith (script ++ [10] ++ fence) (fence ++ [10]))
      with false.
    2:{ unfold Str.endsWith. rewrite !rev_app_distr. reflexivity. }
    replace (script ++ [10] ++ fence) with ((script ++ [10]) ++ fence)
      by now rewrite <- app_assoc.
    rewrite TextFacts.endsWith_app, length_app, Nat.add_sub.
    rewrite ExportFacts.firstn_exact, RoundTrip.trim_snoc by reflexivity.
    exact Ht.
  - replace (script ++ [10] ++ fence ++ [10])
      with ((script ++ [10]) ++ fence ++ [10])
      by now rewrite <- app_assoc.
    rewrite TextFacts.endsWith_app, length_app, Nat.add_sub.
    rewrite ExportFacts.firstn_exact, RoundTrip.trim_snoc by reflexivity.
    exact Ht.
Qed.

Lemma newScript_fenced_witness :
  Edit.newScript (fence ++ u16 "javascript" ++ [10] ++ u16 "var x = 1;"
                  ++ [10] ++ fence)
  = u16 "var x = 1;"
  /\ Edit.newScript (fence ++ u16 "javascript" ++ [10] ++ u16 "var x = 1;"
                     ++ [10] ++ fence ++ [10])
     = u16 "var x = 1;".
Proof.
  exact (newScript_fenced (u16 "var x = 1;") eq_refl).
Defined.

(** X19: a reply without any code fence is taken as the script, trimmed. *)
Theorem newScript_plain (text : str) :
  ~ contains text fence -> Edit.newScript text = Str.trim text.
Proof.
  intros H. unfold Edit.newScript.
  assert (Ho : Edit.strip_fence_javascript text = text).
  { unfold Edit.strip_fence_javascript.
    rewrite ExportFacts.not_contains_indexOf; [reflexivity|].
    intros Hc. apply H.
    apply (TextFacts.contains_more text fence [] (u16 "javascript")).
    exact Hc. }
  rewrite Ho. unfold strip_fence_close.
  destruct (Str.endsWith text (fence ++ [10])) eqn:E1.
  { exfalso. apply H. apply TextFacts.endsWith_inv in E1 as [a ->].
    exists a, [10]. reflexivity. }
  destruct (Str.endsWith text fence) eqn:E2; [|reflexivity].
  exfalso. apply H. apply TextFacts.endsWith_inv in E2 as [a ->].
  exists a, []. now rewrite app_nil_r.
Qed.

Lemma newScript_plain_witness :
  Edit.newScript (u16 " var x = 1; ") = Str.trim (u16 " var x = 1; ").
Proof.
  apply (newScript_plain (u16 " var x = 1; ")).
  apply (TextFacts.absent_not_contains 96); [|now left].
  cbn. intros H. repeat (destruct H as [H|H]; [discriminate H|]). exact H.
Defined.

(** ** The selections of the edit panel *)

Module ToggleFacts.
Import EditPanel.

Definition selected (y : str) (sel : list str) : bool :=
  existsb (str_eqb y) sel.

Lemma str_eqb_sym (a b : str) : str_eqb a b = str_eqb b a.
Proof.
  destruct (str_eqb a b) eqn:E1, (str_eqb b a) eqn:E2; try reflexivity.
  - apply JsonRoundTrip.str_eqb_eq in E1. subst.
    now rewrite (proj2 (JsonRoundTrip.str_eqb_eq b b) eq_refl) in E2.
  - apply JsonRoundTrip.str_eqb_eq in E2. subst.
    now rewrite (proj2 (JsonRoundTrip.str_eqb_eq a a) eq_refl) in E1.
Qed.

Lemma selected_filter (x y : str) (sel : list str) :
  selected y (filter (fun s => negb (str_eqb s x)) sel)
  = selected y sel && negb (str_eqb y x).
Proof.
  unfold selected. induction sel as [|s sel IH]; [reflexivity|].
  cbn [filter existsb]. destruct (str_eqb s x) eqn:Es; cbn [negb existsb].
  - rewrite IH. apply JsonRoundTrip.str_eqb_eq in Es. subst s.
    destruct (str_eqb y x); cbn [orb negb]; [now rewrite !andb_false_r|].
    reflexivity.
  - rewrite IH. destruct (str_eqb y s) eqn:Ey; [|reflexivity].
    apply JsonRoundTrip.str_eqb_eq in Ey. subst s.
    rewrite Es. reflexivity.
Qed.

(** A click flips the option that is clicked and no other one. *)
Lemma selected_toggle (x y : str) (sel : list str) :
  selected y (toggle x sel) = xorb (selected y sel) (str_eqb y x).
Proof.
  unfold toggle. fold (selected x sel).
  destruct (selected x sel) eqn:Ex.
  - rewrite selected_filter. destruct (str_eqb y x) eqn:Ey.
    + apply JsonRoundTrip.str_eqb_eq in Ey. subst y. now rewrite Ex.
    + cbn [negb]. now rewrite andb_true_r, xorb_false_r.
  - unfold selected at 1. rewrite existsb_app. fold (selected y sel).
    cbn [existsb]. rewrite orb_false_r.
    destruct (str_eqb y x) eqn:Ey.
    + apply JsonRoundTrip.str_eqb_eq in Ey. subst y. now rewrite Ex.
    + now rewrite orb_false_r, xorb_false_r.
Qed.

Lemma toggle_NoDup (x : str) (sel : list str) :
  NoDup sel -> NoDup (toggle x sel).
Proof.
  intros H. unfold toggle. destruct (existsb (str_eqb x) sel) eqn:E.
  - now apply NoDup_filter.
  - apply NoDup_app; [exact H | repeat constructor; intros [] |].
    intros a Ha [Hax|[]]. subst a.
    assert (Hx : existsb (str_eqb x) sel = true).
    { apply existsb_exists. exists x. split; [exact Ha|].
      now apply JsonRoundTrip.str_eqb_eq. }
    congruence.
Qed.

Lemma toggle_incl (x : str) (sel options : list str) :
  In x options -> incl sel options -> incl (toggle x sel) options.
Proof.
  intros Hx H. unfold toggle. destruct (existsb (str_eqb x) sel).
  - intros a Ha. apply filter_In in Ha as [Ha _]. now apply H.
  - intros a Ha. apply in_app_or in Ha as [Ha|[<-|[]]]; [now apply H|exact Hx].
Qed.

End ToggleFacts.

(** The selection after the clicks [clicks], from the empty selection that
    the panel starts with. *)
Definition clicked (clicks : list str) : list str :=
  fold_left (fun sel x => EditPanel.toggle x sel) clicks [].

(** X20: after any clicks on the checkboxes, an option is selected exactly
    when it was clicked an odd number of times; the selection has no option
    twice and holds clicked options only. *)
Theorem clicked_parity (clicks : list str) (y : str) :
  (In y (clicked clicks)
   <-> Nat.odd (count_occ (list_eq_dec N.eq_dec) clicks y) = true)
  /\ NoDup (clicked clicks)
  /\ incl (clicked clicks) clicks.
Proof.
  unfold clicked.
  assert (H : forall sel,
             ToggleFacts.selected y
               (fold_left (fun sel x => EditPanel.toggle x sel) clicks sel)
             = xorb (ToggleFacts.selected y sel)
                 (Nat.odd (count_occ (list_eq_dec N.eq_dec) clicks y))).
  { induction clicks as [|x clicks IH]; intros sel.
    - cbn. now rewrite xorb_false_r.
    - cbn [fold_left count_occ]. rewrite IH, ToggleFacts.selected_toggle.
      destruct (list_eq_dec N.eq_dec x y) as [->|Hn].
      + rewrite (proj2 (JsonRoundTrip.str_eqb_eq y y) eq_refl).
        rewrite Nat.odd_succ, <- Nat.negb_odd.
        destruct (ToggleFacts.selected y sel), (Nat.odd _); reflexivity.
      + destruct (str_eqb y x) eqn:E.
        * apply JsonRoundTrip.str_eqb_eq in E. congruence.
        * now rewrite xorb_false_r. }
  assert (Hnd : forall sel, NoDup sel ->
             NoDup (fold_left (fun sel x => EditPanel.toggle x sel) clicks sel)).
  { clear H. induction clicks as [|x clicks IH]; intros sel Hs; [exact Hs|].
    cbn [fold_left]. apply IH. now apply ToggleFacts.toggle_NoDup. }
  assert (Hin : forall options sel, incl clicks options -> incl sel options ->
             incl (fold_left (fun sel x => EditPanel.toggle x sel) clicks sel)
               options).
  { clear H Hnd.
    induction clicks as [|x clicks IH]; intros options sel Hc Hs; [exact Hs|].
    cbn [fold_left]. apply IH.
    - intros a Ha. apply Hc. now right.
    - apply ToggleFacts.toggle_incl; [apply Hc; now left | exact Hs]. }
  split; [|split].
  - specialize (H []). cbn [ToggleFacts.selected existsb xorb] in H.
    rewrite <- H. unfold ToggleFacts.selected. rewrite existsb_exists.
    split.
    + intros Hy. exists y. split; [exact Hy|].
      now apply JsonRoundTrip.str_eqb_eq.
    + intros [z [Hz E]]. apply JsonRoundTrip.str_eqb_eq in E. now subst.
  - apply Hnd. constructor.
  - apply Hin; [apply incl_refl | intros a []].
Qed.

(** ** The exported file *)

(** X21: the name of the exported file is made of at most thirty
    characters, each a lower-case letter, a digit or a dash, followed by
    the extension, whatever the title and the lower-case mapping are. *)
Theorem fileName_shape (toLowerCase : str -> str) (title : str) :
  exists slug,
    ExportFile.fileName toLowerCase title = slug ++ u16 ".txt"
    /\ List.length slug = Nat.min 30 (List.length (toLowerCase title))
    /\ Forall (fun c => ExportFile.is_slug_char c = true \/ c = 45) slug.
Proof.
  unfold ExportFile.fileName.
  set (mapped := List.map (fun c => if ExportFile.is_slug_char c then c else 45)
                   (toLowerCase title)).
  exists (firstn 30 mapped). split; [reflexivity|]. split.
  - rewrite length_firstn. unfold mapped. now rewrite length_map.
  - assert (H : Forall (fun c => ExportFile.is_slug_char c = true \/ c = 45)
                  mapped).
    { unfold mapped. apply Forall_forall. intros c Hc.
      apply in_map_iff in Hc as [x [<- _]].
      destruct (ExportFile.is_slug_char x) eqn:E; [now left | now right]. }
    rewrite <- (firstn_skipn 30 mapped) in H.
    now apply Forall_app in H.
Qed.

(** X22: with a descriptor and a script loaded, the export writes the
    file when the title of the descriptor is a string, under the name made
    from the title; for any other title it raises a TypeError and writes
    nothing. *)
Theorem handleExport_title (toLowerCase : str -> str) (st : AppState)
    (d : json) (c : N) (script : str) :
  s_gameData st = Some d -> s_gameScript st = Some (c :: script) ->
  (forall t, field d (u16 "title") = Some (JStr t) ->
     ExportFile.handleExport toLowerCase st
     = Normal (Some (ExportFile.fileName toLowerCase t,
                     exported d (c :: script))))
  /\ ((forall t, field d (u16 "title") <> Some (JStr t)) ->
      exists m, ExportFile.handleExport toLowerCase st = Throw (TypeError m)).
Proof.
  intros Hd Hs. unfold ExportFile.handleExport. rewrite Hd, Hs. split.
  - intros t Ht. destruct d; try discriminate Ht.
    cbn [field] in Ht. cbn [prop bind]. now rewrite Ht.
  - intros Ht. destruct d as [|?|?|?|?|fields];
      try (eexists; reflexivity).
    cbn [field] in Ht. cbn [prop bind].
    destruct (lookup (u16 "title") fields) as [[|?|?|t|?|?]|];
      try (eexists; reflexivity).
    now contradiction (Ht t).
Qed.

(** A descriptor that the parser accepts and whose title is a number. *)
Definition numbered_game : json :=
  JObj [(u16 "title", JNum (Finite 5 0));
        (u16 "description", JStr (u16 "Match pairs."));
        (u16 "how_to_play", JArr [JStr (u16 "Click a card")])].

Lemma handleExport_title_witness :
  descriptor_ok numbered_game = true
  /\ exists m,
       ExportFile.handleExport (List.map Str.lower)
         (setGameScript (Some (u16 "var x;"))
            (setGameData (Some numbered_game) ready))
       = Throw (TypeError m).
Proof.
  split; [reflexivity|].
  apply (proj2 (handleExport_title (List.map Str.lower)
                  (setGameScript (Some (u16 "var x;"))
                     (setGameData (Some numbered_game) ready))
                  numbered_game 118 (u16 "ar x;") eq_refl eq_refl)).
  intros t. discriminate.
Defined.

(** ** The instructions of the page *)

Module PreviewFacts.
Import Preview.

(** The items of rules that are strings. *)
Lemma rule_items_strings (rules : list str) :
  rule_items (List.map JStr rules)
  = Normal (List.map (fun rule => u16 "<li>" ++ rule ++ u16 "</li>") rules).
Proof.
  induction rules as [|rule rules IH]; [reflexivity|].
  cbn [List.map rule_items]. rewrite IH. reflexivity.
Qed.

(** The items of rules of which one, after strings, cannot be converted. *)
Lemma rule_items_raise (before : list str) (fields : list (str * json))
    (after : list json) :
  lookup (u16 "toString") fields <> None ->
  rule_items (List.map JStr before ++ JObj fields :: after)
  = Throw (TypeError (u16 "Cannot convert object to primitive value")).
Proof.
  intros H. induction before as [|rule before IH].
  - destruct (lookup (u16 "toString") fields) as [v|] eqn:E; [|congruence].
    cbn [List.map app rule_items]. unfold rule_item.
    cbn [js_to_string]. rewrite E. reflexivity.
  - cbn [List.map app rule_items]. rewrite IH. reflexivity.
Qed.

End PreviewFacts.

(** X23: for a descriptor whose instructions are an array of strings the
    list of the page has one item for each rule, in order, and the item
    that says that no instructions were provided when there is no rule.  A
    rule that is an object with a property named toString, after rules that
    are strings, cannot be converted by the template: building the list
    raises a TypeError. *)
Theorem howToPlayHtml_accepted (d : json) :
  (forall rules,
     field d (u16 "how_to_play") = Some (JArr (List.map JStr rules)) ->
     Preview.howToPlayHtml (Some d)
     = Normal match rules with
              | [] => Preview.no_instructions
              | _ :: _ =>
                  List.concat
                    (List.map (fun rule => u16 "<li>" ++ rule ++ u16 "</li>")
                       rules)
              end)
  /\ (forall before fields after,
        field d (u16 "how_to_play")
        = Some (JArr (List.map JStr before ++ JObj fields :: after)) ->
        lookup (u16 "toString") fields <> None ->
        Preview.howToPlayHtml (Some d)
        = Throw (TypeError (u16 "Cannot convert object to primitive value"))).
Proof.
  split.
  - intros rules H. destruct d; try discriminate H.
    cbn [field] in H. unfold Preview.howToPlayHtml. cbn [prop bind].
    rewrite H, PreviewFacts.rule_items_strings. cbn [bind].
    destruct rules as [|rule rules]; reflexivity.
  - intros before fs after H Hts. destruct d; try discriminate H.
    cbn [field] in H. unfold Preview.howToPlayHtml. cbn [prop bind].
    now rewrite H, PreviewFacts.rule_items_raise.
Qed.

(** A descriptor that the parser accepts and whose second rule is an
    object with a property named toString. *)
Definition odd_rule_game : json :=
  JObj [(u16 "title", JStr (u16 "Match Game"));
        (u16 "description", JStr (u16 "Match pairs."));
        (u16 "how_to_play",
         JArr [JStr (u16 "Click a card");
               JObj [(u16 "toString", JNum (Finite 1 0))]])].

Lemma howToPlayHtml_accepted_witness :
  Preview.howToPlayHtml (Some match_game)
  = Normal (u16 "<li>Click a card</li>")
  /\ descriptor_ok odd_rule_game = true
  /\ Preview.howToPlayHtml (Some odd_rule_game)
     = Throw (TypeError (u16 "Cannot convert object to primitive value")).
Proof.
  split; [|split; [reflexivity|]].
  - exact (proj1 (howToPlayHtml_accepted match_game)
             [u16 "Click a card"] eq_refl).
  - apply (proj2 (howToPlayHtml_accepted odd_rule_game)
             [u16 "Click a card"] [(u16 "toString", JNum (Finite 1 0))] []).
    + reflexivity.
    + discriminate.
Defined.

(** ** The suggestions and the parameters *)



(** X25: the parameters are read in the text from the first opening
    bracket to the last closing bracket, whatever comes before and after;
    a reply without one of the two brackets gives no parameters. *)
Theorem extractParams_bracketed (p mid q rawText : str) :
  (~ In 91 p -> ~ In 93 q ->
   Suggest.extractParams (p ++ 91 :: mid ++ 93 :: q)
   = match JSON_parse (91 :: mid ++ [93]) with
     | Normal params => Some params
     | Throw _ => None
     end)
  /\ (~ In 91 rawText \/ ~ In 93 rawText ->
      Suggest.extractParams rawText = None).
Proof.
  unfold Suggest.extractParams. split.
  - intros Hp Hq. now rewrite DelimitedFacts.match_delimited_found.
  - intros H. now rewrite DelimitedFacts.match_delimited_None.
Qed.

Lemma extractParams_bracketed_witness :
  Suggest.extractParams (u16 "Here: " ++ 91 :: jq "{'name':'speed'}"
                         ++ 93 :: u16 " done")
  = Some (JArr [JObj [(u16 "name", JStr (u16 "speed"))]])
  /\ Suggest.extractParams (u16 "none") = None.
Proof.
  destruct (extractParams_bracketed (u16 "Here: ") (jq "{'name':'speed'}")
              (u16 " done") (u16 "none")) as [H1 H2].
  split.
  - rewrite H1; [reflexivity| |];
      cbn; intros H; repeat (destruct H as [H|H]; [discriminate H|]); exact H.
  - apply H2. left.
    cbn. intros H. repeat (destruct H as [H|H]; [discriminate H|]). exact H.
Defined.

(** ** The labels that are decoded *)

Module LabelFacts.
Import Str Template.

(** Splitting at a character the pieces that were joined with it, when no
    piece has the character. *)
Lemma split_join (c : N) (pieces : list str) :
  pieces <> [] -> Forall (fun p => ~ In c p) pieces ->
  split (join [c] pieces) [c] = pieces.
Proof.
  intros Hne H. induction pieces as [|x pieces IH]; [congruence|].
  inversion H as [|? ? Hx Hrest]; subst.
  rewrite SplitFacts.split_indexOf by discriminate.
  destruct pieces as [|y pieces].
  - cbn [join]. now rewrite DelimitedFacts.indexOf_single_None.
  - change (join [c] (x :: y :: pieces))
      with (x ++ c :: join [c] (y :: pieces)).
    rewrite DelimitedFacts.indexOf_single by exact Hx.
    rewrite ExportFacts.firstn_exact. f_equal.
    replace (skipn (List.length x + List.length [c])
               (x ++ c :: join [c] (y :: pieces)))
      with (join [c] (y :: pieces)).
    + apply IH; [discriminate | exact Hrest].
    + clear. induction x as [|a x IHx]; [reflexivity | exact IHx].
Qed.

Lemma join_nonempty (sep : str) (x y : str) (rest : list str) :
  sep <> [] -> join sep (x :: y :: rest) <> [].
Proof.
  intros Hs. cbn [join]. intros H.
  apply app_eq_nil in H as [_ H]. apply app_eq_nil in H as [H _].
  congruence.
Qed.

Lemma pairs_of_entries (entries : list str) (pairs : list (str * str)) :
  entries <> [] ->
  Forall2 (fun entry ab => trim entry = fst ab ++ u16 "/" ++ snd ab)
    entries pairs ->
  Forall (fun entry => ~ In 44 entry) entries ->
  Forall (fun ab => ~ In 47 (fst ab) /\ ~ In 47 (snd ab)) pairs ->
  pairs_of (join (u16 ",") entries)
  = List.map (fun ab => [fst ab; snd ab]) pairs.
Proof.
  intros Hne H2 Hc Hs. unfold pairs_of.
  change (u16 ",") with [44]. rewrite split_join by assumption.
  clear Hne Hc. induction H2 as [|entry ab entries pairs He _ IH];
    [reflexivity|].
  inversion Hs as [|? ? [Ha Hb] Hrest]; subst.
  cbn [List.map]. rewrite IH by exact Hrest. f_equal.
  rewrite He. change (u16 "/") with [47].
  change (fst ab ++ [47] ++ snd ab) with (join [47] [fst ab; snd ab]).
  apply split_join; [discriminate|]. now repeat constructor.
Qed.

Lemma table_pairs (n : nat) (g : str * str -> str)
    (pairs : list (str * str)) (ks : list str) :
  (forall ab, nth_error [fst ab; snd ab] n = Some (g ab)) ->
  flat_map (fun kp => match nth_error (snd kp) n with
                      | Some x => [(fst kp, JStr x)]
                      | None => []
                      end)
    (combine ks (List.map (fun ab => [fst ab; snd ab]) pairs))
  = combine ks (List.map (fun ab => JStr (g ab)) pairs).
Proof.
  intros Hg. revert pairs. induction ks as [|k ks IH]; intros pairs;
    [reflexivity|].
  destruct pairs as [|ab pairs]; [reflexivity|].
  cbn [List.map combine flat_map fst snd]. rewrite Hg, IH. reflexivity.
Qed.

End LabelFacts.

(** X26: seven entries or more, each made of two texts around one slash,
    are decoded exactly: the first texts make the table of the comfortable
    language and the second texts that of the target language, under the
    seven keys in their order; the white space around an entry and the
    entries after the seventh are dropped. *)
Theorem labels_decoded (data : option json) (entries : list str)
    (pairs : list (str * str)) :
  Template.labels_of data = Some (JStr (join (u16 ",") entries)) ->
  Forall2 (fun entry ab => Str.trim entry = fst ab ++ u16 "/" ++ snd ab)
    entries pairs ->
  Forall (fun entry => ~ In 44 entry) entries ->
  Forall (fun ab => ~ In 47 (fst ab) /\ ~ In 47 (snd ab)) pairs ->
  (7 <= List.length pairs)%nat ->
  Template.translationsObject data
  = u16 "const t = { comf: "
      ++ JSON_stringify
           (JObj (combine Template.keys
                    (List.map (fun ab => JStr (fst ab)) pairs)))
      ++ u16 ", target: "
      ++ JSON_stringify
           (JObj (combine Template.keys
                    (List.map (fun ab => JStr (snd ab)) pairs)))
      ++ u16 " };".
Proof.
  intros Hl H2 Hc Hs Hlen.
  assert (Hlen' : List.length entries = List.length pairs)
    by (eapply Forall2_length; eassumption).
  assert (Hne : entries <> []).
  { destruct entries; [simpl in Hlen'; lia | discriminate]. }
  unfold Template.translationsObject. rewrite Hl.
  assert (Ht : truthy (Some (JStr (join (u16 ",") entries))) = true).
  { destruct entries as [|x [|y rest]]; try (simpl in Hlen'; lia).
    pose proof (LabelFacts.join_nonempty (u16 ",") x y rest) as Hj.
    cbn [truthy]. destruct (join (u16 ",") (x :: y :: rest));
      [now contradiction Hj | reflexivity]. }
  rewrite Ht.
  rewrite (LabelFacts.pairs_of_entries entries pairs Hne H2 Hc Hs).
  rewrite length_map.
  replace (List.length Template.keys <=? List.length pairs)%nat with true
    by (symmetry; apply Nat.leb_le; exact Hlen).
  unfold Template.table.
  rewrite (LabelFacts.table_pairs 0 fst), (LabelFacts.table_pairs 1 snd)
    by reflexivity.
  reflexivity.
Qed.

Definition seven_entries : list str :=
  [u16 "Language/Idioma"; u16 " Play/Jugar"; u16 " How to Play/Reglas";
   u16 " Settings/Ajustes"; u16 " Date/Fecha"; u16 " by/de";
   u16 " Made with/Hecho con"].

Definition seven_pairs : list (str * str) :=
  [(u16 "Language", u16 "Idioma"); (u16 "Play", u16 "Jugar");
   (u16 "How to Play", u16 "Reglas"); (u16 "Settings", u16 "Ajustes");
   (u16 "Date", u16 "Fecha"); (u16 "by", u16 "de");
   (u16 "Made with", u16 "Hecho con")].

Lemma labels_decoded_witness :
  Template.translationsObject
    (Some (JObj [(u16 "labels", JStr (join (u16 ",") seven_entries))]))
  = u16 "const t = { comf: "
      ++ JSON_stringify
           (JObj (combine Template.keys
                    (List.map (fun ab => JStr (fst ab)) seven_pairs)))
      ++ u16 ", target: "
      ++ JSON_stringify
           (JObj (combine Template.keys
                    (List.map (fun ab => JStr (snd ab)) seven_pairs)))
      ++ u16 " };".
Proof.
  apply (labels_decoded
           (Some (JObj [(u16 "labels", JStr (join (u16 ",") seven_entries))]))
           seven_entries seven_pairs).
  - reflexivity.
  - repeat constructor.
  - repeat constructor; cbn; intros H;
      repeat (destruct H as [H|H]; [discriminate H|]); exact H.
  - repeat constructor; cbn; intros H;
      repeat (destruct H as [H|H]; [discriminate H|]); exact H.
  - cbn. lia.
Defined.

(** X27: an entry without a slash leaves its key out of the table of the
    target language: in the tables that are built from the labels, a key
    has the first text of its entry, as split at the slashes, in the table
    of the comfortable language, where it is never missing, and the second
    text in the table of the target language, where it is missing when the
    entry has no slash. *)
Theorem labels_missing_slash (labels : str) (i : nat) (key : str)
    (pair : list str) :
  nth_error Template.keys i = Some key ->
  nth_error (Template.pairs_of labels) i = Some pair ->
  field (Template.table 0 (Template.pairs_of labels)) key
  = option_map JStr (nth_error pair 0)
  /\ field (Template.table 1 (Template.pairs_of labels)) key
     = option_map JStr (nth_error pair 1)
  /\ nth_error pair 0 <> None.
Proof.
  intros Hk Hp.
  assert (Hpair : pair <> []).
  { unfold Template.pairs_of in Hp. rewrite nth_error_map in Hp.
    destruct (nth_error (Str.split labels (u16 ",")) i); [|discriminate].
    injection Hp as <-. apply ChatFacts.split_go_nonempty. }
  assert (H : forall n,
             field (Template.table n (Template.pairs_of labels)) key
             = option_map JStr (nth_error pair n)).
  { intros n. unfold Template.table. cbn [field].
    generalize dependent (Template.pairs_of labels). intros pairs Hp.
    clear Hpair.
    assert (Hnd : NoDup Template.keys).
    { apply JsonRoundTrip.distinct_NoDup. reflexivity. }
    revert Hnd Hk. generalize Template.keys as ks. intros ks. revert i pairs Hp.
    induction ks as [|k ks IH]; intros i pairs Hp Hnd Hk.
    - destruct i; discriminate.
    - inversion Hnd as [|? ? Hnk Hnd']; subst.
      destruct pairs as [|p pairs]; [destruct i; discriminate|].
      cbn [combine flat_map fst snd]. rewrite MessageFacts.lookup_app.
      destruct i as [|i].
      + injection Hk as ->. injection Hp as ->.
        destruct (nth_error pair n) as [x|]; cbn [lookup option_map].
        * now rewrite MessageFacts.str_eqb_refl.
        * apply JsonRoundTrip.lookup_absent.
          clear - Hnk. intros Hin. apply Hnk.
          apply in_map_iff in Hin as [[k' v] [<- Hin]].
          apply in_flat_map in Hin as [[k2 p2] [Hc Hin]].
          cbn [fst snd] in Hin.
          destruct (nth_error p2 n); [|contradiction].
          destruct Hin as [[= <- <-]|[]].
          cbn [fst]. now apply in_combine_l in Hc.
      + cbn [nth_error] in Hk, Hp.
        assert (Hkk : str_eqb key k = false).
        { destruct (str_eqb key k) eqn:E; [|reflexivity].
          apply JsonRoundTrip.str_eqb_eq in E. subst k.
          exfalso. apply Hnk. now apply nth_error_In in Hk. }
        destruct (nth_error p n); cbn [lookup]; rewrite ?Hkk;
          now apply (IH i). }
  split; [apply H|]. split; [apply H|].
  destruct pair; [congruence | discriminate].
Qed.

Lemma labels_missing_slash_witness :
  field (Template.table 1
           (Template.pairs_of (u16 "a/b,c,d/e,f/g,h/i,j/k,l/m")))
    (u16 "play")
  = None.
Proof.
  exact (proj1 (proj2 (labels_missing_slash (u16 "a/b,c,d/e,f/g,h/i,j/k,l/m")
                         1 (u16 "play") [u16 "c"] eq_refl eq_refl))).
Defined.

(** ** The decorations of an idea *)

(** A text that starts with neither a bullet nor an ordinal: it is empty,
    or its first character is neither a star nor a dash, and it is not made
    of digits followed by a point. *)
Definition undecorated (t : str) : Prop :=
  match t with
  | [] => True
  | c :: _ =>
      c <> 42 /\ c <> 45
      /\ forall ds rest, ds <> [] -> forallb Str.is_digit ds = true ->
                         t <> ds ++ 46 :: rest
  end.

(** [stripped t s]: the text [s] is the text [t] without its leading
    decoration, a bullet (a star or a dash) or an ordinal (digits and a
    point), and without the white space, if any, that follows the
    decoration; a text without a leading decoration is left as it is. *)
Inductive stripped : str -> str -> Prop :=
| stripped_bullet (c : N) (w s : str) :
    c = 42 \/ c = 45 ->
    forallb Str.is_white_space w = true -> ChatFacts.solid s ->
    stripped (c :: w ++ s) s
| stripped_ordinal (ds w s : str) :
    ds <> [] -> forallb Str.is_digit ds = true ->
    forallb Str.is_white_space w = true -> ChatFacts.solid s ->
    stripped (ds ++ 46 :: w ++ s) s
| stripped_plain (t : str) :
    undecorated t -> stripped t t.

Module IdeaFacts.
Import Str Chat.

Lemma span_digits_spec (t ds rest : str) :
  Json.span_digits t = (ds, rest) ->
  t = ds ++ rest /\ forallb is_digit ds = true /\ ChatFacts.solid_after rest.
Proof.
  revert ds rest. induction t as [|x t IH]; intros ds rest H; cbn in H.
  - injection H as <- <-. repeat split.
  - destruct (is_digit x) eqn:Ex.
    + destruct (Json.span_digits t) as [ds' rest'] eqn:E.
      injection H as <- <-. destruct (IH ds' rest' eq_refl) as (-> & Hd & Hr).
      repeat split; [cbn [forallb]; now rewrite Ex, Hd | exact Hr].
    + injection H as <- <-. repeat split. exact Ex.
Qed.

Lemma digit_not_point (ds rest : str) :
  forallb is_digit ds = true ->
  Json.span_digits (ds ++ 46 :: rest) = (ds, 46 :: rest).
Proof. intros H. now apply ChatFacts.span_digits_all. Qed.

(** What the replacement makes of a text that starts with a digit. *)
Lemma strip_digits (c : N) (r : str) :
  is_digit c = true ->
  strip_list_marker (c :: r)
  = match snd (Json.span_digits (c :: r)) with
    | d :: r' => if d =? 46 then trimStart r' else c :: r
    | [] => c :: r
    end.
Proof.
  intros Hd. unfold strip_list_marker.
  assert (Hw : is_white_space c = false).
  { unfold is_digit in Hd. apply andb_true_iff in Hd as [Ha Hb].
    apply N.leb_le in Ha, Hb. unfold is_white_space.
    repeat (apply orb_false_iff; split); try (apply N.eqb_neq; lia).
    apply andb_false_iff. left. apply N.leb_gt. lia. }
  rewrite RoundTrip.trimStart_solid by exact Hw.
  assert (Hb : (c =? 42) || (c =? 45) = false).
  { unfold is_digit in Hd. apply andb_true_iff in Hd as [Ha Hb].
    apply N.leb_le in Ha, Hb.
    apply orb_false_iff; split; apply N.eqb_neq; lia. }
  rewrite Hb, Hd.
  destruct (snd (Json.span_digits (c :: r))) as [|d r']; [reflexivity|].
  destruct d as [|p]; [reflexivity|].
  repeat (destruct p as [p|p|]; try reflexivity).
Qed.

Lemma strip_undecorated (t : str) :
  ChatFacts.solid t -> undecorated t -> strip_list_marker t = t.
Proof.
  intros Hs Hu. destruct t as [|c r]; [reflexivity|].
  cbn [ChatFacts.solid] in Hs. destruct Hu as (H42 & H45 & Hd).
  destruct (is_digit c) eqn:Ec.
  - rewrite strip_digits by exact Ec.
    destruct (Json.span_digits (c :: r)) as [ds rest] eqn:E.
    destruct (span_digits_spec _ _ _ E) as (Ht & Hds & _). cbn [snd].
    destruct rest as [|d r']; [reflexivity|].
    destruct (N.eqb_spec d 46) as [->|_]; [|reflexivity].
    exfalso. apply (Hd ds r'); [|exact Hds|exact Ht].
    intros ->. cbn in E. rewrite Ec in E.
    destruct (Json.span_digits r); discriminate.
  - now apply ChatFacts.strip_none.
Qed.

Lemma trim_solid (part : str) : ChatFacts.solid (trim part).
Proof.
  destruct (TextFacts.trim_shape part) as [->|(x & l & c & -> & E & Hx & _)];
    [exact I|].
  rewrite E. exact Hx.
Qed.

(** The code strips what the relation says. *)
Lemma strip_stripped (t s : str) :
  ChatFacts.solid t -> stripped t s -> strip_list_marker t = s.
Proof.
  intros Ht H. destruct H as [c w s Hc Hw Hs|ds w s Hne Hd Hw Hs|t Hu].
  - now apply (ChatFacts.strip_bullet [] w s c).
  - now apply (ChatFacts.strip_ordinal [] w s ds).
  - now apply strip_undecorated.
Qed.

(** Every text is covered by the relation. *)
Lemma stripped_total (t : str) : exists s, stripped t s.
Proof.
  destruct t as [|c r]; [exists []; now apply stripped_plain|].
  destruct (N.eq_dec c 42) as [E42|N42];
    [|destruct (N.eq_dec c 45) as [E45|N45]].
  - destruct (StrFacts.trimStart_suffix r) as [w [Hr Hw]].
    exists (trimStart r). rewrite Hr at 1.
    apply stripped_bullet; [now left | exact Hw | apply TextFacts.trimStart_head].
  - destruct (StrFacts.trimStart_suffix r) as [w [Hr Hw]].
    exists (trimStart r). rewrite Hr at 1.
    apply stripped_bullet; [now right | exact Hw | apply TextFacts.trimStart_head].
  - destruct (is_digit c) eqn:Ec.
    + destruct (Json.span_digits (c :: r)) as [ds rest] eqn:E.
      destruct (span_digits_spec _ _ _ E) as (Ht & Hds & Hrest).
      assert (Hne : ds <> []).
      { intros ->. cbn in E. rewrite Ec in E.
        destruct (Json.span_digits r); discriminate. }
      destruct rest as [|d r'].
      * exists (c :: r). apply stripped_plain. repeat split; try assumption.
        intros ds' rest' Hne' Hd' Heq.
        rewrite Heq, digit_not_point in E by exact Hd'. discriminate.
      * destruct (N.eq_dec d 46) as [->|Nd].
        -- destruct (StrFacts.trimStart_suffix r') as [w [Hr Hw]].
           exists (trimStart r'). rewrite Ht, Hr at 1.
           apply stripped_ordinal; try assumption.
           apply TextFacts.trimStart_head.
        -- exists (c :: r). apply stripped_plain. repeat split; try assumption.
           intros ds' rest' Hne' Hd' Heq.
           rewrite Heq, digit_not_point in E by exact Hd'.
           injection E as _ E. congruence.
    + exists (c :: r). apply stripped_plain. repeat split; try assumption.
      intros ds' rest' Hne' Hd' Heq.
      destruct ds' as [|x ds']; [congruence|].
      injection Heq as -> _. cbn [forallb] in Hd'.
      apply andb_true_iff in Hd' as [Hx _]. congruence.
Qed.

(** The relation gives one text. *)
Lemma stripped_unique (t s1 s2 : str) :
  ChatFacts.solid t -> stripped t s1 -> stripped t s2 -> s1 = s2.
Proof.
  intros Ht H1 H2.
  rewrite <- (strip_stripped t s1 Ht H1). now apply strip_stripped.
Qed.

End IdeaFacts.

(** A body with a bullet, an ordinal and a blank last segment; 10 is the
    line feed. *)
Definition decorated_body : str :=
  u16 " - Build a quiz &&IDEA&&" ++ [10]
  ++ u16 "2.  Race the clock&&IDEA&& * &&IDEA&&  " ++ [10].

(** C10: a body split at the sentinel renders every segment before the last
    one with its text, and with an idea offer when the segment, trimmed and
    without a leading bullet or ordinal decoration, is not empty; the payload
    of the offer is that stripped text.  The stripped text is given by the
    relation [stripped], which does not depend on the program: after a star
    or a dash, or after digits and a point, at the start of the trimmed
    segment, the payload is what follows the white space after the
    decoration; a trimmed segment with neither is its own payload; every
    trimmed segment is in one of these cases.  The segment after the last
    sentinel is not rendered when it is empty or made of white space only,
    and is rendered without an offer otherwise.  The example body gives the
    one offer Try this: and the trailing segment made of a line feed and
    More text; a body with a bullet, an ordinal, a segment that is a bullet
    only and a blank last segment gives the two stripped offers and no last
    segment. *)
Theorem idea_offers :
  (forall body, body <> [] ->
     let parts := Str.split body Chat.ideaMarker in
     Chat.renderBody body
     = List.map ChatFacts.inner_part (removelast parts)
         ++ [ChatFacts.last_part (last parts [])]
     /\ Chat.offers body
        = filter Chat.nonempty (List.map Chat.ideaText (removelast parts)))
  /\ (forall part payload,
        stripped (Str.trim part) payload -> Chat.ideaText part = payload)
  /\ (forall part, exists payload, stripped (Str.trim part) payload)
  /\ (forall body, body <> [] ->
        forallb Str.is_white_space (last (Str.split body Chat.ideaMarker) [])
        = true ->
        last (Chat.renderBody body) None = None)
  /\ Chat.renderBody idea_body
     = [Some {| Chat.text := u16 "Try this: ";
                Chat.ideaButton := Some (u16 "Try this:") |};
        Some {| Chat.text := [10] ++ u16 "More text.";
                Chat.ideaButton := None |}]
  /\ Chat.offers idea_body = [u16 "Try this:"]
  /\ Chat.offers decorated_body = [u16 "Build a quiz"; u16 "Race the clock"]
  /\ Chat.renderBody decorated_body
     = [Some {| Chat.text := u16 " - Build a quiz ";
                Chat.ideaButton := Some (u16 "Build a quiz") |};
        Some {| Chat.text := [10] ++ u16 "2.  Race the clock";
                Chat.ideaButton := Some (u16 "Race the clock") |};
        Some {| Chat.text := u16 " * "; Chat.ideaButton := None |};
        None].
Proof.
  assert (Hshape : forall body, body <> [] ->
            Chat.renderBody body
            = List.map ChatFacts.inner_part
                (removelast (Str.split body Chat.ideaMarker))
                ++ [ChatFacts.last_part
                      (last (Str.split body Chat.ideaMarker) [])]).
  { intros body Hbody. unfold Chat.renderBody.
    destruct body as [|c body]; [congruence|].
    apply ChatFacts.renderParts_shape. apply ChatFacts.split_go_nonempty. }
  split; [|split; [|split; [|split]]].
  - intros body Hbody parts.
    pose proof (Hshape body Hbody) as Hr. fold parts in Hr.
    split; [exact Hr|].
    unfold Chat.offers. rewrite Hr, flat_map_app.
    change (flat_map _ (List.map ChatFacts.inner_part (removelast parts)))
      with (flat_map ChatFacts.button_of
              (List.map ChatFacts.inner_part (removelast parts))).
    rewrite ChatFacts.offers_inner. simpl.
    change (match ChatFacts.last_part (last parts []) with
            | Some {| Chat.ideaButton := Some idea |} => [idea]
            | _ => []
            end) with (ChatFacts.button_of (ChatFacts.last_part (last parts []))).
    rewrite ChatFacts.offers_last. now rewrite !app_nil_r.
  - intros part payload H. unfold Chat.ideaText.
    apply IdeaFacts.strip_stripped; [apply IdeaFacts.trim_solid | exact H].
  - intros part. apply IdeaFacts.stripped_total.
  - intros body Hbody Hblank. rewrite (Hshape body Hbody), last_last.
    unfold ChatFacts.last_part, is_blank.
    now rewrite (StrFacts.trim_blank _ Hblank).
  - repeat split; vm_compute; reflexivity.
Qed.

Lemma idea_offers_witness :
  stripped (Str.trim (u16 " - Build a quiz ")) (u16 "Build a quiz")
  /\ Chat.ideaText (u16 " - Build a quiz ") = u16 "Build a quiz"
  /\ stripped (Str.trim ([10] ++ u16 "2.  Race the clock"))
       (u16 "Race the clock")
  /\ Chat.ideaText ([10] ++ u16 "2.  Race the clock") = u16 "Race the clock"
  /\ decorated_body <> []
  /\ Chat.offers decorated_body
     = filter Chat.nonempty
         (List.map Chat.ideaText
            (removelast (Str.split decorated_body Chat.ideaMarker)))
  /\ last (Chat.renderBody decorated_body) None = None.
Proof.
  assert (H1 : stripped (Str.trim (u16 " - Build a quiz "))
                 (u16 "Build a quiz")).
  { apply (stripped_bullet 45 [32] (u16 "Build a quiz"));
      [now right | reflexivity | reflexivity]. }
  assert (H2 : stripped (Str.trim ([10] ++ u16 "2.  Race the clock"))
                 (u16 "Race the clock")).
  { apply (stripped_ordinal [50] [32; 32] (u16 "Race the clock"));
      [discriminate | reflexivity | reflexivity | reflexivity]. }
  assert (H3 : decorated_body <> []) by discriminate.
  destruct idea_offers as (Hshape & Hstrip & _ & Hlast & _).
  split; [exact H1|]. split; [exact (Hstrip _ _ H1)|].
  split; [exact H2|]. split; [exact (Hstrip _ _ H2)|].
  split; [exact H3|]. split; [exact (proj2 (Hshape decorated_body H3))|].
  apply (Hlast decorated_body H3). reflexivity.
Defined.
